(** * Image-comparison grader: the scoring core of [lib/advancedGrading]

    A shallow embedding of the scoring pipeline (the three similarity
    metrics, the style classifier, the grading engine and the feedback
    generator) and the properties its specification states about it.

    The source computes on JavaScript numbers.  The program is written once,
    over an interface [JSNum] of the number operations it uses, and read at
    the instance [IEEE]: binary64 floating point, the numbers the program
    runs on (Rocq's primitive floats; every definition evaluates).  The
    properties that depend on the arithmetic are proved at that instance,
    rounding included; the others hold at every instance. *)

From Stdlib Require Import ZArith QArith List String Ascii Bool Lia.
From Stdlib Require Import Floats.
Import ListNotations.

Local Open Scope string_scope.
Local Open Scope list_scope.

(** ** JavaScript arrays *)

Module JSArray.

(** [arr.reduce((acc, val, i) => f(acc, val, i), init)]: a left fold that
    also passes the index. *)
Fixpoint reduce_from {A B : Type} (f : A -> B -> nat -> A) (i : nat)
    (arr : list B) (acc : A) : A :=
  match arr with
  | [] => acc
  | val :: rest => reduce_from f (S i) rest (f acc val i)
  end.

Definition reducei {A B : Type} (f : A -> B -> nat -> A) (arr : list B) (init : A) : A :=
  reduce_from f 0 arr init.

(** [arr.reduce((acc, val) => f(acc, val), init)]. *)
Definition reduce {A B : Type} (f : A -> B -> A) (arr : list B) (init : A) : A :=
  fold_left f arr init.

End JSArray.

Import JSArray.

(** ** The number interface *)

(** The literal exponents the source passes to [Math.pow] and [**]. *)
Inductive exponent : Type :=
  | Two          (* Math.pow(x, 2), x ** 2 *)
  | Three        (* Math.pow(x, 3) *)
  | ThreeHalves. (* Math.pow(x, 1.5) *)

Class JSNum : Type := {
  num : Type;
  (** a decimal literal of the source text *)
  lit : Q -> num;
  (** an array length or an element of a [Uint8ClampedArray] as a number *)
  ofnat : nat -> num;
  (** what a read past the end of an array ([undefined]) becomes in arithmetic *)
  NaN : num;
  (** [Math.max()] of no argument *)
  negInfinity : num;
  add : num -> num -> num;
  sub : num -> num -> num;
  mul : num -> num -> num;
  div : num -> num -> num;
  Math_sqrt : num -> num;
  Math_abs : num -> num;
  Math_pow : num -> exponent -> num;
  Math_max : num -> num -> num;
  Math_min : num -> num -> num;
  Math_round : num -> num;
  (** [x < y], [x <= y], [x === y] *)
  ltb : num -> num -> bool;
  leb : num -> num -> bool;
  eqb : num -> num -> bool;
  (** ToBoolean, as [||] applies it: false on 0, -0 and NaN *)
  truthy : num -> bool
}.

Declare Scope js_scope.
Delimit Scope js_scope with js.
Bind Scope js_scope with num.

Notation "x + y" := (add x y) : js_scope.
Notation "x - y" := (sub x y) : js_scope.
Notation "x * y" := (mul x y) : js_scope.
Notation "x / y" := (div x y) : js_scope.
Notation "x ** k" := (Math_pow x k) (at level 30, right associativity) : js_scope.
Notation "x <? y" := (ltb x y) (at level 70, no associativity) : js_scope.
Notation "x >? y" := (ltb y x) (at level 70, no associativity) : js_scope.
Notation "x >=? y" := (leb y x) (at level 70, no associativity) : js_scope.
Notation "x === y" := (eqb x y) (at level 70, no associativity) : js_scope.
Notation "$ q" := (lit q%Q) (at level 5, q constr at level 1, format "$ q") : js_scope.

(** ** Data model *)

(** [style: 'cartoon' | 'sketch' | 'realistic' | 'abstract'] *)
Inductive Style : Type := cartoon | sketch | realistic | abstract.

Definition style_name (s : Style) : string :=
  match s with
  | cartoon => "cartoon"
  | sketch => "sketch"
  | realistic => "realistic"
  | abstract => "abstract"
  end.

(** A promise, as far as its caller sees it. *)
Inductive promise (A : Type) : Type :=
  | Fulfilled (value : A)
  | Rejected
  | Pending.
Arguments Fulfilled {A} value.
Arguments Rejected {A}.
Arguments Pending {A}.

Section Program.

Context {J : JSNum}.
Open Scope js_scope.

(** [interface GradingConfig] *)
Record Thresholds : Type := {
  th_Aplus : num;  (* 'A+' *)
  th_A : num;
  th_B : num;
  th_C : num;
  th_D : num;
  th_F : num
}.

Record StyleAdjustments : Type := {
  adj_cartoon : num;
  adj_sketch : num;
  adj_realistic : num;
  adj_abstract : num
}.

Record GradingConfig : Type := {
  thresholds : Thresholds;
  styleAdjustments : StyleAdjustments
}.

Definition defaultGradingConfig : GradingConfig := {|
  thresholds := {|
    th_Aplus := $90; th_A := $80; th_B := $70; th_C := $60; th_D := $50; th_F := $0 |};
  styleAdjustments := {|
    adj_cartoon := $1.05; adj_sketch := $1.03; adj_realistic := $1.0; adj_abstract := $0.98 |}
|}.

(** [interface EnhancedComparisonResult] (without the optional heatmap URL) *)
Record EnhancedComparisonResult : Type := {
  similarity : num;
  res_ssimScore : num;
  grade : string;
  color : string;
  res_style : Style;
  styleConfidence : num;
  feedback : list string
}.

(** The object [calculateEnhancedSimilarity] resolves to. *)
Record Similarities : Type := {
  cosineSimilarity : num;
  ssimScore : num;
  structuralSimilarity : num
}.

(** The object [detectImageStyle] returns. *)
Record DetectedStyle : Type := {
  style : Style;
  confidence : num
}.

(** [arr.length] as a number. *)
Definition len (arr : list num) : num := ofnat (List.length arr).

(** [arr[i]] used in arithmetic. *)
Definition get (arr : list num) (i : nat) : num := nth i arr NaN.

(** *** calculateAccurateCosineSimilarity *)

Definition normalizeFeatures (features : list num) : list num :=
  let mean := reduce (fun sum val => sum + val) features $0 / len features in
  let std :=
    Math_sqrt (reduce (fun sum val => sum + (val - mean) ** Two) features $0 / len features) in
  map (fun val => if std >? $0 then (val - mean) / std else $0) features.

Definition calculateAccurateCosineSimilarity (a b : list num) : num :=
  if negb (Nat.eqb (List.length a) (List.length b)) then $0 else
  let normA := normalizeFeatures a in
  let normB := normalizeFeatures b in
  let dotProduct := reducei (fun sum val i => sum + val * get normB i) normA $0 in
  let magnitudeA := Math_sqrt (reduce (fun sum val => sum + val * val) normA $0) in
  let magnitudeB := Math_sqrt (reduce (fun sum val => sum + val * val) normB $0) in
  if (magnitudeA === $0) || (magnitudeB === $0) then $0 else
  let similarity := dotProduct / (magnitudeA * magnitudeB) in
  let normalizedSim := (similarity + $1) / $2 in
  normalizedSim ** Two.

(** *** calculateAccurateSSIM *)

(** The RGBA bytes [ctx.getImageData(0, 0, size, size).data] of one image,
    as the canvas hands them over after resampling to [size] x [size]. *)
Definition size : nat := 128.

Definition PixelData : Type := list Byte.byte.

(** [data[i]] of a [Uint8ClampedArray], used in arithmetic. *)
Definition px (data : PixelData) (i : nat) : num :=
  match nth_error data i with
  | Some b => ofnat (N.to_nat (Byte.to_N b))
  | None => NaN
  end.

(** [for (let i = 0; i < data1.length; i += 4) { ... gray1.push(g1); gray2.push(g2) }];
    the loop leaves before [steps] runs out when [steps] is [data1.length]. *)
Fixpoint grayscale_loop (steps i : nat) (data1 data2 : PixelData)
    (gray1 gray2 : list num) : list num * list num :=
  match steps with
  | O => (gray1, gray2)
  | S steps' =>
      if Nat.ltb i (List.length data1) then
        let g1 := $0.299 * px data1 i + $0.587 * px data1 (i + 1) + $0.114 * px data1 (i + 2) in
        let g2 := $0.299 * px data2 i + $0.587 * px data2 (i + 1) + $0.114 * px data2 (i + 2) in
        grayscale_loop steps' (i + 4) data1 data2 (gray1 ++ [g1]) (gray2 ++ [g2])
      else (gray1, gray2)
  end.

Definition grayscale (data1 data2 : PixelData) : list num * list num :=
  grayscale_loop (List.length data1) 0 data1 data2 [] [].

(** The constant [ssim] of the source: the single-window SSIM of the two
    grayscale arrays, before clamping and sharpening. *)
Definition ssim_of_gray (gray1 gray2 : list num) : num :=
  let mean1 := reduce (fun sum val => sum + val) gray1 $0 / len gray1 in
  let mean2 := reduce (fun sum val => sum + val) gray2 $0 / len gray2 in
  let var1 := reduce (fun sum val => sum + (val - mean1) ** Two) gray1 $0 / len gray1 in
  let var2 := reduce (fun sum val => sum + (val - mean2) ** Two) gray2 $0 / len gray2 in
  let covar :=
    reducei (fun sum val i => sum + (val - mean1) * (get gray2 i - mean2)) gray1 $0
    / len gray1 in
  let c1 := ($0.01 * $255) ** Two in
  let c2 := ($0.03 * $255) ** Two in
  let numerator := ($2 * mean1 * mean2 + c1) * ($2 * covar + c2) in
  let denominator := (mean1 ** Two + mean2 ** Two + c1) * (var1 + var2 + c2) in
  if denominator >? $0 then numerator / denominator else $0.

Definition ssim_raw (data1 data2 : PixelData) : num :=
  let (gray1, gray2) := grayscale data1 data2 in ssim_of_gray gray1 gray2.

(** What [processImages] resolves with once both images are drawn. *)
Definition ssim_sharpened (data1 data2 : PixelData) : num :=
  let ssim := ssim_raw data1 data2 in
  let clampedSSIM := Math_max $0 (Math_min $1 ssim) in
  clampedSSIM ** ThreeHalves.

(** The events the two [Image] objects deliver to the handlers. *)
Inductive image_event : Type := onload1 | onload2 | onerror1 | onerror2.

(** The closure state of the promise executor: the counter [loadedCount]
    and the value the promise was resolved with, if any. *)
Record ssim_state : Type := {
  loadedCount : nat;
  resolved : option num
}.

(** [resolve(v)]: only the first call settles the promise. *)
Definition resolve (v : num) (st : ssim_state) : ssim_state :=
  match resolved st with
  | Some _ => st
  | None => {| loadedCount := loadedCount st; resolved := Some v |}
  end.

Definition processImages (data1 data2 : PixelData) (st : ssim_state) : ssim_state :=
  let st' := {| loadedCount := S (loadedCount st); resolved := resolved st |} in
  if Nat.eqb (loadedCount st') 2 then resolve (ssim_sharpened data1 data2) st' else st'.

Definition handle (data1 data2 : PixelData) (st : ssim_state) (ev : image_event) : ssim_state :=
  match ev with
  | onload1 | onload2 => processImages data1 data2 st
  | onerror1 | onerror2 => resolve $0.1 st
  end.

(** [ctx1], [ctx2]: whether [canvas.getContext('2d')] returned a context;
    [events]: what the browser delivers for the two images, in order. *)
Definition calculateAccurateSSIM (ctx1 ctx2 : bool) (data1 data2 : PixelData)
    (events : list image_event) : promise num :=
  if negb ctx1 || negb ctx2 then Fulfilled $0.1 else
  match resolved (fold_left (handle data1 data2) events {| loadedCount := 0; resolved := None |}) with
  | Some v => Fulfilled v
  | None => Pending
  end.

(** *** calculateAccurateStructuralSimilarity *)

(** The [for] loop of [calculateCorrelation]: numerator, sumXSquared, sumYSquared. *)
Definition correlation_loop (x y : list num) (meanX meanY : num) : num * num * num :=
  fold_left
    (fun '(numerator, sumXSquared, sumYSquared) i =>
       let xDiff := get x i - meanX in
       let yDiff := get y i - meanY in
       (numerator + xDiff * yDiff, sumXSquared + xDiff * xDiff, sumYSquared + yDiff * yDiff))
    (seq 0 (List.length x)) ($0, $0, $0).

Definition calculateCorrelation (x y : list num) : num :=
  let n := len x in
  let meanX := reduce (fun sum val => sum + val) x $0 / n in
  let meanY := reduce (fun sum val => sum + val) y $0 / n in
  let '(numerator, sumXSquared, sumYSquared) := correlation_loop x y meanX meanY in
  let denominator := Math_sqrt (sumXSquared * sumYSquared) in
  if denominator === $0 then $0 else
  let correlation := numerator / denominator in
  Math_max $0 correlation.

Definition calculateAccurateStructuralSimilarity (features1 features2 : list num) : num :=
  if negb (Nat.eqb (List.length features1) (List.length features2)) then $0 else
  let mean1 := reduce (fun sum val => sum + val) features1 $0 / len features1 in
  let mean2 := reduce (fun sum val => sum + val) features2 $0 / len features2 in
  let variance1 := reduce (fun sum val => sum + (val - mean1) ** Two) features1 $0 / len features1 in
  let variance2 := reduce (fun sum val => sum + (val - mean2) ** Two) features2 $0 / len features2 in
  let skewness1 :=
    reduce (fun sum val => sum + (val - mean1) ** Three) features1 $0
    / (len features1 * variance1 ** ThreeHalves) in
  let skewness2 :=
    reduce (fun sum val => sum + (val - mean2) ** Three) features2 $0
    / (len features2 * variance2 ** ThreeHalves) in
  let meanSim := $1 / ($1 + Math_abs (mean1 - mean2) * $10) in
  let varSim := $1 / ($1 + Math_abs (variance1 - variance2) * $100) in
  let skewSim := $1 / ($1 + Math_abs (skewness1 - skewness2) * $5) in
  let correlation := calculateCorrelation features1 features2 in
  let structuralSim := meanSim * $0.2 + varSim * $0.2 + skewSim * $0.2 + correlation * $0.4 in
  structuralSim ** Two.

(** *** calculateEnhancedSimilarity *)

(** [features1], [features2]: the two promises of [extractFeatures] (image
    decoding and model inference, outside the scoring core). *)
Definition calculateEnhancedSimilarity (features1 features2 : promise (list num))
    (ctx1 ctx2 : bool) (data1 data2 : PixelData) (events : list image_event)
    : promise Similarities :=
  match features1, features2 with
  | Fulfilled features1, Fulfilled features2 =>
      let cosineSim := calculateAccurateCosineSimilarity features1 features2 in
      match calculateAccurateSSIM ctx1 ctx2 data1 data2 events with
      | Fulfilled ssimScore =>
          let structuralSim := calculateAccurateStructuralSimilarity features1 features2 in
          Fulfilled {| cosineSimilarity := cosineSim;
                       ssimScore := ssimScore;
                       structuralSimilarity := structuralSim |}
      | Rejected => Rejected
      | Pending => Pending
      end
  | Rejected, _ | _, Rejected => Rejected
  | _, _ => Pending
  end.

(** *** detectImageStyle *)

(** [Math.max(...args)] *)
Definition Math_max_of (args : list num) : num := reduce Math_max args negInfinity.

Definition detectImageStyle (features : list num) : DetectedStyle :=
  let mean := reduce (fun sum val => sum + val) features $0 / len features in
  let variance := reduce (fun sum val => sum + (val - mean) ** Two) features $0 / len features in
  let sparsity := len (filter (fun f => Math_abs f <? $0.001) features) / len features in
  let complexity := len (filter (fun f => Math_abs f >? $0.05) features) / len features in
  let maxActivation := Math_max_of (map (fun f => Math_abs f) features) in
  if (sparsity >? $0.8) && (variance <? $0.01) && (maxActivation <? $0.1) then
    {| style := sketch; confidence := $0.85 |}
  else if (complexity <? $0.2) && (variance >? $0.05) && (maxActivation <? $0.3) then
    {| style := cartoon; confidence := $0.8 |}
  else if (complexity >? $0.5) && (variance >? $0.1) && (maxActivation >? $0.2) then
    {| style := realistic; confidence := $0.9 |}
  else
    {| style := abstract; confidence := $0.7 |}.

(** *** generateAccurateFeedback *)

(** The six overall-performance sentences, by percentage band. *)
Definition overall_sentence (percentage : num) : string :=
  if percentage >=? $85 then
    "Outstanding work! Your drawing is remarkably similar to the reference."
  else if percentage >=? $70 then
    "Great job! Your drawing captures most key elements effectively."
  else if percentage >=? $55 then
    "Good effort! You've captured some important similarities."
  else if percentage >=? $40 then
    "Fair attempt. Focus on matching the main shapes and proportions."
  else if percentage >=? $25 then
    "Keep practicing! Try to observe the reference more carefully."
  else
    "This appears quite different from the reference. Study the original more closely.".

(** The template literal [`Nice ${style.style} style execution.`]. *)
Definition style_sentence (s : Style) : string :=
  "Nice " ++ style_name s ++ " style execution.".

(** [feedback.push(...)] appends; the function returns the array it built. *)
Definition generateAccurateFeedback (similarities : Similarities) (st : DetectedStyle)
    (percentage : num) : list string :=
  let feedback := [] in
  let feedback := feedback ++ [overall_sentence percentage] in
  let feedback :=
    if cosineSimilarity similarities <? $0.3 then
      feedback ++ ["The overall content and subject matter differ significantly from the reference."]
    else if cosineSimilarity similarities <? $0.6 then
      feedback ++ ["Some elements match the reference, but key features are missing or different."]
    else feedback in
  let feedback :=
    if ssimScore similarities <? $0.4 then
      feedback ++ ["The visual structure and layout need significant improvement."]
    else if ssimScore similarities <? $0.7 then
      feedback ++ ["Good structural foundation, but details could be more accurate."]
    else feedback in
  let feedback :=
    if structuralSimilarity similarities <? $0.4 then
      feedback ++ ["Focus on matching the basic proportions and spatial relationships."]
    else feedback in
  let feedback :=
    if confidence st >? $0.7 then feedback ++ [style_sentence (style st)]
    else feedback in
  feedback.

(** *** generateEnhancedGrade *)

(** [config.styleAdjustments[style.style]] *)
Definition lookupAdjustment (config : GradingConfig) (s : Style) : num :=
  match s with
  | cartoon => adj_cartoon (styleAdjustments config)
  | sketch => adj_sketch (styleAdjustments config)
  | realistic => adj_realistic (styleAdjustments config)
  | abstract => adj_abstract (styleAdjustments config)
  end.

(** [combinedScore]: the weighted combination of the three metrics. *)
Definition combinedScore (similarities : Similarities) : num :=
  cosineSimilarity similarities * $0.5
  + ssimScore similarities * $0.35
  + structuralSimilarity similarities * $0.15.

(** [percentage] after [percentage *= styleAdjustment], before the clamp. *)
Definition adjustedPercentage (similarities : Similarities) (st : DetectedStyle)
    (config : GradingConfig) : num :=
  let percentage := combinedScore similarities * $100 in
  let styleAdjustment :=
    let v := lookupAdjustment config (style st) in
    if truthy v then v else $1.0 in
  percentage * styleAdjustment.

(** [percentage = Math.max(0, Math.min(100, percentage))] *)
Definition clampPercentage (percentage : num) : num :=
  Math_max $0 (Math_min $100 percentage).

(** The "Determine grade" block: the letter and its display colour. *)
Definition determineGrade (config : GradingConfig) (percentage : num) : string * string :=
  if percentage >=? th_Aplus (thresholds config) then ("A+", "bg-green-600")
  else if percentage >=? th_A (thresholds config) then ("A", "bg-green-500")
  else if percentage >=? th_B (thresholds config) then ("B", "bg-yellow-500")
  else if percentage >=? th_C (thresholds config) then ("C", "bg-orange-500")
  else if percentage >=? th_D (thresholds config) then ("D", "bg-red-400")
  else ("F", "bg-red-600").

Definition generateEnhancedGrade (similarities : Similarities) (st : DetectedStyle)
    (config : GradingConfig) : EnhancedComparisonResult :=
  let percentage := adjustedPercentage similarities st config in
  let percentage := clampPercentage percentage in
  let (grade, color) := determineGrade config percentage in
  let feedback := generateAccurateFeedback similarities st percentage in
  {| similarity := Math_round percentage;
     res_ssimScore := Math_round (ssimScore similarities * $100);
     grade := grade;
     color := color;
     res_style := style st;
     styleConfidence := confidence st;
     feedback := feedback |}.

End Program.

(** The order of the letter grades, F lowest. *)
Definition grade_rank (g : string) : nat :=
  if String.eqb g "A+" then 5
  else if String.eqb g "A" then 4
  else if String.eqb g "B" then 3
  else if String.eqb g "C" then 2
  else if String.eqb g "D" then 1
  else 0.

(** A style-acknowledgement sentence: one of the four the template can produce. *)
Definition is_style_sentence (s : string) : bool :=
  existsb (fun st => String.eqb s (style_sentence st)) [cartoon; sketch; realistic; abstract].

Definition count_style_sentences (l : list string) : nat :=
  List.length (filter is_style_sentence l).

(** The six overall-performance sentences. *)
Definition overall_sentences : list string :=
  [ "Outstanding work! Your drawing is remarkably similar to the reference.";
    "Great job! Your drawing captures most key elements effectively.";
    "Good effort! You've captured some important similarities.";
    "Fair attempt. Focus on matching the main shapes and proportions.";
    "Keep practicing! Try to observe the reference more carefully.";
    "This appears quite different from the reference. Study the original more closely." ].



(** Which image an event belongs to, and of which kind it is. *)
Definition of_image1 (ev : image_event) : bool :=
  match ev with onload1 | onerror1 => true | _ => false end.

Definition of_image2 (ev : image_event) : bool :=
  match ev with onload2 | onerror2 => true | _ => false end.

Definition is_error (ev : image_event) : bool :=
  match ev with onerror1 | onerror2 => true | _ => false end.

Definition is_load (ev : image_event) : bool :=
  match ev with onload1 | onload2 => true | _ => false end.

(** An image fires one of [load] and [error], and fires it once. *)
Definition one_event_per_image (events : list image_event) : Prop :=
  (List.length (filter of_image1 events) <= 1)%nat
  /\ (List.length (filter of_image2 events) <= 1)%nat.

(** ** The IEEE instance: binary64, as the program runs *)

Module IEEE.

Local Open Scope float_scope.

(** An integer as a number (exact below 2^53). *)
Definition Z2F (z : Z) : float :=
  match z with
  | Z0 => 0
  | Zpos _ => of_uint63 (Uint63.of_Z z)
  | Zneg p => - of_uint63 (Uint63.of_Z (Zpos p))
  end.

(** A decimal literal [n/d] denotes the binary64 nearest to it: the
    correctly rounded quotient of the two integers. *)
Definition lit (q : Q) : float := Z2F (Qnum q) / Z2F (Zpos (Qden q)).

Definition ofnat (n : nat) : float := Z2F (Z.of_nat n).

(** [Math.max(x, y)]: NaN if either is NaN; +0 is larger than -0. *)
Definition Math_max (x y : float) : float :=
  if is_nan x || is_nan y then nan
  else if x <? y then y
  else if y <? x then x
  else if get_sign x then y else x.

(** [Math.min(x, y)]: NaN if either is NaN; -0 is smaller than +0. *)
Definition Math_min (x y : float) : float :=
  if is_nan x || is_nan y then nan
  else if x <? y then x
  else if y <? x then y
  else if get_sign y then y else x.

(** [Math.round(x)]: the integer nearest to [x], ties towards +Infinity,
    computed exactly on the mantissa and exponent of [x]; a result that is
    zero keeps the sign of [x]. *)
Definition Math_round (x : float) : float :=
  match Prim2SF x with
  | S754_finite s m e =>
      if (0 <=? e)%Z then x
      else
        let sm := if s then Zneg m else Zpos m in
        let k := ((2 * sm + 2 ^ (- e)) / 2 ^ (1 - e))%Z in
        if (k =? 0)%Z then (if s then -0 else 0) else Z2F k
  | _ => x
  end.

(** [Math.pow(x, k)] at the three literal exponents of the source.  The
    language fixes the results at NaN, the zeros and the infinities; the
    other results are implementation-approximated, and taken here as the
    correctly rounded products. *)
Definition Math_pow (x : float) (k : exponent) : float :=
  match k with
  | Two => x * x
  | Three => x * x * x
  | ThreeHalves => if x =? neg_infinity then infinity else x * PrimFloat.sqrt x
  end.

Definition truthy (x : float) : bool := negb (is_zero x || is_nan x).

#[export] Instance binary64 : JSNum :=
  Build_JSNum float lit ofnat nan neg_infinity
    PrimFloat.add PrimFloat.sub PrimFloat.mul PrimFloat.div
    PrimFloat.sqrt PrimFloat.abs Math_pow Math_max Math_min Math_round
    PrimFloat.ltb PrimFloat.leb PrimFloat.eqb truthy.

(** A [GradingConfig] threshold table with every threshold set to 0. *)
Definition zero_thresholds : Thresholds :=
  {| th_Aplus := lit 0; th_A := lit 0; th_B := lit 0;
     th_C := lit 0; th_D := lit 0; th_F := lit 0 |}.

End IEEE.

Module FloatOrder.

(** The order of binary64 numbers

    [SFcompare], the specification of the comparisons, read as a
    lexicographic order: a number that is not NaN is a triple of its class
    (the infinities outermost, zero in the middle), its exponent and its
    mantissa, the last two negated on the negative side. *)
Definition key (f : spec_float) : Z * Z * Z :=
  match f with
  | S754_zero _ => (0, 0, 0)%Z
  | S754_infinity s => (if s then -2 else 2, 0, 0)%Z
  | S754_nan => (0, 0, 0)%Z
  | S754_finite s m e => if s then (-1, - e, Zneg m)%Z else (1, e, Zpos m)%Z
  end.

Definition lex_lt (a b : Z * Z * Z) : Prop :=
  let '(a1, a2, a3) := a in
  let '(b1, b2, b3) := b in
  (a1 < b1 \/ (a1 = b1 /\ (a2 < b2 \/ (a2 = b2 /\ a3 < b3))))%Z.

Definition not_nan (f : spec_float) : Prop := f <> S754_nan.

Definition fkey (x : float) : Z * Z * Z := key (Prim2SF x).

Definition number (x : float) : Prop := not_nan (Prim2SF x).

(** A zero or a finite nonzero number: neither NaN nor an infinity. *)
Definition fin (f : spec_float) : Prop :=
  match f with
  | S754_zero _ | S754_finite _ _ _ => True
  | _ => False
  end.

(** The exponent binary64 gives a number of [z] significant bits. *)
Definition fexp64 (z : Z) : Z := Z.max (z - 53) (-1074).

End FloatOrder.

(** ** generateDifferenceHeatmap

    The second exported function of the comparison: it draws both images
    on one 256 x 256 canvas and paints their difference.  [data1] and
    [data2] are the two arrays [ctx.getImageData(0, 0, size, size).data]
    the canvas hands over, the second one read after the second
    [drawImage]. *)

Module Heatmap.

#[local] Existing Instance IEEE.binary64.
Local Open Scope js_scope.

(** [const size = 256] *)
Definition size : nat := 256.

Definition byte_of_Z (k : Z) : Byte.byte :=
  match Byte.of_N (Z.to_N k) with
  | Some b => b
  | None => Byte.xff
  end.

(** A store into an element of a [Uint8ClampedArray] (ToUint8Clamp): NaN
    becomes 0, the value is clamped to [0, 255] and rounded to the nearest
    integer, a tie going to the even one. *)
Definition ToUint8Clamp (x : float) : Byte.byte :=
  if PrimFloat.is_nan x then Byte.x00
  else if PrimFloat.leb x 0%float then Byte.x00
  else if PrimFloat.leb 255%float x then Byte.xff
  else
    match Prim2SF x with
    | S754_finite false m e =>
        if (0 <=? e)%Z then byte_of_Z (Zpos m * 2 ^ e)
        else
          let d := (2 ^ (- e))%Z in
          let f := (Zpos m / d)%Z in
          let r2 := (2 * (Zpos m mod d))%Z in
          byte_of_Z (if (r2 <? d)%Z then f
                     else if (d <? r2)%Z then f + 1
                     else if Z.even f then f else f + 1)%Z
    | _ => Byte.x00
    end.

(** The four stores of one iteration of the loop, for the pixel that starts
    at byte [i]. *)
Definition heatmap_pixel (data1 data2 : PixelData) (i : nat) : list Byte.byte :=
  let diff := Math_abs (px data1 i - px data2 i)
              + Math_abs (px data1 (i + 1) - px data2 (i + 1))
              + Math_abs (px data1 (i + 2) - px data2 (i + 2)) in
  let intensity := Math_min $255 (diff / $3) in
  [ ToUint8Clamp (Math_min $255 (intensity * $1.5));
    ToUint8Clamp (Math_max $0 ($128 - intensity));
    ToUint8Clamp (Math_max $0 ($255 - intensity * $2));
    ToUint8Clamp (Math_min $255 (intensity + $50)) ].

(** [arr[i] = v] on a typed array: a store past the end is dropped. *)
Definition store (arr : list Byte.byte) (i : nat) (v : Byte.byte) : list Byte.byte :=
  if Nat.ltb i (List.length arr) then firstn i arr ++ v :: skipn (S i) arr else arr.

Fixpoint heatmap_loop (steps i : nat) (data1 data2 : PixelData)
    (diffData : list Byte.byte) : list Byte.byte :=
  match steps with
  | O => diffData
  | S steps' =>
      if Nat.ltb i (List.length data1) then
        match heatmap_pixel data1 data2 i with
        | [r; g; b; a] =>
            heatmap_loop steps' (i + 4) data1 data2
              (store (store (store (store diffData i r) (i + 1) g) (i + 2) b) (i + 3) a)
        | _ => diffData
        end
      else diffData
  end.

(** [diffData] after the loop, from [ctx.createImageData(size, size)]. *)
Definition difference_heatmap (data1 data2 : PixelData) : list Byte.byte :=
  heatmap_loop (List.length data1) 0 data1 data2 (repeat Byte.x00 (size * size * 4)).

(** The byte at index [i] as an integer, and the distance the loop calls
    [diff] as an integer: the sum of the three channel differences. *)
Definition byte_Z (data : PixelData) (i : nat) : Z :=
  Z.of_N (Byte.to_N (nth i data Byte.x00)).

Definition rgb_distance (data1 data2 : PixelData) (i : nat) : Z :=
  (Z.abs (byte_Z data1 i - byte_Z data2 i)
   + Z.abs (byte_Z data1 (i + 1) - byte_Z data2 (i + 1))
   + Z.abs (byte_Z data1 (i + 2) - byte_Z data2 (i + 2)))%Z.

(** The four stores as a function of the integer distance. *)
Definition pixel_of_distance (d : Z) : list Byte.byte :=
  let diff := IEEE.Z2F d in
  let intensity := Math_min $255 (diff / $3) in
  [ ToUint8Clamp (Math_min $255 (intensity * $1.5));
    ToUint8Clamp (Math_max $0 ($128 - intensity));
    ToUint8Clamp (Math_max $0 ($255 - intensity * $2));
    ToUint8Clamp (Math_min $255 (intensity + $50)) ].

(** The colour of no difference: red 0, green 128, blue 255, alpha 50. *)
Definition zero_colour : list Byte.byte := [Byte.x00; Byte.x80; Byte.xff; Byte.x32].

(** A channel of an output pixel as a natural number. *)
Definition channel (c : nat) (pixel : list Byte.byte) : N := Byte.to_N (nth c pixel Byte.x00).

Definition Zrange (n : nat) : list Z := map Z.of_nat (seq 0 n).

(** The checks the proofs run over the finitely many channel values and
    distances. *)
Definition abs_sub_check (a b : Z) : bool :=
  Leibniz.eqb (PrimFloat.abs (IEEE.Z2F a - IEEE.Z2F b)) (IEEE.Z2F (Z.abs (a - b))).

Definition add_check (a b : Z) : bool :=
  Leibniz.eqb (IEEE.Z2F a + IEEE.Z2F b) (IEEE.Z2F (a + b)).

Definition step_monotone (d : Z) : bool :=
  let p := pixel_of_distance d in
  let q := pixel_of_distance (d + 1) in
  (channel 0 p <=? channel 0 q)%N && (channel 1 q <=? channel 1 p)%N
  && (channel 2 q <=? channel 2 p)%N && (channel 3 p <=? channel 3 q)%N.

Definition blue_of_difference : bool :=
  (channel 2 (pixel_of_distance 1) <? 255)%N.

(** [q] is at least as warm as [p]: no less red and no less opaque, no more
    green and no more blue. *)
Definition at_least_as_warm (p q : list Byte.byte) : Prop :=
  (channel 0 p <= channel 0 q)%N /\ (channel 1 q <= channel 1 p)%N
  /\ (channel 2 q <= channel 2 p)%N /\ (channel 3 p <= channel 3 q)%N.

(** Pixel [k] of an RGBA array. *)
Definition output_pixel (out : list Byte.byte) (k : nat) : list Byte.byte :=
  firstn 4 (skipn (4 * k) out).

(** The promise of [generateDifferenceHeatmap]. *)
Record heatmap_state : Type := {
  hm_loadedCount : nat;
  hm_settled : promise (list Byte.byte)
}.

(** [resolve(v)] and [reject(e)]: only the first call settles the promise. *)
Definition settle (v : promise (list Byte.byte)) (st : heatmap_state) : heatmap_state :=
  match hm_settled st with
  | Pending => {| hm_loadedCount := hm_loadedCount st; hm_settled := v |}
  | _ => st
  end.

Definition hm_processImages (data1 data2 : PixelData) (st : heatmap_state) : heatmap_state :=
  let st' := {| hm_loadedCount := S (hm_loadedCount st); hm_settled := hm_settled st |} in
  if Nat.eqb (hm_loadedCount st') 2
  then settle (Fulfilled (difference_heatmap data1 data2)) st' else st'.

Definition hm_handle (data1 data2 : PixelData) (st : heatmap_state) (ev : image_event)
    : heatmap_state :=
  match ev with
  | onload1 | onload2 => hm_processImages data1 data2 st
  | onerror1 | onerror2 => settle Rejected st
  end.

(** [ctx]: whether [canvas.getContext('2d')] returned a context.  The
    promise resolves with the data URL of the canvas that holds [diffData];
    the model resolves with [diffData]. *)
Definition generateDifferenceHeatmap (ctx : bool) (data1 data2 : PixelData)
    (events : list image_event) : promise (list Byte.byte) :=
  if negb ctx then Rejected
  else hm_settled (fold_left (hm_handle data1 data2) events
                     {| hm_loadedCount := 0; hm_settled := Pending |}).

End Heatmap.

(** ** Vocabulary of the properties *)

(** The overall sentences that can open the feedback of a letter grade
    under the default thresholds: the bands of the letters (90, 80, 70, 60,
    50) against the bands of the sentences (85, 70, 55, 40, 25). *)
Definition sentences_of_grade (g : string) : list string :=
  if String.eqb g "A+" then
    ["Outstanding work! Your drawing is remarkably similar to the reference."]
  else if String.eqb g "A" then
    ["Outstanding work! Your drawing is remarkably similar to the reference.";
     "Great job! Your drawing captures most key elements effectively."]
  else if String.eqb g "B" then
    ["Great job! Your drawing captures most key elements effectively."]
  else if String.eqb g "C" then
    ["Good effort! You've captured some important similarities."]
  else if String.eqb g "D" then
    ["Good effort! You've captured some important similarities.";
     "Fair attempt. Focus on matching the main shapes and proportions."]
  else
    ["Fair attempt. Focus on matching the main shapes and proportions.";
     "Keep practicing! Try to observe the reference more carefully.";
     "This appears quite different from the reference. Study the original more closely."].

(** Whether no sentence of a list occurs twice in it. *)
Fixpoint distinct (l : list string) : bool :=
  match l with
  | [] => true
  | x :: rest => negb (existsb (String.eqb x) rest) && distinct rest
  end.

Module FloatSign.

(** A binary64 value that does not carry the minus sign: NaN, +0, a
    positive number or +Infinity. *)
Definition unsigned (f : spec_float) : Prop :=
  match f with
  | S754_nan => True
  | S754_zero s | S754_infinity s | S754_finite s _ _ => s = false
  end.

End FloatSign.

Module FloatValue.

Import FloatOrder.
Local Open Scope Z_scope.

(** The value [m * 2^e] of a mantissa and an exponent, scaled by 2^2200 to
    an integer (no exponent of the arithmetic goes below -2200). *)
Definition scaled (m e : Z) : Z := m * 2 ^ (e + 2200).

(** A number that is +0 or finite and positive, of exponent at least [E]
    and of value at most [mR * 2^eR]. *)
Definition nn (E mR eR : Z) (f : spec_float) : Prop :=
  match f with
  | S754_zero false => True
  | S754_finite false m e => E <= e /\ scaled (Zpos m) e <= scaled mR eR
  | _ => False
  end.

(** A finite positive number, of exponent at least [E] and of value at
    most [mR * 2^eR]. *)
Definition pp (E mR eR : Z) (f : spec_float) : Prop :=
  match f with
  | S754_finite false m e => E <= e /\ scaled (Zpos m) e <= scaled mR eR
  | _ => False
  end.

(** A zero or a finite number of either sign, of exponent at least [E] and
    of magnitude at most [mR * 2^eR]. *)
Definition fb (E mR eR : Z) (f : spec_float) : Prop :=
  match f with
  | S754_zero _ => True
  | S754_finite _ m e => E <= e /\ scaled (Zpos m) e <= scaled mR eR
  | _ => False
  end.

(** [nn], decided. *)
Definition nn_check (E mR eR : Z) (f : spec_float) : bool :=
  match f with
  | S754_zero false => true
  | S754_finite false m e => (E <=? e) && (scaled (Zpos m) e <=? scaled mR eR)
  | _ => false
  end.

(** The record of a mantissa that has lost no bit. *)
Definition Ex (m : Z) : shr_record := {| shr_m := m; shr_r := false; shr_s := false |}.

(** What the rounding returns, from the mantissa [m2] it arrives at and the
    exponent [t] of the format. *)
Definition rounded (s : bool) (m2 t : Z) : spec_float :=
  if m2 =? 0 then S754_zero s
  else if m2 <? 2 ^ 53
       then (if t <=? 971 then S754_finite s (Z.to_pos m2) t else S754_infinity s)
       else (if t + 1 <=? 971 then S754_finite s (Z.to_pos (2 ^ 52)) (t + 1)
             else S754_infinity s).

End FloatValue.

(** * Properties *)

(** ** Properties that hold at every instance *)

Section GenericFacts.

Context {J : JSNum}.
Open Scope js_scope.

Lemma similarity_eq (sims : Similarities) (st : DetectedStyle) (config : GradingConfig) :
  similarity (generateEnhancedGrade sims st config)
  = Math_round (clampPercentage (adjustedPercentage sims st config)).
Proof. unfold generateEnhancedGrade. destruct (determineGrade _ _). reflexivity. Qed.

Lemma grade_eq (sims : Similarities) (st : DetectedStyle) (config : GradingConfig) :
  grade (generateEnhancedGrade sims st config)
  = fst (determineGrade config (clampPercentage (adjustedPercentage sims st config))).
Proof. unfold generateEnhancedGrade. destruct (determineGrade _ _). reflexivity. Qed.

Lemma feedback_eq (sims : Similarities) (st : DetectedStyle) (config : GradingConfig) :
  feedback (generateEnhancedGrade sims st config)
  = generateAccurateFeedback sims st (clampPercentage (adjustedPercentage sims st config)).
Proof. unfold generateEnhancedGrade. destruct (determineGrade _ _). reflexivity. Qed.

(** *** Feedback *)

(** Splits the feedback generator along every comparison it makes. *)
Ltac feedback_cases sims percentage :=
  unfold generateAccurateFeedback, overall_sentence;
  repeat match goal with
  | |- context [if ?c then _ else _] =>
      lazymatch c with
      | context [percentage] => destruct c
      | context [sims] => destruct c
      end
  end.

Lemma feedback_style_count (sims : Similarities) (st : DetectedStyle) (percentage : num) :
  count_style_sentences (generateAccurateFeedback sims st percentage)
  = if confidence st >? $0.7 then 1%nat else 0%nat.
Proof.
  feedback_cases sims percentage;
  destruct (confidence st >? $0.7); destruct (style st); reflexivity.
Qed.


(** *** Vectors of unequal length *)

(** C5: on two feature vectors of unequal length the cosine similarity
    and the statistical structural similarity both return exactly 0 (they
    are total: nothing is raised). *)
Theorem unequal_lengths_return_zero (a b : list num) :
  List.length a <> List.length b ->
  calculateAccurateCosineSimilarity a b = $0
  /\ calculateAccurateStructuralSimilarity a b = $0.
Proof.
  intros H. apply Nat.eqb_neq in H.
  unfold calculateAccurateCosineSimilarity, calculateAccurateStructuralSimilarity.
  rewrite H. split; reflexivity.
Qed.

End GenericFacts.

Section FailSoft.

Context {J : JSNum}.
Open Scope js_scope.

(** *** The promise of calculateAccurateSSIM *)

(** A promise that is resolved stays resolved with the same value. *)
Lemma resolved_sticky (data1 data2 : PixelData) (events : list image_event)
    (st : ssim_state) (v : num) :
  resolved st = Some v ->
  resolved (fold_left (handle data1 data2) events st) = Some v.
Proof.
  revert st. induction events as [|ev events IH]; intros st H; [exact H|].
  simpl. apply IH.
  destruct ev; unfold handle, processImages, resolve; cbn [loadedCount resolved];
    try (rewrite H; reflexivity);
    destruct (Nat.eqb (S (loadedCount st)) 2); cbn [loadedCount resolved];
    rewrite ?H; reflexivity.
Qed.

(** While fewer than two images have loaded nothing is computed, and the
    first [error] resolves the promise with 0.1. *)
Lemma error_before_two_loads (data1 data2 : PixelData) (events : list image_event)
    (st : ssim_state) :
  resolved st = None ->
  (loadedCount st + List.length (filter is_load events) < 2)%nat ->
  existsb is_error events = true ->
  resolved (fold_left (handle data1 data2) events st) = Some $0.1.
Proof.
  revert st. induction events as [|ev events IH]; intros st N C E; [discriminate|].
  cbn [fold_left].
  destruct ev; cbn [filter is_load existsb is_error orb List.length] in C, E;
    unfold handle, processImages, resolve; cbn [loadedCount resolved];
    try (apply resolved_sticky; rewrite N; reflexivity);
    (destruct (Nat.eqb (S (loadedCount st)) 2) eqn:Q;
     [apply Nat.eqb_eq in Q; lia|]);
    (apply IH; cbn [loadedCount resolved]; [assumption | lia | assumption]).
Qed.

Lemma loads_bound (events : list image_event) :
  one_event_per_image events -> existsb is_error events = true ->
  (List.length (filter is_load events) < 2)%nat.
Proof.
  unfold one_event_per_image.
  assert (G : forall evs, existsb is_error evs = true ->
    (List.length (filter is_load evs) + 1
     <= List.length (filter of_image1 evs) + List.length (filter of_image2 evs))%nat).
  { induction evs as [|ev evs IH]; [discriminate|].
    assert (W : (List.length (filter is_load evs)
                 <= List.length (filter of_image1 evs)
                    + List.length (filter of_image2 evs))%nat).
    { clear. induction evs as [|ev evs IH]; [simpl; lia|]. destruct ev; simpl; lia. }
    destruct ev; simpl; intros E; try specialize (IH E); lia. }
  intros [H1 H2] E. specialize (G events E). lia.
Qed.

(** C7: when a canvas context is missing or an image fires [error]
    (each image firing one event), [calculateAccurateSSIM] resolves with
    0.1 instead of rejecting, and [calculateEnhancedSimilarity] goes on to
    resolve with that value as [ssimScore]. *)
Theorem ssim_fail_soft (ctx1 ctx2 : bool) (data1 data2 : PixelData)
    (events : list image_event) (features1 features2 : list num) :
  ctx1 = false \/ ctx2 = false
    \/ (one_event_per_image events /\ existsb is_error events = true) ->
  calculateAccurateSSIM ctx1 ctx2 data1 data2 events = Fulfilled $0.1
  /\ calculateEnhancedSimilarity (Fulfilled features1) (Fulfilled features2)
       ctx1 ctx2 data1 data2 events
     = Fulfilled {| cosineSimilarity := calculateAccurateCosineSimilarity features1 features2;
                    ssimScore := $0.1;
                    structuralSimilarity :=
                      calculateAccurateStructuralSimilarity features1 features2 |}.
Proof.
  intros H.
  assert (E : calculateAccurateSSIM ctx1 ctx2 data1 data2 events = Fulfilled $0.1).
  { unfold calculateAccurateSSIM.
    destruct H as [-> | [-> | [W E]]]; [reflexivity | destruct ctx1; reflexivity |].
    destruct (negb ctx1 || negb ctx2); [reflexivity|].
    rewrite error_before_two_loads; [reflexivity | reflexivity | | assumption].
    simpl. apply loads_bound; assumption. }
  split; [exact E|].
  unfold calculateEnhancedSimilarity. rewrite E. reflexivity.
Qed.

End FailSoft.

(** ** Properties of the program on binary64 *)

Module IEEEFacts.

Import FloatOrder.
Local Open Scope float_scope.
#[local] Existing Instance IEEE.binary64.

(** *** The order of binary64 numbers *)

Lemma SFcompare_Lt (x y : spec_float) :
  SFcompare x y = Some Lt <-> not_nan x /\ not_nan y /\ lex_lt (key x) (key y).
Proof.
  unfold not_nan.
  destruct x as [sx|sx| |sx mx ex], y as [sy|sy| |sy my ey]; simpl;
    try (split; [discriminate | intros (? & ? & ?); (congruence || lia)]).
  all: try destruct sx; try destruct sy; simpl;
    try (split; [intros _; repeat split; (discriminate || lia)
                | (discriminate || (intros (_ & _ & ?); (reflexivity || lia)))]);
    try (split; [discriminate | intros (_ & _ & ?); lia]).
  - change (PosDef.Pos.compare_cont Eq mx my) with (Pos.compare mx my).
    destruct (Z.compare_spec ex ey); destruct (Pos.compare_spec mx my); simpl;
      split; try discriminate; try (intros _; repeat split; (discriminate || lia));
      intros (_ & _ & ?); lia.
  - change (PosDef.Pos.compare_cont Eq mx my) with (Pos.compare mx my).
    destruct (Z.compare_spec ex ey); destruct (Pos.compare_spec mx my); simpl;
      split; try discriminate; try (intros _; repeat split; (discriminate || lia));
      intros (_ & _ & ?); lia.
Qed.

Lemma SFcompare_Eq (x y : spec_float) :
  SFcompare x y = Some Eq <-> not_nan x /\ not_nan y /\ key x = key y.
Proof.
  unfold not_nan.
  destruct x as [sx|sx| |sx mx ex], y as [sy|sy| |sy my ey]; simpl;
    try (split; [discriminate | intros (? & ? & ?); congruence]).
  all: try destruct sx; try destruct sy; simpl;
    try (split; [intros _; repeat split; (discriminate || reflexivity)
                | (discriminate || (intros (_ & _ & ?); (reflexivity || congruence)))]);
    try (split; [discriminate | intros (_ & _ & ?); congruence]).
  - change (PosDef.Pos.compare_cont Eq mx my) with (Pos.compare mx my).
    destruct (Z.compare_spec ex ey); destruct (Pos.compare_spec mx my); simpl;
      split; try discriminate; try (intros _; repeat split; (discriminate || congruence));
      intros (_ & _ & E); injection E; lia.
  - change (PosDef.Pos.compare_cont Eq mx my) with (Pos.compare mx my).
    destruct (Z.compare_spec ex ey); destruct (Pos.compare_spec mx my); simpl;
      split; try discriminate; try (intros _; repeat split; (discriminate || congruence));
      intros (_ & _ & E); injection E; lia.
Qed.

Lemma ltb_true (x y : float) :
  (x <? y) = true <-> number x /\ number y /\ lex_lt (fkey x) (fkey y).
Proof.
  rewrite FloatAxioms.ltb_spec. unfold SFltb, number, fkey. rewrite <- SFcompare_Lt.
  destruct (SFcompare (Prim2SF x) (Prim2SF y)) as [[]|]; split; congruence.
Qed.

Lemma leb_true (x y : float) :
  (x <=? y) = true <->
  number x /\ number y /\ (lex_lt (fkey x) (fkey y) \/ fkey x = fkey y).
Proof.
  rewrite FloatAxioms.leb_spec. unfold SFleb, number, fkey.
  assert (FromLt : not_nan (Prim2SF x) /\ not_nan (Prim2SF y)
                   /\ lex_lt (key (Prim2SF x)) (key (Prim2SF y)) ->
                   SFcompare (Prim2SF x) (Prim2SF y) = Some Lt) by apply SFcompare_Lt.
  assert (FromEq : not_nan (Prim2SF x) /\ not_nan (Prim2SF y)
                   /\ key (Prim2SF x) = key (Prim2SF y) ->
                   SFcompare (Prim2SF x) (Prim2SF y) = Some Eq) by apply SFcompare_Eq.
  destruct (SFcompare (Prim2SF x) (Prim2SF y)) as [[]|] eqn:E; split; try congruence;
    try (intros (nx & ny & [L | K]);
         [specialize (FromLt (conj nx (conj ny L))) | specialize (FromEq (conj nx (conj ny K)))];
         congruence).
  - intros _. apply SFcompare_Eq in E. tauto.
  - intros _. apply SFcompare_Lt in E. tauto.
Qed.

Lemma eqb_refl_number (x : float) : (x =? x) = true <-> number x.
Proof.
  rewrite FloatAxioms.eqb_spec. unfold SFeqb, number.
  assert (R : not_nan (Prim2SF x) -> SFcompare (Prim2SF x) (Prim2SF x) = Some Eq)
    by (intros n; apply SFcompare_Eq; tauto).
  destruct (SFcompare (Prim2SF x) (Prim2SF x)) as [[]|] eqn:E; split; try congruence;
    try (intros n; specialize (R n); congruence).
  intros _. apply SFcompare_Eq in E. tauto.
Qed.

Lemma is_nan_false (x : float) : is_nan x = false <-> number x.
Proof.
  unfold is_nan. rewrite <- eqb_refl_number.
  destruct (x =? x); simpl; split; congruence.
Qed.

(** The order is total on numbers, and transitive. *)
Lemma lex_total (a b : Z * Z * Z) : lex_lt a b \/ a = b \/ lex_lt b a.
Proof.
  destruct a as [[a1 a2] a3], b as [[b1 b2] b3]; unfold lex_lt.
  destruct (Z.lt_total a1 b1) as [|[|]]; [lia| |lia].
  destruct (Z.lt_total a2 b2) as [|[|]]; [lia| |lia].
  destruct (Z.lt_total a3 b3) as [|[|]]; [lia| |lia].
  right; left; congruence.
Qed.

Lemma lex_lt_trans (a b c : Z * Z * Z) : lex_lt a b -> lex_lt b c -> lex_lt a c.
Proof.
  destruct a as [[a1 a2] a3], b as [[b1 b2] b3], c as [[c1 c2] c3]; unfold lex_lt; lia.
Qed.

(** [t <= y < x] gives [t <= x]: what the threshold comparisons rest on. *)
Lemma leb_ltb_trans (t y x : float) :
  (t <=? y) = true -> (y <? x) = true -> (t <=? x) = true.
Proof.
  rewrite !leb_true, ltb_true. intros (nt & ny & H) (_ & nx & L).
  repeat split; try assumption. left.
  destruct H as [H | H]; [eapply lex_lt_trans; eassumption | rewrite H; assumption].
Qed.

Lemma ltb_leb (x y : float) : (x <? y) = true -> (x <=? y) = true.
Proof. rewrite leb_true, ltb_true. tauto. Qed.

(** Two numbers of which the second is not below the first. *)
Lemma not_ltb_leb (x y : float) :
  number x -> number y -> (y <? x) = false -> (x <=? y) = true.
Proof.
  intros nx ny H. apply leb_true. repeat split; try assumption.
  destruct (lex_total (fkey x) (fkey y)) as [|[|L]]; auto.
  assert ((y <? x) = true) by (apply ltb_true; tauto). congruence.
Qed.

(** *** The clamp and the rounding of a percentage *)

Lemma number_100 : number 100.
Proof. apply is_nan_false. reflexivity. Qed.

Lemma Math_min_100 (x : float) :
  is_nan x = false ->
  is_nan (IEEE.Math_min 100 x) = false /\ (IEEE.Math_min 100 x <=? 100) = true.
Proof.
  intros n. unfold IEEE.Math_min. rewrite n.
  replace (is_nan 100) with false by reflexivity. simpl.
  destruct (100 <? x) eqn:L1; [split; reflexivity|].
  destruct (x <? 100) eqn:L2; [split; [assumption | apply ltb_leb; assumption]|].
  destruct (get_sign x); [|split; reflexivity].
  split; [assumption|].
  apply not_ltb_leb; [apply is_nan_false; assumption | apply number_100 | assumption].
Qed.

Lemma Math_max_0 (m : float) :
  is_nan m = false -> (m <=? 100) = true ->
  (IEEE.Math_max 0 m = 0 \/ (0 <? IEEE.Math_max 0 m) = true)
  /\ (IEEE.Math_max 0 m <=? 100) = true.
Proof.
  intros n H. unfold IEEE.Math_max. rewrite n.
  replace (is_nan 0) with false by reflexivity. simpl.
  destruct (0 <? m) eqn:L1; [split; [right|]; assumption|].
  destruct (m <? 0) eqn:L2; [split; [left|]; reflexivity|].
  replace (get_sign 0) with false by reflexivity.
  split; [left|]; reflexivity.
Qed.

(** The clamped percentage of a number is +0 or positive, and at most 100. *)
Lemma clampPercentage_range (x : float) :
  is_nan x = false ->
  (clampPercentage x = 0 \/ (0 <? clampPercentage x) = true)
  /\ (clampPercentage x <=? 100) = true.
Proof.
  intros n. unfold clampPercentage.
  change (@lit IEEE.binary64 0%Q) with 0.
  change (@lit IEEE.binary64 100%Q) with 100.
  destruct (Math_min_100 x n) as [n' H].
  apply (Math_max_0 _ n' H).
Qed.

(** The clamp does not stop NaN. *)
Lemma clampPercentage_nan (x : float) :
  is_nan x = true -> clampPercentage x = nan.
Proof.
  intros n. unfold clampPercentage.
  change (@lit IEEE.binary64 0%Q) with 0.
  change (@lit IEEE.binary64 100%Q) with 100.
  change (IEEE.Math_max 0 (IEEE.Math_min 100 x) = nan).
  unfold IEEE.Math_min. rewrite n, orb_true_r. reflexivity.
Qed.

Lemma digits2_pos_size (m : positive) : digits2_pos m = Pos.size m.
Proof. induction m; simpl; congruence. Qed.

(** A valid mantissa has at most 53 bits. *)
Lemma mantissa_bound (s : bool) (m : positive) (e : Z) :
  valid_binary (S754_finite s m e) = true -> (Zpos m < 2 ^ 53)%Z.
Proof.
  simpl. unfold bounded, canonical_mantissa, fexp. intros H.
  apply andb_prop in H. destruct H as [H _]. apply Z.eqb_eq in H.
  rewrite digits2_pos_size in H.
  assert (D : (Zpos (Pos.size m) <= 53)%Z).
  { unfold FloatOps.prec, SpecFloat.fexp in H.
    pose proof (Z.le_max_l (Zpos (Pos.size m) + e - 53) (SpecFloat.emin 53 emax)) as Le.
    change IntDef.Z.max with Z.max in H. rewrite H in Le. lia. }
  pose proof (Pos.size_gt m) as G.
  apply Pos2Z.pos_lt_pos in G. rewrite Pos2Z.inj_pow in G.
  change (Zpos m < 2 ^ 53)%Z.
  eapply Z.lt_le_trans; [exact G|].
  apply Z.pow_le_mono_r; lia.
Qed.

(** [Math.round] takes a number of [0, 100] to an integer of [0, 100]. *)
Lemma Math_round_0_100 (p : float) :
  p = 0 \/ (0 <? p) = true -> (p <=? 100) = true ->
  exists k : Z, (0 <= k <= 100)%Z /\ IEEE.Math_round p = IEEE.Z2F k.
Proof.
  intros [-> | L] H; [exists 0%Z; split; [lia | reflexivity]|].
  apply ltb_true in L. destruct L as (_ & _ & L).
  apply leb_true in H. destruct H as (np & _ & H).
  pose proof (Prim2SF_valid p) as V.
  unfold IEEE.Math_round. unfold fkey, number, not_nan in *.
  replace (Prim2SF 0) with (S754_zero false) in L by reflexivity.
  replace (Prim2SF 100) with (S754_finite false 7036874417766400 (-46)) in H by reflexivity.
  destruct (Prim2SF p) as [s|s| |s m e]; simpl in L, H.
  - lia.
  - destruct s; simpl in L, H; destruct H as [H | H]; try lia; discriminate.
  - congruence.
  - destruct s; [simpl in L; lia|]. unfold lex_lt in H.
    assert (E : (e <= -46)%Z) by (destruct H as [H | H]; [lia | injection H; lia]).
    assert (M : (e = -46 -> Zpos m <= 7036874417766400)%Z)
      by (destruct H as [H | H]; [lia | injection H; lia]).
    apply mantissa_bound in V.
    destruct (0 <=? e)%Z eqn:E0; [apply Z.leb_le in E0; lia|].
    set (k := ((2 * Zpos m + 2 ^ (- e)) / 2 ^ (1 - e))%Z).
    exists k. split.
    + assert (P : (0 < 2 ^ (- e))%Z) by (apply Z.pow_pos_nonneg; lia).
      assert (P2 : (2 ^ (1 - e) = 2 * 2 ^ (- e))%Z)
        by (replace (1 - e)%Z with (Z.succ (- e)) by lia; apply Z.pow_succ_r; lia).
      assert (B : (Zpos m <= 100 * 2 ^ (- e))%Z).
      { destruct (Z.eq_dec e (-46)) as [-> | Ne].
        - specialize (M eq_refl). simpl. lia.
        - assert ((2 ^ 47 <= 2 ^ (- e))%Z) by (apply Z.pow_le_mono_r; lia).
          change (2 ^ 47)%Z with 140737488355328%Z in *.
          change (2 ^ 53)%Z with 9007199254740992%Z in *. lia. }
      unfold k. rewrite P2. split.
      * apply Z.div_pos; lia.
      * apply Z.lt_succ_r. apply Z.div_lt_upper_bound; lia.
    + destruct (k =? 0)%Z eqn:K; [apply Z.eqb_eq in K; rewrite K|]; reflexivity.
Qed.


(** *** Rounding never makes NaN of finite numbers

    [SFmul] and [SFadd] round through [binary_round_aux]; the lemmas below
    follow its two truncation steps on the mantissa and the exponent. *)

Local Close Scope float_scope.
Local Open Scope Z_scope.

Lemma shr_1_bound (r : shr_record) (k : Z) :
  0 <= k -> 0 <= shr_m r < 2 ^ (k + 1) -> 0 <= shr_m (shr_1 r) < 2 ^ k.
Proof.
  intros K. rewrite Z.pow_add_r by lia. change (2 ^ 1) with 2.
  destruct r as [m r s]. cbn [shr_m].
  destruct m as [|p|p]; [| |lia].
  - intros _. simpl. split; [lia | apply Z.pow_pos_nonneg; lia].
  - destruct p as [p|p|]; simpl; intros H; try lia;
      (split; [lia | apply Z.pow_pos_nonneg; lia]).
Qed.

Lemma iter_shr_bound (p : positive) :
  forall (r : shr_record) (k : Z),
    0 <= k -> 0 <= shr_m r < 2 ^ (k + Zpos p) ->
    0 <= shr_m (SpecFloat.iter_pos shr_1 p r) < 2 ^ k.
Proof.
  induction p as [p IH|p IH|]; intros r k K H; cbn [SpecFloat.iter_pos].
  - apply IH; [exact K|]. apply IH; [lia|].
    apply shr_1_bound; [lia|].
    replace (k + Zpos p + Zpos p + 1) with (k + Zpos p~1) by lia. exact H.
  - apply IH; [exact K|]. apply IH; [lia|].
    replace (k + Zpos p + Zpos p) with (k + Zpos p~0) by lia. exact H.
  - apply shr_1_bound; assumption.
Qed.

Lemma Zdigits2_bound (m : positive) :
  2 ^ (Zdigits2 (Zpos m) - 1) <= Zpos m < 2 ^ Zdigits2 (Zpos m).
Proof.
  cbn [Zdigits2].
  assert (D : digits2_pos m = Pos.size m) by (induction m; simpl; congruence).
  rewrite D. split.
  - pose proof (Pos.size_le m) as L.
    assert (L' : 2 ^ Zpos (Pos.size m) <= 2 * Zpos m).
    { rewrite <- Pos2Z.inj_pow. exact L. }
    replace (Zpos (Pos.size m)) with (Z.succ (Zpos (Pos.size m) - 1)) in L' by lia.
    rewrite Z.pow_succ_r in L' by lia. lia.
  - pose proof (Pos.size_gt m) as G.
    apply Pos2Z.pos_lt_pos in G. rewrite Pos2Z.inj_pow in G. exact G.
Qed.

Lemma Zdigits2_le (M d : Z) : 0 <= M < 2 ^ d -> 0 <= d -> Zdigits2 M <= d.
Proof.
  intros [H0 H] D. destruct M as [|m|m]; [simpl; lia | | lia].
  pose proof (Zdigits2_bound m) as [L _].
  destruct (Z_le_gt_dec (Zdigits2 (Zpos m)) d) as [|G]; [assumption|].
  assert (2 ^ d <= 2 ^ (Zdigits2 (Zpos m) - 1)) by (apply Z.pow_le_mono_r; lia).
  lia.
Qed.

Lemma fexp64_eq (z : Z) : fexp 53 1024 z = fexp64 z.
Proof. reflexivity. Qed.

(** One truncation step of the rounding: the mantissa stays nonnegative and
    comes below 2^53, and the exponent is the larger of the format's and
    the given one. *)
Lemma shr_fexp_bound (M e : Z) (l : location) :
  0 <= M ->
  0 <= shr_m (fst (shr_fexp 53 1024 M e l)) < 2 ^ 53
  /\ snd (shr_fexp 53 1024 M e l) = Z.max (fexp64 (Zdigits2 M + e)) e.
Proof.
  intros H. unfold shr_fexp. rewrite fexp64_eq.
  set (d := Zdigits2 M).
  assert (B : 0 <= M < 2 ^ d).
  { destruct M as [|m|m]; [simpl; lia | | lia]. pose proof (Zdigits2_bound m). unfold d. lia. }
  assert (D0 : 0 <= d) by (unfold d; destruct M; simpl; lia).
  assert (R : shr_m (shr_record_of_loc M l) = M) by (destruct l as [|[]]; reflexivity).
  unfold shr. destruct (fexp64 (d + e) - e) as [|n|n] eqn:N; cbn [fst snd].
  - rewrite R. unfold fexp64 in *. split; [|lia].
    split; [lia|]. eapply Z.lt_le_trans; [apply B|]. apply Z.pow_le_mono_r; lia.
  - split; [|unfold fexp64 in *; lia].
    apply iter_shr_bound; [lia|]. rewrite R. split; [lia|].
    eapply Z.lt_le_trans; [apply B|]. apply Z.pow_le_mono_r; unfold fexp64 in *; lia.
  - rewrite R. unfold fexp64 in *. split; [|lia].
    split; [lia|]. eapply Z.lt_le_trans; [apply B|]. apply Z.pow_le_mono_r; lia.
Qed.

Lemma round_nearest_even_bound (M : Z) (l : location) :
  0 <= M < 2 ^ 53 -> 0 <= round_nearest_even M l < 2 ^ 54.
Proof.
  change (2 ^ 53) with 9007199254740992. change (2 ^ 54) with 18014398509481984.
  intros H. unfold round_nearest_even.
  destruct l as [|[]]; try destruct (IntDef.Z.even M); lia.
Qed.

(** The rounding of a positive mantissa is a number; where the exponent
    leaves room it is finite. *)
Lemma binary_round_aux_cases (sx : bool) (m : positive) (e : Z) (l : location) :
  not_nan (binary_round_aux 53 1024 sx (Zpos m) e l)
  /\ (Zdigits2 (Zpos m) + e <= 1023 -> e <= 970 ->
      fin (binary_round_aux 53 1024 sx (Zpos m) e l)).
Proof.
  unfold binary_round_aux.
  pose proof (shr_fexp_bound (Zpos m) e l ltac:(lia)) as [B1 E1].
  destruct (shr_fexp 53 1024 (Zpos m) e l) as [mrs' e']. cbn [fst snd] in B1, E1.
  pose proof (round_nearest_even_bound _ (loc_of_shr_record mrs') B1) as B2.
  set (M' := round_nearest_even (shr_m mrs') (loc_of_shr_record mrs')) in *.
  pose proof (shr_fexp_bound M' e' loc_Exact ltac:(lia)) as [B3 E3].
  pose proof (Zdigits2_le M' 54 B2 ltac:(lia)) as D'.
  destruct (shr_fexp 53 1024 M' e' loc_Exact) as [mrs'' e'']. cbn [fst snd] in B3, E3.
  destruct (shr_m mrs'') as [|m''|m'']; [| |lia].
  - split; [discriminate | intros; exact I].
  - split.
    + unfold not_nan. destruct (e'' <=? 1024 - 53); discriminate.
    + intros H1 H2. unfold fexp64 in *.
      destruct (e'' <=? 1024 - 53) eqn:Q; [exact I|].
      apply Z.leb_gt in Q. lia.
Qed.

Lemma binary_round_number (sx : bool) (m : positive) (e : Z) :
  not_nan (binary_round 53 1024 sx m e).
Proof.
  unfold binary_round.
  destruct (shl_align m e (fexp 53 1024 (Zpos (digits2_pos m) + e))) as [mz ez].
  apply binary_round_aux_cases.
Qed.

Lemma SFadd_number (a b : spec_float) :
  not_nan a -> fin b -> not_nan (SF64add a b).
Proof.
  unfold SF64add, SFadd, not_nan.
  destruct a as [sa|sa| |sa ma ea], b as [sb|sb| |sb mb eb]; simpl;
    intros A B; try contradiction; try discriminate;
    try (destruct sa; try destruct sb; discriminate).
  unfold binary_normalize.
  destruct (cond_Zopp sa (Zpos (fst (shl_align ma ea (IntDef.Z.min ea eb))))
            + cond_Zopp sb (Zpos (fst (shl_align mb eb (IntDef.Z.min ea eb)))));
    [discriminate | apply binary_round_number | apply binary_round_number].
Qed.

Lemma SFmul_number (a b : spec_float) (sb : bool) (mb : positive) (eb : Z) :
  not_nan a -> b = S754_finite sb mb eb -> not_nan (SF64mul a b).
Proof.
  intros A ->. unfold SF64mul, SFmul, not_nan in *.
  destruct a as [sa|sa| |sa ma ea]; try discriminate; try contradiction.
  apply binary_round_aux_cases.
Qed.

(** A finite number times a constant of magnitude at most 1/2 is finite. *)
Lemma SFmul_small_fin (a : spec_float) (sc : bool) (mc : positive) (ec : Z) :
  fin a -> valid_binary a = true ->
  Zpos mc <= 2 ^ (- ec - 1) -> ec <= -1 ->
  fin (SF64mul a (S754_finite sc mc ec)).
Proof.
  intros A V C E. unfold SF64mul, SFmul.
  destruct a as [sa|sa| |sa ma ea]; try contradiction; [exact I|].
  pose proof (mantissa_bound _ _ _ V) as Mb.
  simpl in V. unfold bounded in V. apply andb_prop in V. destruct V as [_ V].
  apply Z.leb_le in V. unfold FloatOps.emax, FloatOps.prec in V.
  apply binary_round_aux_cases; [|lia].
  assert (P : 0 < 2 ^ (- ec - 1)) by (apply Z.pow_pos_nonneg; lia).
  assert (B : 0 <= Zpos (ma * mc) < 2 ^ (52 - ec)).
  { split; [lia|]. rewrite Pos2Z.inj_mul.
    replace (52 - ec) with (53 + (- ec - 1)) by lia.
    rewrite Z.pow_add_r by lia.
    apply Z.le_lt_trans with (Zpos ma * 2 ^ (- ec - 1)).
    - apply Z.mul_le_mono_nonneg_l; lia.
    - apply Z.mul_lt_mono_pos_r; assumption. }
  pose proof (Zdigits2_le _ _ B ltac:(lia)). lia.
Qed.

Local Close Scope Z_scope.
Local Open Scope float_scope.

Lemma is_finite_fin (x : float) : is_finite x = true -> fin (Prim2SF x).
Proof.
  unfold is_finite, is_infinity. intros H.
  apply negb_true_iff in H. apply orb_false_iff in H. destruct H as [N I].
  apply is_nan_false in N. unfold number, not_nan in N.
  rewrite FloatAxioms.eqb_spec, abs_spec in I.
  replace (Prim2SF infinity) with (S754_infinity false) in I by reflexivity.
  destruct (Prim2SF x) as [s|s| |s m e]; simpl; try exact Logic.I; try congruence.
  simpl in I. discriminate.
Qed.

Lemma fin_number (f : spec_float) : fin f -> not_nan f.
Proof. destruct f; simpl; intros H; try contradiction; discriminate. Qed.

Lemma mul_small_fin (x c : float) (sc : bool) (mc : positive) (ec : Z) :
  is_finite x = true -> Prim2SF c = S754_finite sc mc ec ->
  (Zpos mc <= 2 ^ (- ec - 1))%Z -> (ec <= -1)%Z ->
  fin (Prim2SF (x * c)).
Proof.
  intros F C M E. rewrite mul_spec, C.
  apply SFmul_small_fin; [apply is_finite_fin; exact F | apply Prim2SF_valid | exact M | exact E].
Qed.

Lemma add_number (x y : float) :
  number x -> fin (Prim2SF y) -> number (x + y).
Proof. intros X Y. unfold number. rewrite add_spec. apply SFadd_number; assumption. Qed.

Lemma mul_number (x y : float) (sy : bool) (my : positive) (ey : Z) :
  number x -> Prim2SF y = S754_finite sy my ey -> number (x * y).
Proof.
  intros X Y. unfold number. rewrite mul_spec. eapply SFmul_number; eassumption.
Qed.

(** Unless the configured adjustment is an infinity, the multiplier is
    finite and not zero: a configured 0 or NaN is replaced by 1.0. *)
Lemma styleAdjustment_finite (v : float) :
  is_infinity v = false ->
  exists s m e, Prim2SF (if IEEE.truthy v then v else IEEE.lit 1.0) = S754_finite s m e.
Proof.
  intros F.
  assert (One : exists s m e, Prim2SF (IEEE.lit 1.0) = S754_finite s m e)
    by (do 3 eexists; vm_compute; reflexivity).
  destruct (IEEE.truthy v) eqn:T; [|exact One].
  unfold IEEE.truthy in T. apply negb_true_iff in T.
  apply orb_false_iff in T. destruct T as [Z N].
  assert (Fin : is_finite v = true) by (unfold is_finite; rewrite N, F; reflexivity).
  apply is_finite_fin in Fin.
  destruct (Prim2SF v) as [s|s| |s m e] eqn:P; try contradiction.
  - exfalso. unfold is_zero in Z.
    rewrite FloatAxioms.eqb_spec, P in Z.
    replace (Prim2SF zero) with (S754_zero false) in Z by reflexivity.
    simpl in Z. discriminate.
  - do 3 eexists. reflexivity.
Qed.

(** Finite scores and a configured adjustment that is not an infinity give
    a percentage that is a number. *)
Lemma adjustedPercentage_number
    (sims : Similarities) (st : DetectedStyle) (config : GradingConfig) :
  is_finite (cosineSimilarity sims) = true ->
  is_finite (ssimScore sims) = true ->
  is_finite (structuralSimilarity sims) = true ->
  is_infinity (lookupAdjustment config (style st)) = false ->
  is_nan (adjustedPercentage sims st config) = false.
Proof.
  intros F1 F2 F3 F4. apply is_nan_false.
  unfold adjustedPercentage, combinedScore.
  cbn [mul add lit truthy IEEE.binary64].
  destruct (styleAdjustment_finite _ F4) as (s & m & e & A).
  eapply mul_number; [|exact A].
  eapply mul_number; [|vm_compute; reflexivity].
  apply add_number; [apply add_number; [apply fin_number|]|];
    (eapply mul_small_fin;
     [eassumption | vm_compute; reflexivity | vm_compute; discriminate | lia]).
Qed.

(** *** The grading engine *)

Local Open Scope js_scope.

(** The reported percentage of an adjusted percentage that is a number
    (not NaN), whatever its sign or size: an integer of [0, 100]. *)
Lemma reported_percentage_of_number
    (sims : Similarities) (st : DetectedStyle) (config : GradingConfig) :
  is_nan (adjustedPercentage sims st config) = false ->
  exists k : Z, (0 <= k <= 100)%Z
    /\ similarity (generateEnhancedGrade sims st config) = IEEE.Z2F k.
Proof.
  intros n. rewrite similarity_eq.
  destruct (clampPercentage_range _ n) as [Z H].
  apply (Math_round_0_100 _ Z H).
Qed.

(** X18: for finite scores of any sign and size, each of the four styles
    and every configuration whose adjustment for the style is not an
    infinity, the engine combines the three metrics with the weights 0.5,
    0.35 and 0.15, scales to a percentage, multiplies by the adjustment
    configured for the style (1.0 in place of a configured 0 or NaN),
    clamps and rounds; the reported percentage is an integer of [0, 100]. *)
Theorem reported_percentage_integer_0_100
    (sims : Similarities) (st : DetectedStyle) (config : GradingConfig) :
  is_finite (cosineSimilarity sims) = true ->
  is_finite (ssimScore sims) = true ->
  is_finite (structuralSimilarity sims) = true ->
  is_infinity
    match style st with
    | cartoon => adj_cartoon (styleAdjustments config)
    | sketch => adj_sketch (styleAdjustments config)
    | realistic => adj_realistic (styleAdjustments config)
    | abstract => adj_abstract (styleAdjustments config)
    end = false ->
  let configured :=
    match style st with
    | cartoon => adj_cartoon (styleAdjustments config)
    | sketch => adj_sketch (styleAdjustments config)
    | realistic => adj_realistic (styleAdjustments config)
    | abstract => adj_abstract (styleAdjustments config)
    end in
  let styleAdjustment := if truthy configured then configured else $1.0 in
  let percentage :=
    (cosineSimilarity sims * $0.5 + ssimScore sims * $0.35
     + structuralSimilarity sims * $0.15) * $100 * styleAdjustment in
  similarity (generateEnhancedGrade sims st config)
    = Math_round (Math_max $0 (Math_min $100 percentage))
  /\ exists k : Z, (0 <= k <= 100)%Z
       /\ similarity (generateEnhancedGrade sims st config) = IEEE.Z2F k.
Proof.
  intros F1 F2 F3 F4. cbv zeta. split.
  - rewrite similarity_eq. reflexivity.
  - apply reported_percentage_of_number.
    apply adjustedPercentage_number; [exact F1 | exact F2 | exact F3 | exact F4].
Qed.

Lemma reported_percentage_witness :
  let sims := @Build_Similarities IEEE.binary64 0.75%float 0.75%float 0.75%float in
  let cartoon_st := @Build_DetectedStyle IEEE.binary64 cartoon 0.5%float in
  let abstract_st := @Build_DetectedStyle IEEE.binary64 abstract 0.5%float in
  similarity (generateEnhancedGrade sims cartoon_st defaultGradingConfig) = 79%float
  /\ similarity (generateEnhancedGrade sims abstract_st defaultGradingConfig) = 74%float
  /\ (similarity (generateEnhancedGrade sims cartoon_st defaultGradingConfig)
      = Math_round (Math_max $0 (Math_min $100
          ((0.75 * $0.5 + 0.75 * $0.35 + 0.75 * $0.15) * $100 * $1.05)%float))
      /\ exists k : Z, (0 <= k <= 100)%Z
           /\ similarity (generateEnhancedGrade sims cartoon_st defaultGradingConfig)
              = IEEE.Z2F k).
Proof.
  cbv zeta. split; [reflexivity|]. split; [reflexivity|].
  apply (reported_percentage_integer_0_100
           (@Build_Similarities IEEE.binary64 0.75%float 0.75%float 0.75%float)
           (@Build_DetectedStyle IEEE.binary64 cartoon 0.5%float)
           defaultGradingConfig); reflexivity.
Defined.

(** C2: a score that is NaN, as the statistical metric returns it for a
    feature vector of zero variance, passes the clamp
    [Math.max(0, Math.min(100, percentage))]: the reported percentage is
    NaN, not an integer of [0, 100]. *)
Theorem nan_score_percentage_not_clamped :
  let statistical :=
    calculateAccurateStructuralSimilarity
      [0.5%float; 0.5%float; 0.5%float] [0.25%float; 1%float; 0.5%float] in
  let sims := @Build_Similarities IEEE.binary64 0.75%float 0.75%float statistical in
  let st := @Build_DetectedStyle IEEE.binary64 realistic 0.75%float in
  let result := generateEnhancedGrade sims st defaultGradingConfig in
  is_nan statistical = true
  /\ is_nan (clampPercentage (adjustedPercentage sims st defaultGradingConfig)) = true
  /\ is_nan (similarity result) = true
  /\ (similarity result >=? $0) = false
  /\ ($100 >=? similarity result) = false.
Proof. cbv zeta. repeat split; vm_compute; reflexivity. Qed.

(** When the adjusted percentage is NaN the clamp lets it through: the
    reported percentage is NaN and no threshold is met. *)
Lemma nan_percentage_reported
    (sims : Similarities) (st : DetectedStyle) (config : GradingConfig) :
  is_nan (adjustedPercentage sims st config) = true ->
  is_nan (similarity (generateEnhancedGrade sims st config)) = true
  /\ grade (generateEnhancedGrade sims st config) = "F"%string.
Proof.
  intros n. rewrite similarity_eq, grade_eq, (clampPercentage_nan _ n).
  split; [reflexivity|].
  unfold determineGrade. cbn [leb IEEE.binary64].
  assert (F : forall t : float, (t <=? nan)%float = false).
  { intros t. destruct (t <=? nan)%float eqn:E; [|reflexivity].
    apply leb_true in E. destruct E as (_ & E & _). exfalso. apply E. reflexivity. }
  rewrite !F. reflexivity.
Qed.

(** C3: under one configuration, a larger percentage never gets a lower
    letter than a smaller one. *)
Theorem grade_bands_monotonic (config : GradingConfig) (percentageA percentageB : float) :
  (percentageA >? percentageB) = true ->
  (grade_rank (fst (determineGrade config percentageB))
   <= grade_rank (fst (determineGrade config percentageA)))%nat.
Proof.
  intros L. unfold determineGrade.
  assert (M : forall t : float,
             (t <=? percentageB)%float = true -> (t <=? percentageA)%float = true)
    by (intros t H; exact (leb_ltb_trans _ _ _ H L)).
  cbn [leb IEEE.binary64].
  repeat match goal with
  | |- context [PrimFloat.leb ?t percentageB] =>
      let E := fresh "E" in
      destruct (PrimFloat.leb t percentageB) eqn:E; [rewrite (M _ E)|]
  end;
  repeat match goal with
  | |- context [PrimFloat.leb ?t percentageA] => destruct (PrimFloat.leb t percentageA)
  end;
  vm_compute; lia.
Qed.

Lemma grade_bands_monotonic_witness :
  (85.5%float >? 72%float) = true
  /\ fst (determineGrade defaultGradingConfig 72%float) = "B"%string
  /\ fst (determineGrade defaultGradingConfig 85.5%float) = "A"%string
  /\ (grade_rank (fst (determineGrade defaultGradingConfig 72%float))
      <= grade_rank (fst (determineGrade defaultGradingConfig 85.5%float)))%nat.
Proof.
  split; [reflexivity|]. split; [reflexivity|]. split; [reflexivity|].
  apply (grade_bands_monotonic defaultGradingConfig 85.5%float 72%float). reflexivity.
Defined.

(** X19: a configuration with every threshold at 0 gives the letter "A+"
    for all finite scores and each of the four styles whose configured
    adjustment is not an infinity: the clamped percentage is at least 0 and
    the A+ threshold is tested first. *)
Theorem zero_thresholds_grade_Aplus
    (sims : Similarities) (st : DetectedStyle) (config : GradingConfig) :
  thresholds config = IEEE.zero_thresholds ->
  is_finite (cosineSimilarity sims) = true ->
  is_finite (ssimScore sims) = true ->
  is_finite (structuralSimilarity sims) = true ->
  is_infinity
    match style st with
    | cartoon => adj_cartoon (styleAdjustments config)
    | sketch => adj_sketch (styleAdjustments config)
    | realistic => adj_realistic (styleAdjustments config)
    | abstract => adj_abstract (styleAdjustments config)
    end = false ->
  grade (generateEnhancedGrade sims st config) = "A+"%string.
Proof.
  intros T F1 F2 F3 F4.
  pose proof (adjustedPercentage_number sims st config F1 F2 F3 F4) as n.
  rewrite grade_eq. unfold determineGrade. rewrite T.
  cbn [th_Aplus IEEE.zero_thresholds leb IEEE.binary64].
  destruct (clampPercentage_range _ n) as [[Z | Z] _].
  - rewrite Z. reflexivity.
  - change (IEEE.lit 0) with 0%float. rewrite (ltb_leb _ _ Z). reflexivity.
Qed.

Lemma zero_thresholds_witness :
  let sims := @Build_Similarities IEEE.binary64 0.25%float 0%float (-2)%float in
  let st := (@Build_DetectedStyle IEEE.binary64 abstract 0.5%float) in
  let config := {| thresholds := IEEE.zero_thresholds;
                   styleAdjustments := styleAdjustments defaultGradingConfig |} in
  similarity (generateEnhancedGrade sims st config) = 0%float
  /\ grade (generateEnhancedGrade sims st config) = "A+"%string.
Proof.
  cbv zeta. split; [reflexivity|].
  apply (zero_thresholds_grade_Aplus
           (@Build_Similarities IEEE.binary64 0.25%float 0%float (-2)%float)
           (@Build_DetectedStyle IEEE.binary64 abstract 0.5%float)
           {| thresholds := IEEE.zero_thresholds;
              styleAdjustments := styleAdjustments defaultGradingConfig |});
    reflexivity.
Defined.

(** C8: with every threshold at 0, a score that is NaN, as the statistical
    metric returns it for a feature vector of zero variance, gets the
    letter "F": the clamp lets the NaN percentage through, and
    [percentage >= 0] is false of it. *)
Theorem nan_score_zero_thresholds_grade_F :
  let statistical :=
    calculateAccurateStructuralSimilarity
      [0.5%float; 0.5%float; 0.5%float] [0.25%float; 1%float; 0.5%float] in
  let sims := @Build_Similarities IEEE.binary64 0.75%float 0.75%float statistical in
  let st := @Build_DetectedStyle IEEE.binary64 realistic 0.75%float in
  let config := {| thresholds := IEEE.zero_thresholds;
                   styleAdjustments := styleAdjustments defaultGradingConfig |} in
  let percentage := clampPercentage (adjustedPercentage sims st config) in
  is_nan statistical = true
  /\ is_nan percentage = true
  /\ (percentage >=? th_Aplus (thresholds config)) = false
  /\ grade (generateEnhancedGrade sims st config) = "F"%string.
Proof. cbv zeta. repeat split; vm_compute; reflexivity. Qed.

(** *** The style classifier and the style sentence *)

(** C10: a feature vector classified as 'abstract' carries the confidence
    0.7, which is not above 0.7, so the feedback of its comparison holds
    no style sentence. *)
Theorem abstract_style_never_acknowledged
    (features : list float) (sims : Similarities) (config : GradingConfig) :
  style (detectImageStyle features) = abstract ->
  confidence (detectImageStyle features) = $0.7
  /\ (confidence (detectImageStyle features) >? $0.7) = false
  /\ count_style_sentences
       (feedback (generateEnhancedGrade sims (detectImageStyle features) config)) = 0%nat.
Proof.
  intros A.
  assert (C : confidence (detectImageStyle features) = $0.7).
  { revert A. unfold detectImageStyle.
    repeat match goal with
    | |- context [if ?c then _ else _] => destruct c
    end; cbn [style confidence]; (discriminate || reflexivity). }
  assert (L : (confidence (detectImageStyle features) >? $0.7) = false)
    by (rewrite C; reflexivity).
  repeat split; try assumption.
  rewrite feedback_eq, feedback_style_count, L. reflexivity.
Qed.

Lemma abstract_style_witness :
  let features := [0.5%float; 0.25%float] in
  let sims := @Build_Similarities IEEE.binary64 0.5%float 0.5%float 0.5%float in
  style (detectImageStyle features) = abstract
  /\ confidence (detectImageStyle features) = $0.7
  /\ (confidence (detectImageStyle features) >? $0.7) = false
  /\ count_style_sentences
       (feedback (generateEnhancedGrade sims (detectImageStyle features)
                    defaultGradingConfig)) = 0%nat.
Proof.
  cbv zeta. split; [reflexivity|].
  apply (abstract_style_never_acknowledged [0.5%float; 0.25%float]). reflexivity.
Defined.

(** *** The metrics at concrete vectors *)

(** C1: the statistical metric is NaN, not a finite value of [0, 1], as
    soon as one of the two vectors has zero variance: its skewness is 0/0. *)
Theorem statistical_similarity_nan_on_zero_variance :
  is_nan (calculateAccurateStructuralSimilarity
            [0.5%float; 0.5%float; 0.5%float] [0.25%float; 1%float; 0.5%float]) = true
  /\ is_nan (calculateAccurateStructuralSimilarity
               [0%float; 0%float] [0%float; 0%float]) = true
  /\ is_nan (@calculateAccurateStructuralSimilarity IEEE.binary64 [] []) = true.
Proof. repeat split; vm_compute; reflexivity. Qed.

(** C4: on binary64 the vector (1, 2), of nonzero variance, has the
    normalised form (-1, 1), and its cosine similarity with itself is
    1 - 2^-52, not exactly 1; the cosine similarity of (1, 3, 4, 4) and its
    multiple by 3, two vectors of equal length, is 1 + 2^-51: above 1,
    outside [0, 1]. *)
Theorem cosine_rounding_binary64 :
  normalizeFeatures [1%float; 2%float] = [(-1)%float; 1%float]
  /\ calculateAccurateCosineSimilarity [1%float; 2%float] [1%float; 2%float]
     = 0x1.ffffffffffffep-1%float
  /\ (calculateAccurateCosineSimilarity [1%float; 2%float] [1%float; 2%float] === $1) = false
  /\ calculateAccurateCosineSimilarity
       [1%float; 3%float; 4%float; 4%float] [3%float; 9%float; 12%float; 12%float]
     = 0x1.0000000000002p+0%float
  /\ (calculateAccurateCosineSimilarity
        [1%float; 3%float; 4%float; 4%float] [3%float; 9%float; 12%float; 12%float]
      >? $1) = true.
Proof. repeat split; vm_compute; reflexivity. Qed.

(** *** Witnesses of the properties that hold at every instance *)

Lemma unequal_lengths_witness :
  List.length [1%float; 2%float] <> List.length [1%float; 2%float; 3%float]
  /\ calculateAccurateCosineSimilarity [1%float; 2%float] [1%float; 2%float; 3%float] = $0
  /\ calculateAccurateStructuralSimilarity
       [1%float; 2%float] [1%float; 2%float; 3%float] = $0.
Proof.
  split; [discriminate|].
  apply (@unequal_lengths_return_zero IEEE.binary64
           [1%float; 2%float] [1%float; 2%float; 3%float]).
  discriminate.
Defined.

Lemma ssim_fail_soft_witness :
  let events := [onload1; onerror2] in
  let data := [Byte.x0a; Byte.xc8; Byte.x1e; Byte.xff] in
  (one_event_per_image events /\ existsb is_error events = true)
  /\ calculateAccurateSSIM true true data data events = Fulfilled $0.1
  /\ calculateEnhancedSimilarity (Fulfilled [1%float; 2%float]) (Fulfilled [2%float; 1%float])
       true true data data events
     = Fulfilled {| cosineSimilarity :=
                      calculateAccurateCosineSimilarity [1%float; 2%float] [2%float; 1%float];
                    ssimScore := $0.1;
                    structuralSimilarity :=
                      calculateAccurateStructuralSimilarity
                        [1%float; 2%float] [2%float; 1%float] |}.
Proof.
  cbv zeta.
  assert (H : one_event_per_image [onload1; onerror2]
              /\ existsb is_error [onload1; onerror2] = true).
  { split; [split; simpl; lia | reflexivity]. }
  split; [exact H|].
  apply (@ssim_fail_soft IEEE.binary64 true true
           [Byte.x0a; Byte.xc8; Byte.x1e; Byte.xff] [Byte.x0a; Byte.xc8; Byte.x1e; Byte.xff]
           [onload1; onerror2] [1%float; 2%float] [2%float; 1%float]).
  right. right. exact H.
Defined.

End IEEEFacts.

(** * Further properties *)

(** ** The promises *)

Section PromiseFacts.

Context {J : JSNum}.
Open Scope js_scope.

(** Without an [error] event the promise is resolved by the second [load]. *)
Lemma loads_without_error (data1 data2 : PixelData) (events : list image_event)
    (st : ssim_state) :
  resolved st = None -> (loadedCount st < 2)%nat ->
  existsb is_error events = false ->
  resolved (fold_left (handle data1 data2) events st)
  = if Nat.leb 2 (loadedCount st + List.length (filter is_load events))
    then Some (ssim_sharpened data1 data2) else None.
Proof.
  revert st. induction events as [|ev events IH]; intros st N C E.
  - cbn [fold_left filter List.length]. rewrite Nat.add_0_r.
    destruct (Nat.leb 2 (loadedCount st)) eqn:Q; [apply Nat.leb_le in Q; lia | exact N].
  - cbn [fold_left].
    destruct ev; cbn [existsb is_error orb] in E; try discriminate;
      cbn [filter is_load List.length handle]; unfold processImages, resolve;
      cbn [loadedCount resolved];
      (destruct (Nat.eqb (S (loadedCount st)) 2) eqn:Q;
       [ apply Nat.eqb_eq in Q; cbn [loadedCount resolved]; rewrite N;
         rewrite (resolved_sticky data1 data2 events _ (ssim_sharpened data1 data2))
           by reflexivity;
         destruct (Nat.leb 2 _) eqn:Q2; [reflexivity | apply Nat.leb_gt in Q2; lia]
       | apply Nat.eqb_neq in Q;
         rewrite IH by (cbn [loadedCount resolved]; (assumption || lia));
         cbn [loadedCount]; replace (S (loadedCount st) + List.length (filter is_load events))%nat
           with (loadedCount st + S (List.length (filter is_load events)))%nat by lia;
         reflexivity ]).
Qed.

Lemma loads_at_most_two (events : list image_event) :
  one_event_per_image events -> (List.length (filter is_load events) <= 2)%nat.
Proof.
  intros [H1 H2].
  assert (W : (List.length (filter is_load events)
               <= List.length (filter of_image1 events)
                  + List.length (filter of_image2 events))%nat).
  { clear. induction events as [|ev events IH]; [simpl; lia|]. destruct ev; simpl; lia. }
  lia.
Qed.

(** X1: every outcome of the SSIM promise, each image firing at most one event:
    it never rejects; it is fulfilled with 0.1 when a context is missing or
    an image fires [error], with the sharpened SSIM once both images have
    loaded, and it is pending until then. *)
Theorem ssim_promise_outcomes (ctx1 ctx2 : bool) (data1 data2 : PixelData)
    (events : list image_event) :
  one_event_per_image events ->
  calculateAccurateSSIM ctx1 ctx2 data1 data2 events
  = if negb ctx1 || negb ctx2 then Fulfilled $0.1
    else if existsb is_error events then Fulfilled $0.1
    else if Nat.eqb (List.length (filter is_load events)) 2
         then Fulfilled (ssim_sharpened data1 data2)
         else Pending.
Proof.
  intros W. unfold calculateAccurateSSIM.
  destruct (negb ctx1 || negb ctx2); [reflexivity|].
  destruct (existsb is_error events) eqn:E.
  - rewrite error_before_two_loads; [reflexivity | reflexivity | | assumption].
    simpl. apply loads_bound; assumption.
  - rewrite loads_without_error by (cbn [loadedCount resolved]; (reflexivity || lia || assumption)).
    cbn [loadedCount]. rewrite Nat.add_0_l.
    pose proof (loads_at_most_two events W) as B.
    destruct (Nat.eqb (List.length (filter is_load events)) 2) eqn:Q.
    + apply Nat.eqb_eq in Q. rewrite Q. reflexivity.
    + apply Nat.eqb_neq in Q.
      destruct (Nat.leb 2 _) eqn:Q2; [apply Nat.leb_le in Q2; lia | reflexivity].
Qed.

(** X2: [calculateEnhancedSimilarity] rejects only when a feature extraction
    rejects: the SSIM promise it awaits never does. *)
Theorem enhanced_similarity_rejects_iff (features1 features2 : promise (list num))
    (ctx1 ctx2 : bool) (data1 data2 : PixelData) (events : list image_event) :
  calculateEnhancedSimilarity features1 features2 ctx1 ctx2 data1 data2 events = Rejected
  <-> features1 = Rejected \/ features2 = Rejected.
Proof.
  unfold calculateEnhancedSimilarity, calculateAccurateSSIM.
  destruct features1, features2; cbn;
    repeat match goal with
    | |- context [if ?c then _ else _] => destruct c
    | |- context [match resolved ?s with _ => _ end] => destruct (resolved s)
    end;
    (split; [try discriminate; auto | intros [H|H]; (discriminate || reflexivity)]).
Qed.

(** X3: once both images have loaded (and no error came, each image firing one
    event) the comparison resolves with the three metrics, the SSIM one
    being the sharpened score of the two pixel arrays. *)
Theorem enhanced_similarity_fulfilled (features1 features2 : list num)
    (data1 data2 : PixelData) (events : list image_event) :
  one_event_per_image events -> existsb is_error events = false ->
  List.length (filter is_load events) = 2%nat ->
  calculateEnhancedSimilarity (Fulfilled features1) (Fulfilled features2)
    true true data1 data2 events
  = Fulfilled {| cosineSimilarity := calculateAccurateCosineSimilarity features1 features2;
                 ssimScore := ssim_sharpened data1 data2;
                 structuralSimilarity :=
                   calculateAccurateStructuralSimilarity features1 features2 |}.
Proof.
  intros W E L. unfold calculateEnhancedSimilarity, calculateAccurateSSIM.
  cbn [negb orb].
  rewrite loads_without_error by (cbn [loadedCount resolved]; (reflexivity || lia || assumption)).
  cbn [loadedCount]. rewrite L. reflexivity.
Qed.

(** The promise is resolved, if at all, with 0.1 or with the sharpened
    SSIM. *)
Lemma resolved_values (data1 data2 : PixelData) (events : list image_event) :
  forall st : ssim_state,
    (resolved st = None \/ resolved st = Some $0.1
     \/ resolved st = Some (ssim_sharpened data1 data2)) ->
    resolved (fold_left (handle data1 data2) events st) = None
    \/ resolved (fold_left (handle data1 data2) events st) = Some $0.1
    \/ resolved (fold_left (handle data1 data2) events st)
       = Some (ssim_sharpened data1 data2).
Proof.
  induction events as [|ev events IH]; intros st H; [exact H|].
  cbn [fold_left]. apply IH.
  destruct ev; cbn [handle]; unfold processImages, resolve; cbn [loadedCount resolved];
    try destruct (Nat.eqb (S (loadedCount st)) 2); cbn [loadedCount resolved];
    destruct (resolved st) eqn:R; cbn [loadedCount resolved]; rewrite ?R; tauto.
Qed.

Lemma ssim_fulfilled_values (ctx1 ctx2 : bool) (data1 data2 : PixelData)
    (events : list image_event) (v : num) :
  calculateAccurateSSIM ctx1 ctx2 data1 data2 events = Fulfilled v ->
  v = $0.1 \/ v = ssim_sharpened data1 data2.
Proof.
  unfold calculateAccurateSSIM.
  destruct (negb ctx1 || negb ctx2); [intros H; injection H as <-; left; reflexivity|].
  pose proof (resolved_values data1 data2 events {| loadedCount := 0; resolved := None |}
                (or_introl eq_refl)) as [R | [R | R]]; rewrite R; intros H;
    try discriminate; injection H as <-; [left | right]; reflexivity.
Qed.

End PromiseFacts.

(** ** The feedback and the style *)

Section FeedbackFacts.

Context {J : JSNum}.
Open Scope js_scope.

Lemma feedback_head (sims : Similarities) (st : DetectedStyle) (percentage : num) :
  hd_error (generateAccurateFeedback sims st percentage) = Some (overall_sentence percentage).
Proof.
  unfold generateAccurateFeedback.
  repeat match goal with
  | |- context [if ?c then _ else _] =>
      lazymatch c with
      | context [sims] => destruct c
      | context [st] => destruct c
      end
  end; reflexivity.
Qed.

Lemma distinct_NoDup (l : list string) : distinct l = true -> NoDup l.
Proof.
  induction l as [|x l IH]; intros H; constructor;
    cbn [distinct] in H; apply andb_prop in H; destruct H as [H1 H2].
  - intros I. apply negb_true_iff in H1.
    assert (E : existsb (String.eqb x) l = true)
      by (apply existsb_exists; exists x; split; [exact I | apply String.eqb_refl]).
    congruence.
  - apply IH. exact H2.
Qed.

(** X4: the feedback holds between one and five sentences, and never the same
    sentence twice. *)
Theorem feedback_short_and_distinct
    (sims : Similarities) (st : DetectedStyle) (percentage : num) :
  (1 <= List.length (generateAccurateFeedback sims st percentage) <= 5)%nat
  /\ NoDup (generateAccurateFeedback sims st percentage).
Proof.
  assert (O : In (overall_sentence percentage) overall_sentences).
  { unfold overall_sentence.
    repeat match goal with
    | |- context [if ?c then _ else _] => destruct c
    end; cbn; tauto. }
  unfold generateAccurateFeedback. revert O.
  generalize (overall_sentence percentage). intros s O.
  repeat match goal with
  | |- context [if ?c then _ else _] => destruct c; cbv iota
  end;
  (split; [cbn; lia|]);
  cbn in O; decompose [or] O; try contradiction; subst s;
  apply distinct_NoDup; destruct (style st); vm_compute; reflexivity.
Qed.



End FeedbackFacts.

(** ** The order of the two vectors *)

Section Symmetry.

Context {J : JSNum}.
Open Scope js_scope.

(** The feature metrics are symmetric at every instance whose product and
    absolute difference commute. *)
Hypothesis mul_comm : forall x y : num, x * y = y * x.
Hypothesis abs_sub_sym : forall x y : num, Math_abs (x - y) = Math_abs (y - x).

Lemma get_middle (pre rest : list num) (y : num) :
  get (pre ++ y :: rest) (List.length pre) = y.
Proof. unfold get. apply nth_middle. Qed.

Lemma reduce_from_dot_sym (la : list num) :
  forall (lb pa pb : list num) (acc : num),
    List.length pa = List.length pb -> List.length la = List.length lb ->
    reduce_from (fun sum val i => sum + val * get (pb ++ lb) i) (List.length pa) la acc
    = reduce_from (fun sum val i => sum + val * get (pa ++ la) i) (List.length pb) lb acc.
Proof.
  induction la as [|x la IH]; intros [|y lb] pa pb acc P L; try discriminate; [reflexivity|].
  cbn [reduce_from].
  assert (G1 : get (pb ++ y :: lb) (List.length pa) = y) by (rewrite P; apply get_middle).
  assert (G2 : get (pa ++ x :: la) (List.length pb) = x) by (rewrite <- P; apply get_middle).
  rewrite G1, G2.
  replace (pb ++ y :: lb)%list with ((pb ++ [y]) ++ lb)%list
    by (rewrite <- app_assoc; reflexivity).
  replace (pa ++ x :: la)%list with ((pa ++ [x]) ++ la)%list
    by (rewrite <- app_assoc; reflexivity).
  replace (S (List.length pa)) with (List.length (pa ++ [x])%list)
    by (rewrite length_app; simpl; lia).
  replace (S (List.length pb)) with (List.length (pb ++ [y])%list)
    by (rewrite length_app; simpl; lia).
  rewrite (mul_comm y x).
  apply IH; [rewrite !length_app; simpl; lia | simpl in L; lia].
Qed.

Lemma dot_sym (la lb : list num) :
  List.length la = List.length lb ->
  reducei (fun sum val i => sum + val * get lb i) la $0
  = reducei (fun sum val i => sum + val * get la i) lb $0.
Proof.
  intros L. exact (reduce_from_dot_sym la lb [] [] $0 eq_refl L).
Qed.

Lemma length_normalizeFeatures (a : list num) :
  List.length (normalizeFeatures a) = List.length a.
Proof. unfold normalizeFeatures. apply length_map. Qed.

Lemma cosine_sym (a b : list num) :
  calculateAccurateCosineSimilarity a b = calculateAccurateCosineSimilarity b a.
Proof.
  unfold calculateAccurateCosineSimilarity.
  rewrite (Nat.eqb_sym (List.length b) (List.length a)).
  destruct (Nat.eqb (List.length a) (List.length b)) eqn:L; [|reflexivity].
  apply Nat.eqb_eq in L. cbn [negb]. cbv zeta.
  rewrite (dot_sym (normalizeFeatures a) (normalizeFeatures b))
    by (rewrite !length_normalizeFeatures; exact L).
  rewrite (orb_comm (_ === _) (_ === _)).
  rewrite (mul_comm (Math_sqrt _) (Math_sqrt _)).
  reflexivity.
Qed.

Lemma correlation_loop_sym (x y : list num) (meanX meanY : num) :
  List.length x = List.length y ->
  correlation_loop y x meanY meanX
  = let '(numerator, sumXSquared, sumYSquared) := correlation_loop x y meanX meanY in
    (numerator, sumYSquared, sumXSquared).
Proof.
  intros L. unfold correlation_loop. rewrite <- L.
  generalize (seq 0 (List.length x)). intros l.
  generalize ($0) at 1 4. intros n.
  generalize ($0) at 1 4. intros sx.
  generalize ($0) at 1 2. intros sy.
  revert n sx sy.
  induction l as [|i l IH]; intros n sx sy; [reflexivity|].
  cbn [fold_left]. rewrite (mul_comm (get y i - meanY) (get x i - meanX)). apply IH.
Qed.

Lemma correlation_sym (x y : list num) :
  List.length x = List.length y ->
  calculateCorrelation x y = calculateCorrelation y x.
Proof.
  intros L. unfold calculateCorrelation, len. cbv zeta. rewrite <- L.
  rewrite (correlation_loop_sym x y) by exact L.
  destruct (correlation_loop x y _ _) as [[numerator sumXSquared] sumYSquared].
  rewrite (mul_comm sumYSquared sumXSquared). reflexivity.
Qed.

Lemma statistical_sym (a b : list num) :
  calculateAccurateStructuralSimilarity a b = calculateAccurateStructuralSimilarity b a.
Proof.
  unfold calculateAccurateStructuralSimilarity.
  rewrite (Nat.eqb_sym (List.length b) (List.length a)).
  destruct (Nat.eqb (List.length a) (List.length b)) eqn:L; [|reflexivity].
  apply Nat.eqb_eq in L. cbn [negb]. cbv zeta.
  rewrite (correlation_sym a b L).
  match goal with
  | |- context [Math_abs (?u - ?v) * $10] => rewrite (abs_sub_sym u v)
  end.
  match goal with
  | |- context [Math_abs (?u - ?v) * $100] => rewrite (abs_sub_sym u v)
  end.
  match goal with
  | |- context [Math_abs (?u - ?v) * $5] => rewrite (abs_sub_sym u v)
  end.
  reflexivity.
Qed.

End Symmetry.

(** ** The difference heatmap *)

Module HeatmapFacts.

Import Heatmap.
#[local] Existing Instance IEEE.binary64.

Lemma Zrange_In (n : nat) (a : Z) : (0 <= a < Z.of_nat n)%Z -> In a (Zrange n).
Proof.
  intros H. unfold Zrange. apply in_map_iff. exists (Z.to_nat a).
  split; [lia | apply in_seq; lia].
Qed.

Lemma abs_sub_Z2F (a b : Z) :
  (0 <= a < 256)%Z -> (0 <= b < 256)%Z ->
  PrimFloat.abs (IEEE.Z2F a - IEEE.Z2F b)%float = IEEE.Z2F (Z.abs (a - b)).
Proof.
  intros A B.
  assert (C : forallb (fun a => forallb (abs_sub_check a) (Zrange 256)) (Zrange 256) = true)
    by (vm_compute; reflexivity).
  rewrite forallb_forall in C.
  specialize (C a (Zrange_In 256 a A)). rewrite forallb_forall in C.
  apply Leibniz.eqb_spec. apply C. apply (Zrange_In 256 b B).
Qed.

Lemma add_Z2F (a b : Z) :
  (0 <= a < 511)%Z -> (0 <= b < 256)%Z ->
  (IEEE.Z2F a + IEEE.Z2F b)%float = IEEE.Z2F (a + b).
Proof.
  intros A B.
  assert (C : forallb (fun a => forallb (add_check a) (Zrange 256)) (Zrange 511) = true)
    by (vm_compute; reflexivity).
  rewrite forallb_forall in C.
  specialize (C a (Zrange_In 511 a A)). rewrite forallb_forall in C.
  apply Leibniz.eqb_spec. apply C. apply (Zrange_In 256 b B).
Qed.

Lemma byte_Z_range (data : PixelData) (i : nat) : (0 <= byte_Z data i < 256)%Z.
Proof.
  unfold byte_Z. pose proof (Byte.to_N_bounded (nth i data Byte.x00)) as B. lia.
Qed.

Lemma px_byte_Z (data : PixelData) (i : nat) :
  (i < List.length data)%nat -> px data i = IEEE.Z2F (byte_Z data i).
Proof.
  intros H. unfold px, byte_Z.
  rewrite (nth_error_nth' data Byte.x00 H).
  cbn [ofnat IEEE.binary64]. unfold IEEE.ofnat. rewrite N_nat_Z. reflexivity.
Qed.

Lemma rgb_distance_range (data1 data2 : PixelData) (i : nat) :
  (0 <= rgb_distance data1 data2 i <= 765)%Z.
Proof.
  unfold rgb_distance.
  pose proof (byte_Z_range data1 i). pose proof (byte_Z_range data2 i).
  pose proof (byte_Z_range data1 (i + 1)). pose proof (byte_Z_range data2 (i + 1)).
  pose proof (byte_Z_range data1 (i + 2)). pose proof (byte_Z_range data2 (i + 2)).
  lia.
Qed.

(** A pixel of the heatmap depends on the two input pixels through their
    integer distance only. *)
Lemma heatmap_pixel_distance (data1 data2 : PixelData) (i : nat) :
  (i + 2 < List.length data1)%nat -> (i + 2 < List.length data2)%nat ->
  heatmap_pixel data1 data2 i = pixel_of_distance (rgb_distance data1 data2 i).
Proof.
  intros L1 L2. unfold heatmap_pixel, pixel_of_distance.
  rewrite !px_byte_Z by lia.
  cbn [Math_abs add sub IEEE.binary64].
  pose proof (byte_Z_range data1 i). pose proof (byte_Z_range data2 i).
  pose proof (byte_Z_range data1 (i + 1)). pose proof (byte_Z_range data2 (i + 1)).
  pose proof (byte_Z_range data1 (i + 2)). pose proof (byte_Z_range data2 (i + 2)).
  rewrite !abs_sub_Z2F by lia.
  rewrite add_Z2F by lia. rewrite add_Z2F by lia.
  reflexivity.
Qed.

Lemma pixel_of_distance_step (d : Z) :
  (0 <= d < 765)%Z -> at_least_as_warm (pixel_of_distance d) (pixel_of_distance (d + 1)).
Proof.
  intros H.
  assert (C : forallb step_monotone (Zrange 765) = true) by (vm_compute; reflexivity).
  rewrite forallb_forall in C. specialize (C d (Zrange_In 765 d H)).
  unfold step_monotone in C.
  apply andb_prop in C. destruct C as [C C4].
  apply andb_prop in C. destruct C as [C C3].
  apply andb_prop in C. destruct C as [C1 C2].
  unfold at_least_as_warm. repeat split; apply N.leb_le; assumption.
Qed.

Lemma pixel_of_distance_monotone (d d' : Z) :
  (0 <= d <= d')%Z -> (d' <= 765)%Z ->
  at_least_as_warm (pixel_of_distance d) (pixel_of_distance d').
Proof.
  intros [H0 H] H'.
  replace d' with (d + Z.of_nat (Z.to_nat (d' - d)))%Z by lia.
  assert (B : (d + Z.of_nat (Z.to_nat (d' - d)) <= 765)%Z) by lia.
  induction (Z.to_nat (d' - d)) as [|k IH].
  - rewrite Z.add_0_r. unfold at_least_as_warm. repeat split; apply N.le_refl.
  - assert (S1 : at_least_as_warm (pixel_of_distance (d + Z.of_nat k))
                      (pixel_of_distance (d + Z.of_nat k + 1)))
      by (apply pixel_of_distance_step; lia).
    replace (d + Z.of_nat (S k))%Z with (d + Z.of_nat k + 1)%Z by lia.
    specialize (IH ltac:(lia)). unfold at_least_as_warm in *.
    destruct IH as (I1 & I2 & I3 & I4), S1 as (J1 & J2 & J3 & J4).
    repeat split; eapply N.le_trans; eassumption.
Qed.

Lemma pixel_of_distance_zero (d : Z) :
  (0 <= d <= 765)%Z -> pixel_of_distance d = zero_colour <-> d = 0%Z.
Proof.
  intros H. split.
  - intros E. destruct (Z.eq_dec d 0) as [|N]; [assumption|]. exfalso.
    pose proof (pixel_of_distance_monotone 1 d ltac:(lia) ltac:(lia)) as (_ & _ & M & _).
    rewrite E in M.
    assert (B : blue_of_difference = true) by (vm_compute; reflexivity).
    unfold blue_of_difference in B. apply N.ltb_lt in B.
    change (channel 2 zero_colour) with 255%N in M. lia.
  - intros ->. vm_compute. reflexivity.
Qed.

Lemma store_middle (pre rest : list Byte.byte) (x v : Byte.byte) (i : nat) :
  i = List.length pre -> store (pre ++ x :: rest) i v = pre ++ v :: rest.
Proof.
  intros ->. unfold store. rewrite length_app. cbn [List.length].
  replace (Nat.ltb (List.length pre) (List.length pre + S (List.length rest))) with true
    by (symmetry; apply Nat.ltb_lt; lia).
  rewrite firstn_app, firstn_all, Nat.sub_diag. cbn [firstn]. rewrite app_nil_r.
  f_equal. f_equal.
  replace (S (List.length pre)) with (List.length (pre ++ [x])) by (rewrite length_app; simpl; lia).
  replace (pre ++ x :: rest) with ((pre ++ [x]) ++ rest) by (rewrite <- app_assoc; reflexivity).
  rewrite skipn_app, skipn_all, Nat.sub_diag. reflexivity.
Qed.

Lemma heatmap_pixel_four (data1 data2 : PixelData) (i : nat) :
  exists r g b a, heatmap_pixel data1 data2 i = [r; g; b; a].
Proof. unfold heatmap_pixel. do 4 eexists. reflexivity. Qed.

Lemma heatmap_loop_pixels (data1 data2 : PixelData) (n : nat) :
  List.length data1 = (4 * n)%nat ->
  forall (steps j : nat) (pre : list Byte.byte),
    List.length pre = (4 * j)%nat -> (j <= n)%nat -> (n - j <= steps)%nat ->
    heatmap_loop steps (4 * j) data1 data2 (pre ++ repeat Byte.x00 (4 * (n - j)))
    = pre ++ flat_map (heatmap_pixel data1 data2) (map (fun k => 4 * k)%nat (seq j (n - j))).
Proof.
  intros L. induction steps as [|steps IH]; intros j pre P J Hs.
  - replace (n - j)%nat with 0%nat by lia. reflexivity.
  - cbn [heatmap_loop]. rewrite L.
    destruct (Nat.ltb (4 * j) (4 * n)) eqn:B.
    + apply Nat.ltb_lt in B.
      destruct (heatmap_pixel_four data1 data2 (4 * j)) as (r & g & b & a & E).
      rewrite E.
      replace (n - j)%nat with (S (n - S j)) by lia.
      replace (4 * S (n - S j))%nat with (S (S (S (S (4 * (n - S j)))))) by lia.
      cbn [repeat seq map flat_map]. rewrite E.
      rewrite (store_middle pre) by lia.
      replace (pre ++ r :: Byte.x00 :: Byte.x00 :: Byte.x00 :: repeat Byte.x00 (4 * (n - S j)))
        with ((pre ++ [r]) ++ Byte.x00 :: Byte.x00 :: Byte.x00 :: repeat Byte.x00 (4 * (n - S j)))
        by (rewrite <- app_assoc; reflexivity).
      rewrite (store_middle (pre ++ [r])) by (rewrite length_app; simpl; lia).
      replace ((pre ++ [r]) ++ g :: Byte.x00 :: Byte.x00 :: repeat Byte.x00 (4 * (n - S j)))
        with ((pre ++ [r; g]) ++ Byte.x00 :: Byte.x00 :: repeat Byte.x00 (4 * (n - S j)))
        by (rewrite <- !app_assoc; reflexivity).
      rewrite (store_middle (pre ++ [r; g])) by (rewrite length_app; simpl; lia).
      replace ((pre ++ [r; g]) ++ b :: Byte.x00 :: repeat Byte.x00 (4 * (n - S j)))
        with ((pre ++ [r; g; b]) ++ Byte.x00 :: repeat Byte.x00 (4 * (n - S j)))
        by (rewrite <- !app_assoc; reflexivity).
      rewrite (store_middle (pre ++ [r; g; b])) by (rewrite length_app; simpl; lia).
      replace ((pre ++ [r; g; b]) ++ a :: repeat Byte.x00 (4 * (n - S j)))
        with ((pre ++ [r; g; b; a]) ++ repeat Byte.x00 (4 * (n - S j)))
        by (rewrite <- !app_assoc; reflexivity).
      replace (4 * j + 4)%nat with (4 * S j)%nat by lia.
      rewrite IH by (try rewrite length_app; simpl; lia).
      rewrite <- app_assoc. reflexivity.
    + apply Nat.ltb_ge in B. replace (n - j)%nat with 0%nat by lia.
      reflexivity.
Qed.

(** The heatmap is the image of the per-pixel map: pixel [k] of the output
    is made of pixel [k] of the two inputs alone. *)
Lemma difference_heatmap_pixels (data1 data2 : PixelData) :
  List.length data1 = (size * size * 4)%nat ->
  difference_heatmap data1 data2
  = flat_map (heatmap_pixel data1 data2) (map (fun k => 4 * k)%nat (seq 0 (size * size))).
Proof.
  unfold difference_heatmap. generalize (size * size)%nat. intros n L.
  pose proof (heatmap_loop_pixels data1 data2 n ltac:(lia)
                (List.length data1) 0 [] eq_refl ltac:(lia) ltac:(lia)) as H.
  rewrite Nat.sub_0_r in H. cbn [app] in H.
  replace (n * 4)%nat with (4 * n)%nat by lia.
  exact H.
Qed.

Lemma output_pixel_flat_map (f : nat -> list Byte.byte) (n j k : nat) :
  (forall i, List.length (f i) = 4%nat) -> (k < n)%nat ->
  output_pixel (flat_map f (map (fun i => 4 * i)%nat (seq j n))) k = f (4 * (j + k))%nat.
Proof.
  intros F. unfold output_pixel. revert j k.
  induction n as [|n IH]; intros j k K; [lia|].
  cbn [seq map flat_map]. destruct k as [|k].
  - replace (4 * 0)%nat with 0%nat by lia. cbn [skipn].
    rewrite firstn_app, (F (4 * j)%nat), Nat.sub_diag.
    rewrite firstn_O, app_nil_r.
    rewrite <- (F (4 * j)%nat) at 1. rewrite firstn_all.
    rewrite Nat.add_0_r. reflexivity.
  - replace (4 * S k)%nat with (List.length (f (4 * j)%nat) + 4 * k)%nat by (rewrite F; lia).
    rewrite skipn_app, Nat.add_comm, Nat.add_sub.
    rewrite skipn_all2 by lia. cbn [app].
    rewrite IH by lia. f_equal. lia.
Qed.

Lemma output_pixel_heatmap (data1 data2 : PixelData) (k : nat) :
  List.length data1 = (size * size * 4)%nat -> (k < size * size)%nat ->
  output_pixel (difference_heatmap data1 data2) k = heatmap_pixel data1 data2 (4 * k).
Proof.
  intros L K. rewrite difference_heatmap_pixels by exact L.
  rewrite output_pixel_flat_map; [reflexivity | reflexivity | exact K].
Qed.

(** Pixel [k] of the heatmap is a function of the RGB distance of pixel [k]
    of the two images. *)
Lemma output_pixel_distance (data1 data2 : PixelData) (k : nat) :
  List.length data1 = (size * size * 4)%nat ->
  List.length data2 = (size * size * 4)%nat -> (k < size * size)%nat ->
  output_pixel (difference_heatmap data1 data2) k
  = pixel_of_distance (rgb_distance data1 data2 (4 * k)).
Proof.
  intros L1 L2 K. rewrite output_pixel_heatmap by assumption.
  apply heatmap_pixel_distance; [rewrite L1 | rewrite L2];
    revert K; generalize (size * size)%nat; intros; lia.
Qed.

Lemma rgb_distance_sym (data1 data2 : PixelData) (i : nat) :
  rgb_distance data1 data2 i = rgb_distance data2 data1 i.
Proof. unfold rgb_distance. lia. Qed.

Lemma rgb_distance_zero (data1 data2 : PixelData) (i : nat) :
  rgb_distance data1 data2 i = 0%Z
  <-> byte_Z data1 i = byte_Z data2 i
      /\ byte_Z data1 (i + 1) = byte_Z data2 (i + 1)
      /\ byte_Z data1 (i + 2) = byte_Z data2 (i + 2).
Proof. unfold rgb_distance. lia. Qed.

Lemma flat_map_In_ext {A B : Type} (f g : A -> list B) (l : list A) :
  (forall a, In a l -> f a = g a) -> flat_map f l = flat_map g l.
Proof.
  induction l as [|a l IH]; intros H; [reflexivity|].
  cbn [flat_map]. rewrite (H a (or_introl eq_refl)), IH; [reflexivity|].
  intros b Hb. apply H. right. exact Hb.
Qed.

Lemma heatmap_pixels_distance (data1 data2 : PixelData) :
  List.length data1 = (size * size * 4)%nat ->
  List.length data2 = (size * size * 4)%nat ->
  difference_heatmap data1 data2
  = flat_map (fun i => pixel_of_distance (rgb_distance data1 data2 i))
      (map (fun k => 4 * k)%nat (seq 0 (size * size))).
Proof.
  intros L1 L2. rewrite difference_heatmap_pixels by exact L1.
  apply flat_map_In_ext. intros i Hi.
  apply in_map_iff in Hi. destruct Hi as (k & <- & Hk). apply in_seq in Hk.
  apply heatmap_pixel_distance; [rewrite L1 | rewrite L2];
    revert Hk; generalize (size * size)%nat; intros; lia.
Qed.

Lemma store_length (arr : list Byte.byte) (i : nat) (v : Byte.byte) :
  List.length (store arr i v) = List.length arr.
Proof.
  unfold store. destruct (Nat.ltb i (List.length arr)) eqn:B; [|reflexivity].
  apply Nat.ltb_lt in B.
  rewrite length_app, length_firstn. cbn [List.length]. rewrite length_skipn. lia.
Qed.

Lemma heatmap_loop_length (data1 data2 : PixelData) (steps : nat) :
  forall (i : nat) (diffData : list Byte.byte),
    List.length (heatmap_loop steps i data1 data2 diffData) = List.length diffData.
Proof.
  induction steps as [|steps IH]; intros i diffData; [reflexivity|].
  cbn [heatmap_loop]. destruct (Nat.ltb i (List.length data1)); [|reflexivity].
  destruct (heatmap_pixel_four data1 data2 i) as (r & g & b & a & E). rewrite E.
  rewrite IH, !store_length. reflexivity.
Qed.

(** *** The heatmap of two images *)

(** X5: the heatmap of an image against itself is uniform: every pixel has the
    colour of no difference, (0, 128, 255) at alpha 50. *)
Theorem heatmap_identical_images (data : PixelData) :
  List.length data = (size * size * 4)%nat ->
  difference_heatmap data data = List.concat (repeat zero_colour (size * size)).
Proof.
  intros L. rewrite heatmap_pixels_distance by exact L.
  generalize (size * size)%nat. intros n.
  assert (G : forall j, flat_map (fun i => pixel_of_distance (rgb_distance data data i))
                          (map (fun k => 4 * k)%nat (seq j n))
                        = List.concat (repeat zero_colour n)); [|apply G].
  induction n as [|n IH]; intros j; [reflexivity|].
  cbn [seq map flat_map repeat List.concat]. rewrite IH. f_equal.
  apply pixel_of_distance_zero.
  - apply rgb_distance_range.
  - apply rgb_distance_zero. repeat split.
Qed.

Lemma heatmap_identical_images_witness :
  difference_heatmap (repeat Byte.x7f (size * size * 4)) (repeat Byte.x7f (size * size * 4))
  = List.concat (repeat zero_colour (size * size)).
Proof. apply heatmap_identical_images. apply repeat_length. Defined.

(** X6: a pixel of the heatmap has the colour of no difference exactly when the
    two images agree on the red, green and blue bytes of that pixel; their
    alpha bytes play no part. *)
Theorem heatmap_zero_colour_iff_equal_rgb (data1 data2 : PixelData) (k : nat) :
  List.length data1 = (size * size * 4)%nat ->
  List.length data2 = (size * size * 4)%nat -> (k < size * size)%nat ->
  output_pixel (difference_heatmap data1 data2) k = zero_colour
  <-> nth (4 * k) data1 Byte.x00 = nth (4 * k) data2 Byte.x00
      /\ nth (4 * k + 1) data1 Byte.x00 = nth (4 * k + 1) data2 Byte.x00
      /\ nth (4 * k + 2) data1 Byte.x00 = nth (4 * k + 2) data2 Byte.x00.
Proof.
  intros L1 L2 K. rewrite output_pixel_distance by assumption.
  rewrite pixel_of_distance_zero by apply rgb_distance_range.
  rewrite rgb_distance_zero. unfold byte_Z.
  assert (I : forall a b : Byte.byte,
             Z.of_N (Byte.to_N a) = Z.of_N (Byte.to_N b) <-> a = b).
  { intros a b. split; [|intros ->; reflexivity].
    intros H. apply N2Z.inj in H.
    assert (Q : Some a = Some b)
      by (rewrite <- (Byte.of_to_N a), <- (Byte.of_to_N b), H; reflexivity).
    injection Q as ->. reflexivity. }
  rewrite !I. reflexivity.
Qed.

Lemma heatmap_zero_colour_witness :
  output_pixel (difference_heatmap (repeat Byte.x7f (size * size * 4))
                                   (repeat Byte.x80 (size * size * 4))) 7 = zero_colour
  <-> nth (4 * 7) (repeat Byte.x7f (size * size * 4)) Byte.x00
      = nth (4 * 7) (repeat Byte.x80 (size * size * 4)) Byte.x00
      /\ nth (4 * 7 + 1) (repeat Byte.x7f (size * size * 4)) Byte.x00
         = nth (4 * 7 + 1) (repeat Byte.x80 (size * size * 4)) Byte.x00
      /\ nth (4 * 7 + 2) (repeat Byte.x7f (size * size * 4)) Byte.x00
         = nth (4 * 7 + 2) (repeat Byte.x80 (size * size * 4)) Byte.x00.
Proof.
  apply heatmap_zero_colour_iff_equal_rgb;
    [apply repeat_length | apply repeat_length | apply Nat.ltb_lt; vm_compute; reflexivity].
Defined.

(** X7: the colour map is monotone: where the RGB distance of a pixel is larger
    the heatmap pixel is at least as red and as opaque, and at most as green
    and as blue. *)
Theorem heatmap_monotone (a1 a2 b1 b2 : PixelData) (k : nat) :
  List.length a1 = (size * size * 4)%nat -> List.length a2 = (size * size * 4)%nat ->
  List.length b1 = (size * size * 4)%nat -> List.length b2 = (size * size * 4)%nat ->
  (k < size * size)%nat ->
  (rgb_distance a1 a2 (4 * k) <= rgb_distance b1 b2 (4 * k))%Z ->
  at_least_as_warm (output_pixel (difference_heatmap a1 a2) k)
                   (output_pixel (difference_heatmap b1 b2) k).
Proof.
  intros A1 A2 B1 B2 K D. rewrite !output_pixel_distance by assumption.
  pose proof (rgb_distance_range a1 a2 (4 * k)).
  pose proof (rgb_distance_range b1 b2 (4 * k)).
  apply pixel_of_distance_monotone; lia.
Qed.

Lemma heatmap_monotone_witness :
  at_least_as_warm
    (output_pixel (difference_heatmap (repeat Byte.x7f (size * size * 4))
                                      (repeat Byte.x80 (size * size * 4))) 3)
    (output_pixel (difference_heatmap (repeat Byte.x00 (size * size * 4))
                                      (repeat Byte.xff (size * size * 4))) 3).
Proof.
  apply heatmap_monotone; try apply repeat_length.
  - apply Nat.ltb_lt. vm_compute. reflexivity.
  - apply Z.leb_le. vm_compute. reflexivity.
Defined.

(** X8: the heatmap does not depend on the order of the two images. *)
Theorem heatmap_symmetric (data1 data2 : PixelData) :
  List.length data1 = (size * size * 4)%nat ->
  List.length data2 = (size * size * 4)%nat ->
  difference_heatmap data1 data2 = difference_heatmap data2 data1.
Proof.
  intros L1 L2. rewrite !heatmap_pixels_distance by assumption.
  apply flat_map_In_ext. intros i _. rewrite rgb_distance_sym. reflexivity.
Qed.

Lemma heatmap_symmetric_witness :
  difference_heatmap (repeat Byte.x7f (size * size * 4)) (repeat Byte.x80 (size * size * 4))
  = difference_heatmap (repeat Byte.x80 (size * size * 4)) (repeat Byte.x7f (size * size * 4)).
Proof. apply heatmap_symmetric; apply repeat_length. Defined.

(** X9: whatever the two pixel arrays hold, and however long they are, the
    heatmap keeps the [size] x [size] RGBA layout it was created with: the
    stores of the loop never extend it. *)
Theorem heatmap_keeps_size (data1 data2 : PixelData) :
  List.length (difference_heatmap data1 data2) = (size * size * 4)%nat.
Proof.
  unfold difference_heatmap. rewrite heatmap_loop_length. apply repeat_length.
Qed.

(** X10: no pixel of the heatmap is fully transparent, and none is greener than
    the colour of no difference: alpha is at least 50, green at most 128. *)
Theorem heatmap_alpha_and_green_bounds (data1 data2 : PixelData) (k : nat) :
  List.length data1 = (size * size * 4)%nat ->
  List.length data2 = (size * size * 4)%nat -> (k < size * size)%nat ->
  (50 <= channel 3 (output_pixel (difference_heatmap data1 data2) k))%N
  /\ (channel 1 (output_pixel (difference_heatmap data1 data2) k) <= 128)%N.
Proof.
  intros L1 L2 K. rewrite output_pixel_distance by assumption.
  pose proof (rgb_distance_range data1 data2 (4 * k)) as R.
  pose proof (pixel_of_distance_monotone 0 _ (conj (Z.le_refl 0) (proj1 R)) (proj2 R))
    as (_ & G & _ & A).
  replace (pixel_of_distance 0) with zero_colour in G, A
    by (symmetry; apply pixel_of_distance_zero; lia).
  split; [exact A | exact G].
Qed.

Lemma heatmap_bounds_witness :
  (50 <= channel 3 (output_pixel (difference_heatmap (repeat Byte.x00 (size * size * 4))
                                                     (repeat Byte.xff (size * size * 4))) 5))%N
  /\ (channel 1 (output_pixel (difference_heatmap (repeat Byte.x00 (size * size * 4))
                                                  (repeat Byte.xff (size * size * 4))) 5)
      <= 128)%N.
Proof.
  apply heatmap_alpha_and_green_bounds;
    [apply repeat_length | apply repeat_length | apply Nat.ltb_lt; vm_compute; reflexivity].
Defined.

(** *** The promise of generateDifferenceHeatmap *)

Lemma settled_sticky (data1 data2 : PixelData) (events : list image_event)
    (st : heatmap_state) :
  hm_settled st <> Pending ->
  hm_settled (fold_left (hm_handle data1 data2) events st) = hm_settled st.
Proof.
  revert st. induction events as [|ev events IH]; intros st H; [reflexivity|].
  cbn [fold_left].
  assert (Q : hm_settled (hm_handle data1 data2 st ev) = hm_settled st).
  { destruct ev; unfold hm_handle, hm_processImages, settle; cbn [hm_loadedCount hm_settled];
      try destruct (Nat.eqb (S (hm_loadedCount st)) 2); cbn [hm_loadedCount hm_settled];
      destruct (hm_settled st) eqn:Q0; solve [reflexivity | congruence]. }
  rewrite IH; [exact Q | rewrite Q; exact H].
Qed.

Lemma heatmap_error_before_two_loads (data1 data2 : PixelData)
    (events : list image_event) (st : heatmap_state) :
  hm_settled st = Pending ->
  (hm_loadedCount st + List.length (filter is_load events) < 2)%nat ->
  existsb is_error events = true ->
  hm_settled (fold_left (hm_handle data1 data2) events st) = Rejected.
Proof.
  revert st. induction events as [|ev events IH]; intros st N C E; [discriminate|].
  cbn [fold_left].
  destruct ev; cbn [filter is_load existsb is_error orb List.length] in C, E;
    cbn [hm_handle]; unfold hm_processImages, settle; cbn [hm_loadedCount hm_settled];
    try (rewrite N; rewrite settled_sticky by (cbn [hm_settled]; discriminate); reflexivity);
    (destruct (Nat.eqb (S (hm_loadedCount st)) 2) eqn:Q;
     [apply Nat.eqb_eq in Q; lia|]);
    (apply IH; cbn [hm_loadedCount hm_settled]; [assumption | lia | assumption]).
Qed.

Lemma heatmap_loads_without_error (data1 data2 : PixelData) (events : list image_event)
    (st : heatmap_state) :
  hm_settled st = Pending -> (hm_loadedCount st < 2)%nat ->
  existsb is_error events = false ->
  hm_settled (fold_left (hm_handle data1 data2) events st)
  = if Nat.leb 2 (hm_loadedCount st + List.length (filter is_load events))
    then Fulfilled (difference_heatmap data1 data2) else Pending.
Proof.
  revert st. induction events as [|ev events IH]; intros st N C E.
  - cbn [fold_left filter List.length]. rewrite Nat.add_0_r.
    destruct (Nat.leb 2 (hm_loadedCount st)) eqn:Q; [apply Nat.leb_le in Q; lia | exact N].
  - cbn [fold_left].
    destruct ev; cbn [existsb is_error orb] in E; try discriminate;
      cbn [filter is_load List.length hm_handle]; unfold hm_processImages, settle;
      cbn [hm_loadedCount hm_settled];
      (destruct (Nat.eqb (S (hm_loadedCount st)) 2) eqn:Q;
       [ apply Nat.eqb_eq in Q; cbn [hm_loadedCount hm_settled]; rewrite N;
         rewrite settled_sticky by (cbn [hm_settled]; discriminate);
         cbn [hm_settled];
         destruct (Nat.leb 2 _) eqn:Q2; [reflexivity | apply Nat.leb_gt in Q2; lia]
       | apply Nat.eqb_neq in Q;
         rewrite IH by (cbn [hm_loadedCount hm_settled]; (assumption || lia));
         cbn [hm_loadedCount];
         replace (S (hm_loadedCount st) + List.length (filter is_load events))%nat
           with (hm_loadedCount st + S (List.length (filter is_load events)))%nat by lia;
         reflexivity ]).
Qed.

(** X11: every outcome of the heatmap promise, each image firing at most one
    event: unlike the SSIM promise it rejects when the canvas context is
    missing or an image fires [error]; it is fulfilled with the heatmap
    once both images have loaded, and it is pending until then. *)
Theorem heatmap_promise_outcomes (ctx : bool) (data1 data2 : PixelData)
    (events : list image_event) :
  one_event_per_image events ->
  generateDifferenceHeatmap ctx data1 data2 events
  = if negb ctx then Rejected
    else if existsb is_error events then Rejected
    else if Nat.eqb (List.length (filter is_load events)) 2
         then Fulfilled (difference_heatmap data1 data2)
         else Pending.
Proof.
  intros W. unfold generateDifferenceHeatmap.
  destruct (negb ctx); [reflexivity|].
  destruct (existsb is_error events) eqn:E.
  - apply heatmap_error_before_two_loads; [reflexivity | | assumption].
    simpl. apply loads_bound; assumption.
  - rewrite heatmap_loads_without_error
      by (cbn [hm_loadedCount hm_settled]; (reflexivity || lia || assumption)).
    cbn [hm_loadedCount]. rewrite Nat.add_0_l.
    pose proof (loads_at_most_two events W) as B.
    destruct (Nat.eqb (List.length (filter is_load events)) 2) eqn:Q.
    + apply Nat.eqb_eq in Q. rewrite Q. reflexivity.
    + apply Nat.eqb_neq in Q.
      destruct (Nat.leb 2 _) eqn:Q2; [apply Nat.leb_le in Q2; lia | reflexivity].
Qed.

Lemma heatmap_promise_witness :
  let data := repeat Byte.x7f (size * size * 4) in
  generateDifferenceHeatmap true data data [onload1; onload2]
  = Fulfilled (difference_heatmap data data)
  /\ generateDifferenceHeatmap true data data [onload1; onerror2] = Rejected
  /\ generateDifferenceHeatmap false data data [onload1; onload2] = Rejected.
Proof.
  cbv zeta. split; [|split].
  - apply (heatmap_promise_outcomes true _ _ [onload1; onload2]). split; cbn; lia.
  - apply (heatmap_promise_outcomes true _ _ [onload1; onerror2]). split; cbn; lia.
  - apply (heatmap_promise_outcomes false _ _ [onload1; onload2]). split; cbn; lia.
Defined.

End HeatmapFacts.

(** ** The grading engine on binary64 *)

Module GradingFacts.

Import FloatOrder.
Local Open Scope float_scope.
#[local] Existing Instance IEEE.binary64.

Lemma is_nan_true (x : float) : is_nan x = true <-> Prim2SF x = S754_nan.
Proof.
  split.
  - intros H. destruct (Prim2SF x) eqn:E; try reflexivity;
      (assert (N : is_nan x = false)
         by (apply IEEEFacts.is_nan_false; unfold number, not_nan; rewrite E; discriminate));
      congruence.
  - intros H. destruct (is_nan x) eqn:E; [reflexivity|].
    apply IEEEFacts.is_nan_false in E. contradiction.
Qed.

Lemma float_mul_nan_l (x y : float) : is_nan x = true -> is_nan (x * y) = true.
Proof.
  intros H. apply is_nan_true in H. apply is_nan_true.
  rewrite mul_spec, H. reflexivity.
Qed.

Lemma float_mul_nan_r (x y : float) : is_nan y = true -> is_nan (x * y) = true.
Proof.
  intros H. apply is_nan_true in H. apply is_nan_true.
  rewrite mul_spec, H. destruct (Prim2SF x); reflexivity.
Qed.

Lemma float_add_nan_l (x y : float) : is_nan x = true -> is_nan (x + y) = true.
Proof.
  intros H. apply is_nan_true in H. apply is_nan_true.
  rewrite add_spec, H. reflexivity.
Qed.

Lemma float_add_nan_r (x y : float) : is_nan y = true -> is_nan (x + y) = true.
Proof.
  intros H. apply is_nan_true in H. apply is_nan_true.
  rewrite add_spec, H. destruct (Prim2SF x); reflexivity.
Qed.

Lemma float_sub_nan_r (x y : float) : is_nan y = true -> is_nan (x - y) = true.
Proof.
  intros H. apply is_nan_true in H. apply is_nan_true.
  rewrite sub_spec, H. destruct (Prim2SF x); reflexivity.
Qed.

Lemma float_sub_nan_l (x y : float) : is_nan x = true -> is_nan (x - y) = true.
Proof.
  intros H. apply is_nan_true in H. apply is_nan_true.
  rewrite sub_spec, H. reflexivity.
Qed.

Lemma float_div_nan_l (x y : float) : is_nan x = true -> is_nan (x / y) = true.
Proof.
  intros H. apply is_nan_true in H. apply is_nan_true.
  rewrite div_spec, H. reflexivity.
Qed.

Lemma ltb_nan_l (x y : float) : is_nan x = true -> (x <? y) = false.
Proof.
  intros H. destruct (x <? y) eqn:E; [|reflexivity].
  apply IEEEFacts.ltb_true in E. destruct E as (N & _).
  apply IEEEFacts.is_nan_false in N. congruence.
Qed.

Lemma ltb_nan_r (x y : float) : is_nan y = true -> (x <? y) = false.
Proof.
  intros H. destruct (x <? y) eqn:E; [|reflexivity].
  apply IEEEFacts.ltb_true in E. destruct E as (_ & N & _).
  apply IEEEFacts.is_nan_false in N. congruence.
Qed.

Lemma leb_nan_r (x y : float) : is_nan y = true -> (x <=? y) = false.
Proof.
  intros H. destruct (x <=? y) eqn:E; [|reflexivity].
  apply IEEEFacts.leb_true in E. destruct E as (_ & N & _).
  apply IEEEFacts.is_nan_false in N. congruence.
Qed.

Lemma leb_trans (x y z : float) :
  (x <=? y) = true -> (y <=? z) = true -> (x <=? z) = true.
Proof.
  intros H1 H2. apply IEEEFacts.leb_true in H1, H2. apply IEEEFacts.leb_true.
  destruct H1 as (Nx & Ny & H1), H2 as (_ & Nz & H2).
  repeat split; try assumption.
  destruct H1 as [H1 | H1], H2 as [H2 | H2].
  - left. eapply IEEEFacts.lex_lt_trans; eassumption.
  - left. rewrite <- H2. assumption.
  - left. rewrite H1. assumption.
  - right. congruence.
Qed.

Local Open Scope js_scope.

(** *** NaN scores *)

(** X12: a NaN among the three scores is not stopped by the clamp: the reported
    percentage is NaN, the grade is F and the feedback opens with the
    sentence of the lowest band, under every configuration. *)
Theorem nan_score_grade_F
    (sims : Similarities) (st : DetectedStyle) (config : GradingConfig) :
  is_nan (cosineSimilarity sims) = true \/ is_nan (ssimScore sims) = true
    \/ is_nan (structuralSimilarity sims) = true ->
  is_nan (similarity (generateEnhancedGrade sims st config)) = true
  /\ grade (generateEnhancedGrade sims st config) = "F"%string
  /\ hd_error (feedback (generateEnhancedGrade sims st config))
     = Some "This appears quite different from the reference. Study the original more closely."%string.
Proof.
  intros H.
  assert (N : is_nan (adjustedPercentage sims st config) = true).
  { unfold adjustedPercentage, combinedScore. cbn [mul add IEEE.binary64].
    apply float_mul_nan_l, float_mul_nan_l.
    destruct H as [H | [H | H]].
    - apply float_add_nan_l, float_add_nan_l, float_mul_nan_l, H.
    - apply float_add_nan_l, float_add_nan_r, float_mul_nan_l, H.
    - apply float_add_nan_r, float_mul_nan_l, H. }
  destruct (IEEEFacts.nan_percentage_reported sims st config N) as [S G].
  split; [exact S|]. split; [exact G|].
  rewrite feedback_eq, feedback_head, (IEEEFacts.clampPercentage_nan _ N).
  reflexivity.
Qed.

Lemma nan_score_witness :
  let sims := @Build_Similarities IEEE.binary64 0.75%float 0.75%float nan in
  let st := @Build_DetectedStyle IEEE.binary64 realistic 0.75%float in
  is_nan (similarity (generateEnhancedGrade sims st defaultGradingConfig)) = true
  /\ grade (generateEnhancedGrade sims st defaultGradingConfig) = "F"%string
  /\ hd_error (feedback (generateEnhancedGrade sims st defaultGradingConfig))
     = Some "This appears quite different from the reference. Study the original more closely."%string.
Proof.
  cbv zeta.
  apply (nan_score_grade_F
           (@Build_Similarities IEEE.binary64 0.75%float 0.75%float nan)
           (@Build_DetectedStyle IEEE.binary64 realistic 0.75%float)
           defaultGradingConfig).
  right. right. reflexivity.
Defined.

(** *** Letter and opening sentence *)

Lemma leb_const (a b p : float) :
  (b <=? a)%float = true -> (a <=? p)%float = true -> (b <=? p)%float = true.
Proof. intros H1 H2. exact (leb_trans _ _ _ H1 H2). Qed.

(** X13: under the default configuration the letter and the opening sentence
    of the feedback agree: an A+ opens with "Outstanding work!", a B with
    "Great job!", a C with "Good effort!", and an F never opens with one of
    these three. *)
Theorem grade_matches_opening_sentence (sims : Similarities) (st : DetectedStyle) :
  let result := generateEnhancedGrade sims st defaultGradingConfig in
  exists s : string,
    hd_error (feedback result) = Some s /\ In s (sentences_of_grade (grade result)).
Proof.
  cbv zeta. rewrite feedback_eq, grade_eq.
  set (p := clampPercentage (adjustedPercentage sims st defaultGradingConfig)).
  exists (overall_sentence p). split; [apply feedback_head|].
  clearbody p. unfold determineGrade, overall_sentence.
  cbn [thresholds defaultGradingConfig th_Aplus th_A th_B th_C th_D leb IEEE.binary64].
  change (@lit IEEE.binary64 90%Q) with 90%float.
  change (@lit IEEE.binary64 85%Q) with 85%float.
  change (@lit IEEE.binary64 80%Q) with 80%float.
  change (@lit IEEE.binary64 70%Q) with 70%float.
  change (@lit IEEE.binary64 60%Q) with 60%float.
  change (@lit IEEE.binary64 55%Q) with 55%float.
  change (@lit IEEE.binary64 50%Q) with 50%float.
  change (@lit IEEE.binary64 40%Q) with 40%float.
  change (@lit IEEE.binary64 25%Q) with 25%float.
  pose proof (leb_const 90 85 p eq_refl) as I1.
  pose proof (leb_const 85 80 p eq_refl) as I2.
  pose proof (leb_const 80 70 p eq_refl) as I3.
  pose proof (leb_const 70 60 p eq_refl) as I4.
  pose proof (leb_const 60 55 p eq_refl) as I5.
  pose proof (leb_const 55 50 p eq_refl) as I6.
  pose proof (leb_const 50 40 p eq_refl) as I7.
  pose proof (leb_const 40 25 p eq_refl) as I8.
  repeat match goal with
  | |- context [PrimFloat.leb ?c p] => destruct (PrimFloat.leb c p) eqn:?; cbv iota
  end;
  repeat match goal with
  | I : true = true -> _ |- _ => specialize (I eq_refl)
  | H : PrimFloat.leb ?a p = true, I : PrimFloat.leb ?a p = true -> _ |- _ =>
      specialize (I H)
  end;
  try congruence; cbn; tauto.
Qed.

(** *** Witnesses of the promise properties *)

Lemma ssim_promise_witness :
  let data1 := [Byte.x0a; Byte.xc8; Byte.x1e; Byte.xff] in
  let data2 := [Byte.x0b; Byte.xc0; Byte.x20; Byte.xff] in
  calculateAccurateSSIM true true data1 data2 [onload2; onload1]
  = Fulfilled (ssim_sharpened data1 data2)
  /\ calculateAccurateSSIM true true data1 data2 [onload2] = Pending
  /\ calculateAccurateSSIM true true data1 data2 [onload2; onerror1] = Fulfilled $0.1.
Proof.
  cbv zeta. split; [|split].
  - apply (@ssim_promise_outcomes IEEE.binary64 true true _ _ [onload2; onload1]). split; cbn; lia.
  - apply (@ssim_promise_outcomes IEEE.binary64 true true _ _ [onload2]). split; cbn; lia.
  - apply (@ssim_promise_outcomes IEEE.binary64 true true _ _ [onload2; onerror1]). split; cbn; lia.
Defined.

Lemma enhanced_similarity_witness :
  let data1 := [Byte.x0a; Byte.xc8; Byte.x1e; Byte.xff] in
  let data2 := [Byte.x0b; Byte.xc0; Byte.x20; Byte.xff] in
  calculateEnhancedSimilarity (Fulfilled [1%float; 2%float]) (Fulfilled [2%float; 5%float])
    true true data1 data2 [onload1; onload2]
  = Fulfilled {| cosineSimilarity :=
                   calculateAccurateCosineSimilarity [1%float; 2%float] [2%float; 5%float];
                 ssimScore := ssim_sharpened data1 data2;
                 structuralSimilarity :=
                   calculateAccurateStructuralSimilarity [1%float; 2%float] [2%float; 5%float] |}.
Proof.
  cbv zeta.
  apply (@enhanced_similarity_fulfilled IEEE.binary64 [1%float; 2%float] [2%float; 5%float]);
    [split; cbn; lia | reflexivity | reflexivity].
Defined.

End GradingFacts.

(** ** The metrics and the style classifier on binary64 *)

Module MetricFacts.

Import FloatOrder FloatSign GradingFacts.
Local Open Scope float_scope.
#[local] Existing Instance IEEE.binary64.

(** *** Signs *)

Lemma binary_round_aux_unsigned (mx ex : Z) (lx : location) :
  unsigned (binary_round_aux 53 1024 false mx ex lx).
Proof.
  unfold binary_round_aux.
  destruct (shr_fexp 53 1024 mx ex lx) as [mrs e'].
  destruct (shr_fexp 53 1024 _ e' loc_Exact) as [mrs' e''].
  destruct (shr_m mrs'); [reflexivity | | exact I].
  destruct (Z.leb e'' (1024 - 53)); reflexivity.
Qed.

Lemma SFmul_unsigned (a b : spec_float) :
  unsigned a -> unsigned b -> unsigned (SF64mul a b).
Proof.
  destruct a as [s| s| |s m e], b as [t| t| |t n e']; cbn; intros Ha Hb;
    try exact I; subst; try reflexivity.
  apply binary_round_aux_unsigned.
Qed.

Lemma SFmul_square_unsigned (a : spec_float) : unsigned (SF64mul a a).
Proof.
  destruct a as [s| s| |s m e]; cbn; try (destruct s; reflexivity); try exact I.
  rewrite xorb_nilpotent. apply binary_round_aux_unsigned.
Qed.

Lemma SFsqrt_unsigned (a : spec_float) : unsigned a -> unsigned (SF64sqrt a).
Proof.
  destruct a as [s| s| |s m e]; cbn [unsigned]; intros H; try exact H; try exact I.
  - rewrite H. reflexivity.
  - rewrite H. unfold SF64sqrt, SFsqrt.
    destruct (SFsqrt_core_binary _ _ (Zpos m) e) as [[mz ez] lz].
    apply binary_round_aux_unsigned.
Qed.

Lemma unsigned_not_negative (x : float) :
  unsigned (Prim2SF x) -> (x <? 0) = false.
Proof.
  intros U. destruct (x <? 0) eqn:E; [|reflexivity]. exfalso.
  apply IEEEFacts.ltb_true in E. destruct E as (_ & _ & L).
  unfold fkey in L. change (Prim2SF 0) with (S754_zero false) in L.
  destruct (Prim2SF x) as [s| s| |s m e]; cbn in U, L; try rewrite U in L; cbn in L; lia.
Qed.

Lemma square_not_negative (x : float) : (x * x <? 0) = false.
Proof.
  apply unsigned_not_negative. rewrite mul_spec. apply SFmul_square_unsigned.
Qed.

Lemma lex_lt_irrefl (a : Z * Z * Z) : ~ lex_lt a a.
Proof. destruct a as [[a1 a2] a3]. unfold lex_lt. lia. Qed.

Lemma ltb_asym (x y : float) : (x <? y) = true -> (y <? x) = false.
Proof.
  intros H. destruct (y <? x) eqn:E; [|reflexivity]. exfalso.
  apply IEEEFacts.ltb_true in H, E.
  destruct H as (_ & _ & H), E as (_ & _ & E).
  exact (lex_lt_irrefl _ (IEEEFacts.lex_lt_trans _ _ _ H E)).
Qed.

(** [Math.max(0, c)] is +0, a positive number or NaN. *)
Lemma Math_max_0_unsigned (c : float) : unsigned (Prim2SF (IEEE.Math_max 0 c)).
Proof.
  unfold IEEE.Math_max.
  replace (is_nan 0) with false by reflexivity. cbn [orb].
  destruct (is_nan c) eqn:N; [exact I|].
  destruct (0 <? c) eqn:L1.
  - apply IEEEFacts.ltb_true in L1. destruct L1 as (_ & _ & L).
    unfold fkey in L. change (Prim2SF 0) with (S754_zero false) in L.
    destruct (Prim2SF c) as [s| s| |s m e]; cbn in *; try exact I;
      destruct s; cbn in L; try reflexivity; lia.
  - destruct (c <? 0); [reflexivity|].
    replace (get_sign 0) with false by reflexivity. reflexivity.
Qed.

Local Open Scope js_scope.

(** X14: on binary64 none of the four metrics is ever negative: the cosine and
    the statistical similarity are squares, the correlation is a
    [Math.max(0, _)], the sharpened SSIM is a power of a value clamped at 0.
    (Each of them can be NaN, and the comparison with NaN is false.) *)
Theorem metrics_never_negative (a b : list float) (data1 data2 : PixelData) :
  (calculateAccurateCosineSimilarity a b <? $0) = false
  /\ (calculateAccurateStructuralSimilarity a b <? $0) = false
  /\ (calculateCorrelation a b <? $0) = false
  /\ (ssim_sharpened data1 data2 <? $0) = false.
Proof.
  change (@lit IEEE.binary64 0%Q) with 0%float.
  repeat split.
  - unfold calculateAccurateCosineSimilarity.
    repeat match goal with
    | |- context [if ?c then _ else _] => destruct c
    end; try reflexivity.
    apply square_not_negative.
  - unfold calculateAccurateStructuralSimilarity.
    destruct (negb _); [reflexivity|]. apply square_not_negative.
  - unfold calculateCorrelation.
    destruct (correlation_loop _ _ _ _) as [[numerator sumXSquared] sumYSquared].
    destruct (_ === _); [reflexivity|].
    apply unsigned_not_negative, Math_max_0_unsigned.
  - unfold ssim_sharpened.
    cbn [Math_pow Math_max Math_min IEEE.binary64]. unfold IEEE.Math_pow.
    change (@lit IEEE.binary64 0%Q) with 0%float.
    set (x := IEEE.Math_max 0 _).
    destruct (PrimFloat.eqb x neg_infinity); [reflexivity|].
    apply unsigned_not_negative. cbn [mul IEEE.binary64]. rewrite mul_spec, sqrt_spec.
    apply SFmul_unsigned; [|apply SFsqrt_unsigned]; apply Math_max_0_unsigned.
Qed.

(** *** The style classifier *)



Lemma sum_nan (f : float -> float -> float) (g : float -> float) (l : list float) :
  (forall s v, f s v = PrimFloat.add s (g v)) ->
  forall init : float,
    is_nan init = true \/ (exists v, In v l /\ is_nan (g v) = true) ->
    is_nan (reduce f l init) = true.
Proof.
  intros F. unfold reduce. induction l as [|x l IH]; intros init H.
  - destruct H as [H | (v & [] & _)]. exact H.
  - cbn [fold_left]. apply IH. rewrite F.
    destruct H as [H | (v & [<- | I] & N)].
    + left. apply float_add_nan_l, H.
    + left. apply float_add_nan_r, N.
    + right. exists v. split; assumption.
Qed.

Lemma variance_nan (features : list float) :
  features = [] \/ (exists v, In v features /\ is_nan v = true) ->
  let mean := reduce (fun sum val => sum + val) features $0 / len features in
  is_nan (reduce (fun sum val => sum + (val - mean) ** Two) features $0 / len features) = true.
Proof.
  intros H mean.
  destruct H as [-> | (v & I & N)]; [reflexivity|].
  assert (M : is_nan mean = true).
  { apply float_div_nan_l.
    apply (sum_nan _ (fun v => v)); [reflexivity|]. right. exists v. split; assumption. }
  apply float_div_nan_l.
  apply (sum_nan _ (fun val : float => IEEE.Math_pow (PrimFloat.sub val mean) Two));
    [reflexivity|].
  right. exists v. split; [exact I|].
  unfold IEEE.Math_pow. apply float_mul_nan_l, float_sub_nan_r, M.
Qed.

(** X16: a feature vector that is empty or holds a NaN is classified as
    'abstract' with confidence 0.7: its variance is NaN, and each of the
    other styles asks for a comparison with the variance to hold. *)
Theorem nan_features_abstract (features : list float) :
  features = [] \/ (exists v, In v features /\ is_nan v = true) ->
  detectImageStyle features = {| style := abstract; confidence := $0.7 |}.
Proof.
  intros H. pose proof (variance_nan features H) as V. cbv zeta in V.
  unfold detectImageStyle. cbv zeta.
  change (@ltb IEEE.binary64) with PrimFloat.ltb.
  rewrite (ltb_nan_l _ _ V), !(ltb_nan_r _ _ V).
  rewrite !andb_false_r. reflexivity.
Qed.

Lemma nan_features_witness :
  detectImageStyle [0.5%float; nan; 0.25%float]
  = {| style := abstract; confidence := $0.7 |}.
Proof.
  apply nan_features_abstract. right. exists nan.
  split; [right; left; reflexivity | reflexivity].
Defined.

End MetricFacts.

Module SymmetryFacts.

Import FloatOrder.
Local Open Scope float_scope.
#[local] Existing Instance IEEE.binary64.

Lemma SFmul_comm (a b : spec_float) : SF64mul a b = SF64mul b a.
Proof.
  destruct a as [s| s| |s m e], b as [t| t| |t n e']; cbn;
    rewrite ?(xorb_comm s t); try reflexivity.
  rewrite (Pos.mul_comm m n), (Z.add_comm e e'). reflexivity.
Qed.

Lemma float_mul_comm (x y : float) : x * y = y * x.
Proof. apply Prim2SF_inj. rewrite !mul_spec. apply SFmul_comm. Qed.

Lemma binary_round_aux_abs (s : bool) (mx ex : Z) (lx : location) :
  SFabs (binary_round_aux 53 1024 s mx ex lx)
  = SFabs (binary_round_aux 53 1024 false mx ex lx).
Proof.
  unfold binary_round_aux.
  destruct (shr_fexp 53 1024 mx ex lx) as [mrs e'].
  destruct (shr_fexp 53 1024 _ e' loc_Exact) as [mrs' e''].
  destruct (shr_m mrs'); [reflexivity | | reflexivity].
  destruct (Z.leb e'' (1024 - 53)); reflexivity.
Qed.

Lemma binary_normalize_abs (m e : Z) :
  SFabs (binary_normalize 53 1024 (- m) e false) = SFabs (binary_normalize 53 1024 m e false).
Proof.
  destruct m as [|p|p]; cbn [Z.opp binary_normalize]; [reflexivity| |];
    unfold binary_round;
    destruct (shl_align p e _) as [mz ez];
    rewrite (binary_round_aux_abs true); reflexivity.
Qed.

Lemma SFsub_abs_sym (a b : spec_float) :
  SFabs (SF64sub a b) = SFabs (SF64sub b a).
Proof.
  destruct a as [s| s| |s m e], b as [t| t| |t n e']; cbn;
    try reflexivity; try (destruct s, t; reflexivity).
  rewrite (Z.min_comm e' e).
  rewrite <- binary_normalize_abs. f_equal. f_equal. lia.
Qed.

Lemma float_abs_sub_sym (x y : float) : abs (x - y) = abs (y - x).
Proof.
  apply Prim2SF_inj. rewrite !abs_spec, !sub_spec. apply SFsub_abs_sym.
Qed.

Local Open Scope js_scope.

(** X17: on binary64 the cosine similarity and the statistical similarity do
    not depend on the order of the two vectors, to the last bit: the
    products and the absolute differences they are made of commute, and the
    sums run in the same order. *)
Theorem feature_metrics_symmetric (a b : list float) :
  calculateAccurateCosineSimilarity a b = calculateAccurateCosineSimilarity b a
  /\ calculateAccurateStructuralSimilarity a b = calculateAccurateStructuralSimilarity b a.
Proof.
  split.
  - apply (@cosine_sym IEEE.binary64 float_mul_comm).
  - apply (@statistical_sym IEEE.binary64 float_mul_comm float_abs_sub_sym).
Qed.

End SymmetryFacts.

(** ** Rounding to nearest

    What [binary_round_aux], the rounding of every binary64 operation,
    does to the mantissa and the exponent it is given: the facts the
    structural similarity of an image with itself rests on. *)

Module RoundingFacts.

Import FloatOrder.
Import IEEEFacts.
Import FloatValue.
Local Open Scope Z_scope.

(** *** Scaled values *)

Lemma scaled_shift (m e a : Z) :
  0 <= a -> -2200 <= e -> scaled (m * 2 ^ a) e = scaled m (e + a).
Proof.
  intros A E. unfold scaled.
  replace (e + a + 2200) with (a + (e + 2200)) by lia.
  rewrite (Z.pow_add_r 2 a (e + 2200)) by lia. ring.
Qed.

Lemma scaled_le (m m' e : Z) : m <= m' -> scaled m e <= scaled m' e.
Proof.
  intros H. unfold scaled. apply Z.mul_le_mono_nonneg_r; [|exact H].
  apply Z.pow_nonneg. lia.
Qed.

Lemma scaled_le_inv (m m' e : Z) :
  -2200 <= e -> scaled m e <= scaled m' e -> m <= m'.
Proof.
  intros E H. unfold scaled in H.
  apply Z.mul_le_mono_pos_r in H; [exact H|]. apply Z.pow_pos_nonneg; lia.
Qed.

Lemma scaled_lt_inv (m m' e : Z) :
  -2200 <= e -> scaled m e < scaled m' e -> m < m'.
Proof.
  intros E H. unfold scaled in H.
  apply Z.mul_lt_mono_pos_r in H; [exact H|]. apply Z.pow_pos_nonneg; lia.
Qed.

Lemma scaled_exp_le (m e e' : Z) :
  0 <= m -> -2200 <= e <= e' -> scaled m e <= scaled m e'.
Proof.
  intros M E. unfold scaled. apply Z.mul_le_mono_nonneg_l; [exact M|].
  apply Z.pow_le_mono_r; lia.
Qed.

Lemma scaled_add (m m' e : Z) : scaled m e + scaled m' e = scaled (m + m') e.
Proof. unfold scaled. ring. Qed.

Lemma scaled_pow (a e : Z) :
  0 <= a -> -2200 <= e -> scaled (2 ^ a) e = scaled 1 (e + a).
Proof.
  intros A E. rewrite <- (Z.mul_1_l (2 ^ a)). apply scaled_shift; assumption.
Qed.

Lemma scaled_mul (a b e1 e2 : Z) :
  -2200 <= e1 + e2 -> -2200 <= e1 -> -2200 <= e2 ->
  scaled (a * b) (e1 + e2) * 2 ^ 2200 = scaled a e1 * scaled b e2.
Proof.
  intros E E1 E2. unfold scaled.
  replace (e1 + e2 + 2200) with ((e1 + 2200) + (e2 + 2200) - 2200) by lia.
  assert (H : 2 ^ (e1 + 2200 + (e2 + 2200) - 2200) * 2 ^ 2200
              = 2 ^ (e1 + 2200) * 2 ^ (e2 + 2200)).
  { rewrite <- !Z.pow_add_r by lia. f_equal. lia. }
  rewrite <- Z.mul_assoc, H. ring.
Qed.

(** *** Digits and the exponent of the format *)

Lemma Zdigits2_unique (M d : Z) :
  0 < M -> 2 ^ (d - 1) <= M < 2 ^ d -> Zdigits2 M = d.
Proof.
  intros P [L U]. destruct M as [|m|m]; try lia.
  pose proof (Zdigits2_bound m) as [L' U'].
  set (D := Zdigits2 (Zpos m)) in *.
  assert (D0 : 0 < D) by (unfold D; simpl; lia).
  destruct (Z.lt_trichotomy D d) as [H|[H|H]]; [|exact H|].
  - assert (2 ^ D <= 2 ^ (d - 1)) by (apply Z.pow_le_mono_r; lia). lia.
  - destruct (Z_lt_le_dec d 0) as [N|N].
    + rewrite (Z.pow_neg_r 2 d N) in U. lia.
    + assert (2 ^ d <= 2 ^ (D - 1)) by (apply Z.pow_le_mono_r; lia). lia.
Qed.

Lemma Zdigits2_shift (m : positive) (a : Z) :
  0 <= a -> Zdigits2 (Zpos m * 2 ^ a) = Zdigits2 (Zpos m) + a.
Proof.
  intros A. pose proof (Zdigits2_bound m) as [L U].
  assert (P : 0 < 2 ^ a) by (apply Z.pow_pos_nonneg; lia).
  apply Zdigits2_unique; [lia|].
  assert (D : 0 < Zdigits2 (Zpos m)) by (simpl; lia).
  replace (Zdigits2 (Zpos m) + a - 1) with ((Zdigits2 (Zpos m) - 1) + a) by lia.
  rewrite !Z.pow_add_r by lia. split.
  - apply Z.mul_le_mono_nonneg_r; lia.
  - apply Z.mul_lt_mono_pos_r; lia.
Qed.

Lemma Zdigits2_mono (a b : Z) : 0 < a <= b -> Zdigits2 a <= Zdigits2 b.
Proof.
  intros [A B]. destruct a as [|a|a], b as [|b|b]; try lia.
  pose proof (Zdigits2_bound a) as [La Ua]. pose proof (Zdigits2_bound b) as [Lb Ub].
  destruct (Z_le_gt_dec (Zdigits2 (Zpos a)) (Zdigits2 (Zpos b))) as [|G]; [assumption|].
  assert (2 ^ Zdigits2 (Zpos b) <= 2 ^ (Zdigits2 (Zpos a) - 1))
    by (apply Z.pow_le_mono_r; lia).
  lia.
Qed.

Lemma fexp64_mono (a b : Z) : a <= b -> fexp64 a <= fexp64 b.
Proof. unfold fexp64. lia. Qed.

(** A valid finite number: its exponent is the format's. *)
Lemma valid_canonical (s : bool) (m : positive) (e : Z) :
  valid_binary (S754_finite s m e) = true ->
  fexp64 (Zdigits2 (Zpos m) + e) = e /\ e <= 971.
Proof.
  simpl. unfold bounded, canonical_mantissa. intros H.
  apply andb_prop in H. destruct H as [H1 H2].
  apply Z.eqb_eq in H1. apply Z.leb_le in H2. split; [exact H1 | exact H2].
Qed.

Lemma valid_normal (s : bool) (m : positive) (e : Z) :
  valid_binary (S754_finite s m e) = true -> -1074 < e ->
  Zdigits2 (Zpos m) = 53 /\ 2 ^ 52 <= Zpos m < 2 ^ 53.
Proof.
  intros V E. destruct (valid_canonical _ _ _ V) as [C _].
  assert (D : Zdigits2 (Zpos m) = 53) by (unfold fexp64 in C; lia).
  split; [exact D|]. pose proof (Zdigits2_bound m) as B. rewrite D in B. exact B.
Qed.

(** *** Cutting the mantissa *)


Lemma shr_1_div (r : shr_record) : 0 <= shr_m r -> shr_m (shr_1 r) = shr_m r / 2.
Proof.
  destruct r as [m r s]. cbn [shr_m]. intros H.
  destruct m as [|p|p]; [reflexivity | | lia].
  destruct p as [p|p|]; cbn [shr_1 shr_m].
  - apply Z.div_unique with (r := 1); lia.
  - apply Z.div_unique with (r := 0); lia.
  - reflexivity.
Qed.

Lemma iter_shr_div (p : positive) :
  forall r : shr_record, 0 <= shr_m r ->
    shr_m (SpecFloat.iter_pos shr_1 p r) = shr_m r / 2 ^ Zpos p.
Proof.
  assert (N : forall (q : positive) (r : shr_record), 0 <= shr_m r ->
              shr_m (SpecFloat.iter_pos shr_1 q r) = shr_m r / 2 ^ Zpos q ->
              0 <= shr_m (SpecFloat.iter_pos shr_1 q r)).
  { intros q r H ->. apply Z.div_pos; [exact H|]. apply Z.pow_pos_nonneg; lia. }
  induction p as [p IH|p IH|]; intros r H; cbn [SpecFloat.iter_pos].
  - assert (H1 : 0 <= shr_m (shr_1 r)).
    { rewrite shr_1_div by exact H. apply Z.div_pos; lia. }
    pose proof (IH _ H1) as E1. pose proof (N _ _ H1 E1) as H2.
    rewrite (IH _ H2), E1, shr_1_div by exact H.
    rewrite !Z.div_div by (try apply Z.pow_pos_nonneg; lia).
    f_equal.
    replace (Zpos p~1) with (1 + (Zpos p + Zpos p)) by lia.
    rewrite !Z.pow_add_r by lia. reflexivity.
  - pose proof (IH _ H) as E1. pose proof (N _ _ H E1) as H2.
    rewrite (IH _ H2), E1.
    rewrite !Z.div_div by (try apply Z.pow_pos_nonneg; lia).
    f_equal. replace (Zpos p~0) with (Zpos p + Zpos p) by lia.
    rewrite Z.pow_add_r by lia. reflexivity.
  - apply shr_1_div. exact H.
Qed.

Lemma shr_1_exact (q : Z) : 0 <= q -> shr_1 (Ex (q * 2)) = Ex q.
Proof.
  intros H. rewrite Z.mul_comm. destruct q as [|q|q]; [reflexivity|reflexivity|lia].
Qed.

Lemma iter_shr_exact (p : positive) :
  forall q : Z, 0 <= q -> SpecFloat.iter_pos shr_1 p (Ex (q * 2 ^ Zpos p)) = Ex q.
Proof.
  induction p as [p IH|p IH|]; intros q H; cbn [SpecFloat.iter_pos].
  - replace (q * 2 ^ Zpos p~1) with (((q * 2 ^ Zpos p) * 2 ^ Zpos p) * 2).
    + assert (P : 0 < 2 ^ Zpos p) by (apply Z.pow_pos_nonneg; lia).
      rewrite shr_1_exact by nia. rewrite IH by nia. apply IH. exact H.
    + replace (Zpos p~1) with (Zpos p + Zpos p + 1) by lia.
      rewrite !Z.pow_add_r by lia. change (2 ^ 1) with 2. ring.
  - replace (q * 2 ^ Zpos p~0) with ((q * 2 ^ Zpos p) * 2 ^ Zpos p).
    + assert (P : 0 < 2 ^ Zpos p) by (apply Z.pow_pos_nonneg; lia).
      rewrite IH by nia. apply IH. exact H.
    + replace (Zpos p~0) with (Zpos p + Zpos p) by lia.
      rewrite !Z.pow_add_r by lia. ring.
  - change (2 ^ 1) with 2. apply shr_1_exact. exact H.
Qed.

Lemma round_nearest_even_near (m : Z) (l : location) :
  m <= round_nearest_even m l <= m + 1.
Proof.
  unfold round_nearest_even. destruct l as [|[]]; try destruct (IntDef.Z.even m); lia.
Qed.

Lemma loc_of_record_of_loc (m : Z) (l : location) :
  loc_of_shr_record (shr_record_of_loc m l) = l.
Proof. destruct l as [|[]]; reflexivity. Qed.

Lemma shr_m_record_of_loc (m : Z) (l : location) :
  shr_m (shr_record_of_loc m l) = m.
Proof. destruct l as [|[]]; reflexivity. Qed.

(** The second truncation of the rounding: it acts only on a mantissa
    that rounding up has taken to 2^53. *)
Lemma shr_fexp_second (m2 t : Z) :
  -1074 <= t -> 0 <= m2 <= 2 ^ 53 ->
  shr_fexp 53 1024 m2 t loc_Exact
  = if m2 <? 2 ^ 53 then (Ex m2, t) else (Ex (2 ^ 52), t + 1).
Proof.
  intros T [L U]. unfold shr_fexp. rewrite fexp64_eq.
  destruct (Z.ltb_spec m2 (2 ^ 53)) as [H|H].
  - assert (D : Zdigits2 m2 <= 53) by (apply Zdigits2_le; lia).
    unfold shr. cbn [shr_record_of_loc].
    destruct (fexp64 (Zdigits2 m2 + t) - t) as [| |] eqn:N;
      try reflexivity.
    unfold fexp64 in N. lia.
  - assert (E : m2 = 2 ^ 53) by lia. subst m2.
    change (Zdigits2 (2 ^ 53)) with 54.
    replace (fexp64 (54 + t) - t) with 1 by (unfold fexp64; lia).
    reflexivity.
Qed.



(** *** The rounding *)

Lemma binary_round_aux_second (s : bool) (m2 t : Z) :
  -1074 <= t -> 0 <= m2 <= 2 ^ 53 ->
  (let '(mrs'', e'') := shr_fexp 53 1024 m2 t loc_Exact in
   match shr_m mrs'' with
   | Z0 => S754_zero s
   | Zpos m => if Z.leb e'' (Z.sub 1024 53) then S754_finite s m e'' else S754_infinity s
   | _ => S754_nan
   end) = rounded s m2 t.
Proof.
  intros T B. rewrite shr_fexp_second by assumption. unfold rounded.
  destruct (Z.ltb_spec m2 (2 ^ 53)) as [H|H]; cbn [Ex shr_m].
  - destruct m2 as [|m|m]; [reflexivity| |lia].
    change (Zpos m =? 0) with false. cbv iota.
    change (1024 - 53) with 971. rewrite Pos2Z.id. reflexivity.
  - destruct (Z.eqb_spec m2 0) as [Z|_]; [lia|]. reflexivity.
Qed.

(** The rounding of a mantissa [M] at an exponent [e] not above the
    format's [t]: the mantissa is cut by [t - e] bits to [m2], the quotient
    or the next integer, and the quotient itself where the cut is exact. *)
Lemma binary_round_aux_spec (s : bool) (M : positive) (e : Z) (l : location) :
  e <= fexp64 (Zdigits2 (Zpos M) + e) ->
  exists m2 : Z,
    Zpos M / 2 ^ (fexp64 (Zdigits2 (Zpos M) + e) - e) <= m2
    /\ m2 <= Zpos M / 2 ^ (fexp64 (Zdigits2 (Zpos M) + e) - e) + 1
    /\ m2 <= 2 ^ 53
    /\ (l = loc_Exact ->
        forall q, Zpos M = q * 2 ^ (fexp64 (Zdigits2 (Zpos M) + e) - e) -> m2 = q)
    /\ binary_round_aux 53 1024 s (Zpos M) e l
       = rounded s m2 (fexp64 (Zdigits2 (Zpos M) + e)).
Proof.
  intros K. set (t := fexp64 (Zdigits2 (Zpos M) + e)) in *.
  assert (T : -1074 <= t) by (unfold t, fexp64; lia).
  pose proof (Zdigits2_bound M) as [DL DU].
  assert (P : 0 < 2 ^ (t - e)) by (apply Z.pow_pos_nonneg; lia).
  assert (Q : Zpos M / 2 ^ (t - e) < 2 ^ 53).
  { apply Z.div_lt_upper_bound; [exact P|].
    rewrite <- Z.pow_add_r by lia.
    eapply Z.lt_le_trans; [exact DU|]. apply Z.pow_le_mono_r; [lia|].
    unfold t, fexp64. lia. }
  assert (Q0 : 0 <= Zpos M / 2 ^ (t - e)) by (apply Z.div_pos; lia).
  unfold binary_round_aux, shr_fexp. rewrite fexp64_eq. fold t.
  unfold shr at 1.
  destruct (t - e) as [|p|p] eqn:N; [| |lia].
  - (* no cut *)
    rewrite shr_m_record_of_loc, loc_of_record_of_loc.
    change (2 ^ 0) with 1 in *. rewrite Z.div_1_r in *.
    exists (round_nearest_even (Zpos M) l).
    pose proof (round_nearest_even_near (Zpos M) l) as [R1 R2].
    assert (E : e = t) by lia.
    split; [exact R1|]. split; [exact R2|]. split; [lia|]. split.
    + intros -> q ->. simpl. lia.
    + rewrite E. apply binary_round_aux_second; [exact T | lia].
  - (* a cut of [p] bits *)
    set (r := SpecFloat.iter_pos shr_1 p (shr_record_of_loc (Zpos M) l)).
    assert (V : shr_m r = Zpos M / 2 ^ Zpos p).
    { unfold r. rewrite iter_shr_div; rewrite shr_m_record_of_loc; [reflexivity | lia]. }
    pose proof (round_nearest_even_near (shr_m r) (loc_of_shr_record r)) as [R1 R2].
    set (m2 := round_nearest_even (shr_m r) (loc_of_shr_record r)) in *.
    exists m2. rewrite V in R1, R2.
    split; [exact R1|]. split; [exact R2|]. split; [lia|]. split.
    + intros -> q HM.
      assert (q0 : 0 <= q) by nia.
      unfold m2, r. cbn [shr_record_of_loc]. fold (Ex (Zpos M)).
      rewrite HM, iter_shr_exact by exact q0. reflexivity.
    + replace (e + Zpos p) with t by lia.
      apply binary_round_aux_second; [exact T | lia].
Qed.

Lemma rounded_cases (s : bool) (m2 t : Z) :
  -1074 <= t -> 0 <= m2 <= 2 ^ 53 ->
  rounded s m2 t = S754_zero s /\ m2 = 0
  \/ rounded s m2 t = S754_infinity s /\ 0 < m2
     /\ (971 < t \/ (m2 = 2 ^ 53 /\ t = 971))
  \/ exists m'' e'', rounded s m2 t = S754_finite s m'' e''
       /\ t <= e'' <= t + 1 /\ e'' <= 971
       /\ scaled (Zpos m'') e'' = scaled m2 t.
Proof.
  intros T0 [L U]. unfold rounded.
  destruct (Z.eqb_spec m2 0) as [Z|NZ]; [left; auto|]. right.
  destruct (Z.ltb_spec m2 (2 ^ 53)) as [H|H].
  - destruct (Z.leb_spec t 971) as [T|T].
    + right. exists (Z.to_pos m2), t. rewrite Z2Pos.id by lia.
      repeat split; lia.
    + left. repeat split; lia.
  - assert (E : m2 = 2 ^ 53) by lia.
    destruct (Z.leb_spec (t + 1) 971) as [T|T].
    + right. exists (Z.to_pos (2 ^ 52)), (t + 1).
      split; [reflexivity|]. split; [lia|]. split; [lia|].
      subst m2. unfold scaled.
      change (Zpos (Z.to_pos (2 ^ 52))) with (2 ^ 52).
      change (2 ^ 53) with (2 ^ 52 * 2).
      replace (t + 1 + 2200) with (1 + (t + 2200)) by lia.
      rewrite Z.pow_add_r by lia. change (2 ^ 1) with 2. ring.
    + left. split; [reflexivity|]. split; lia.
Qed.



Lemma scaled_one_lt (a b : Z) : -2200 <= a < b -> scaled 1 a < scaled 1 b.
Proof.
  intros H. unfold scaled. rewrite !Z.mul_1_l. apply Z.pow_lt_mono_r; lia.
Qed.

Lemma scaled_lt (m m' e : Z) : -2200 <= e -> m < m' -> scaled m e < scaled m' e.
Proof.
  intros E H. unfold scaled. apply Z.mul_lt_mono_pos_r; [|exact H].
  apply Z.pow_pos_nonneg; lia.
Qed.

(** A value that a mantissa below 2^53 bounds is below 2^(eR + 53). *)
Lemma scaled_bound_lt (mR eR : Z) :
  mR < 2 ^ 53 -> -2200 <= eR -> scaled mR eR < scaled 1 (eR + 53).
Proof.
  intros M E. rewrite <- scaled_pow by lia. apply scaled_lt; assumption.
Qed.

(** The value of a mantissa is at least 2^(digits - 1). *)
Lemma scaled_digits_le (M : positive) (e : Z) :
  -2200 <= e -> scaled 1 (e + (Zdigits2 (Zpos M) - 1)) <= scaled (Zpos M) e.
Proof.
  intros E. pose proof (Zdigits2_bound M) as [L _].
  assert (D : 0 < Zdigits2 (Zpos M)) by (simpl; lia).
  rewrite <- scaled_pow by lia. apply scaled_le. exact L.
Qed.

(** In the normal range, the cut mantissa has 53 bits. *)
Lemma cut_normal (M : positive) (k : Z) :
  0 <= k -> k = Zdigits2 (Zpos M) - 53 -> 2 ^ 52 <= Zpos M / 2 ^ k.
Proof.
  intros K E. pose proof (Zdigits2_bound M) as [L _].
  apply Z.div_le_lower_bound; [apply Z.pow_pos_nonneg; lia|].
  rewrite <- Z.pow_add_r by lia.
  replace (k + 52) with (Zdigits2 (Zpos M) - 1) by lia. exact L.
Qed.

(** Rounding to nearest does not go above a number of the format that
    bounds the value, nor to an infinity; in the normal range it does not
    return a zero. *)
Lemma binary_round_aux_upper (s : bool) (M : positive) (e mR eR : Z) :
  -2200 <= e -> e <= fexp64 (Zdigits2 (Zpos M) + e) ->
  scaled (Zpos M) e <= scaled mR eR -> 0 < mR < 2 ^ 53 -> -1074 <= eR <= 971 ->
  (binary_round_aux 53 1024 s (Zpos M) e loc_Exact = S754_zero s
   /\ Zdigits2 (Zpos M) + e - 53 < -1074)
  \/ exists m'' e'',
       binary_round_aux 53 1024 s (Zpos M) e loc_Exact = S754_finite s m'' e''
       /\ fexp64 (Zdigits2 (Zpos M) + e) <= e''
       /\ scaled (Zpos m'') e'' <= scaled mR eR.
Proof.
  intros E K V [R0 R1] [ER0 ER1].
  destruct (binary_round_aux_spec s M e loc_Exact K) as (m2 & L2 & U2 & B2 & X2 & ->).
  set (t := fexp64 (Zdigits2 (Zpos M) + e)) in *.
  assert (T : -1074 <= t) by (unfold t, fexp64; lia).
  assert (P : 0 < 2 ^ (t - e)) by (apply Z.pow_pos_nonneg; lia).
  assert (Q0 : 0 <= Zpos M / 2 ^ (t - e)) by (apply Z.div_pos; lia).
  (* the rounded value stays below the bound *)
  assert (A : scaled m2 t <= scaled mR eR).
  { destruct (Z_le_gt_dec t eR) as [TR|TR].
    - replace eR with (t + (eR - t)) by lia.
      rewrite <- scaled_shift by lia. apply scaled_le.
      set (rr := mR * 2 ^ (eR - t)).
      assert (MR : Zpos M <= rr * 2 ^ (t - e)).
      { apply (scaled_le_inv _ _ e); [lia|].
        rewrite scaled_shift by lia. replace (e + (t - e)) with t by lia.
        unfold rr. rewrite scaled_shift by lia.
        replace (t + (eR - t)) with eR by lia. exact V. }
      pose proof (Z.div_mod (Zpos M) (2 ^ (t - e)) ltac:(lia)) as DM.
      pose proof (Z.mod_pos_bound (Zpos M) (2 ^ (t - e)) P) as MB.
      destruct (Z.eq_dec (Zpos M mod 2 ^ (t - e)) 0) as [Z|NZ].
      + rewrite (X2 eq_refl (Zpos M / 2 ^ (t - e))) by lia. nia.
      + assert (Zpos M / 2 ^ (t - e) < rr) by nia. lia.
    - exfalso.
      assert (TT : t = Zdigits2 (Zpos M) + e - 53) by (unfold t, fexp64 in *; lia).
      pose proof (scaled_digits_le M e E) as D1.
      pose proof (scaled_bound_lt mR eR R1 ltac:(lia)) as D2.
      assert (D3 : scaled 1 (eR + 53) <= scaled 1 (e + (Zdigits2 (Zpos M) - 1)))
        by (apply scaled_exp_le; lia).
      lia. }
  assert (N : t = Zdigits2 (Zpos M) + e - 53 -> 2 ^ 52 <= m2).
  { intros TT. pose proof (cut_normal M (t - e) ltac:(lia) ltac:(lia)). lia. }
  assert (Top : scaled mR eR < scaled 1 1024).
  { eapply Z.lt_le_trans; [apply scaled_bound_lt; lia|]. apply scaled_exp_le; lia. }
  destruct (rounded_cases s m2 t T ltac:(lia)) as [[Z Z2]|[(I & I0 & I1)|(m'' & e'' & F & F1 & F2 & F3)]].
  - left. split; [exact Z|].
    destruct (Z_lt_le_dec (Zdigits2 (Zpos M) + e - 53) (-1074)) as [|G]; [assumption|].
    assert (TT : t = Zdigits2 (Zpos M) + e - 53) by (unfold t, fexp64; lia).
    specialize (N TT). change (2 ^ 52) with 4503599627370496 in N. lia.
  - exfalso. destruct I1 as [I1|[I1 I2]].
    + assert (TT : t = Zdigits2 (Zpos M) + e - 53) by (unfold t, fexp64 in *; lia).
      specialize (N TT).
      assert (scaled 1 1024 <= scaled m2 t).
      { replace 1024 with (972 + 52) by lia. rewrite <- scaled_pow by lia.
        eapply Z.le_trans; [apply scaled_le; exact N|]. apply scaled_exp_le; lia. }
      lia.
    + subst m2 t. rewrite I2 in A. rewrite scaled_pow in A by lia.
      change (971 + 53) with 1024 in A. lia.
  - right. exists m'', e''. split; [exact F|]. split; [lia|]. rewrite F3. exact A.
Qed.

Lemma Pos_iter_xO (m d : positive) : Zpos (Pos.iter xO m d) = Zpos m * 2 ^ Zpos d.
Proof.
  rewrite (Pos.iter_swap_gen _ _ Zpos xO (Z.mul 2)) by reflexivity.
  change (Pos.iter (Z.mul 2) (Zpos m) d) with (Z.shiftl (Zpos m) (Zpos d)).
  apply Z.shiftl_mul_pow2. lia.
Qed.

(** The same of [binary_round], which first aligns the mantissa to the
    exponent of the format. *)
Lemma binary_round_upper (s : bool) (M : positive) (e mR eR : Z) :
  -2200 <= e ->
  scaled (Zpos M) e <= scaled mR eR -> 0 < mR < 2 ^ 53 -> -1074 <= eR <= 971 ->
  (binary_round 53 1024 s M e = S754_zero s
   /\ Zdigits2 (Zpos M) + e - 53 < -1074)
  \/ exists m'' e'',
       binary_round 53 1024 s M e = S754_finite s m'' e''
       /\ fexp64 (Zdigits2 (Zpos M) + e) <= e''
       /\ scaled (Zpos m'') e'' <= scaled mR eR.
Proof.
  intros E V R ER. unfold binary_round, shl_align.
  change (Zpos (digits2_pos M)) with (Zdigits2 (Zpos M)). rewrite fexp64_eq.
  set (t := fexp64 (Zdigits2 (Zpos M) + e)).
  assert (T : -1074 <= t) by (unfold t, fexp64; lia).
  destruct (t - e) as [|p|p] eqn:N.
  - apply binary_round_aux_upper; try assumption. fold t. lia.
  - apply binary_round_aux_upper; try assumption. fold t. lia.
  - assert (D : Zdigits2 (Zpos (Pos.iter xO M p)) + t = Zdigits2 (Zpos M) + e).
    { rewrite Pos_iter_xO, Zdigits2_shift by lia. lia. }
    assert (S : scaled (Zpos (Pos.iter xO M p)) t = scaled (Zpos M) e).
    { rewrite Pos_iter_xO, scaled_shift by lia. f_equal. lia. }
    assert (K : t <= fexp64 (Zdigits2 (Zpos (Pos.iter xO M p)) + t))
      by (rewrite D; fold t; lia).
    rewrite <- S in V.
    destruct (binary_round_aux_upper s (Pos.iter xO M p) t mR eR
                ltac:(lia) K V R ER) as [[Z U]|F].
    + left. split; [exact Z | lia].
    + right. rewrite D in F. exact F.
Qed.



(** *** The operations *)

Lemma shl_align_value (m : positive) (e ez : Z) :
  ez <= e -> -2200 <= ez ->
  scaled (Zpos (fst (shl_align m e ez))) ez = scaled (Zpos m) e
  /\ Zdigits2 (Zpos (fst (shl_align m e ez))) + ez = Zdigits2 (Zpos m) + e.
Proof.
  intros L E. unfold shl_align.
  destruct (ez - e) as [|p|p] eqn:N; cbn [fst]; try lia.
  - assert (ez = e) by lia. subst. split; reflexivity.
  - rewrite Pos_iter_xO. split.
    + rewrite scaled_shift by lia. f_equal. lia.
    + rewrite Zdigits2_shift by lia. lia.
Qed.

Lemma scaled_nonneg (m e : Z) : 0 <= m -> 0 <= scaled m e.
Proof. intros H. unfold scaled. apply Z.mul_nonneg_nonneg; [exact H|]. apply Z.pow_nonneg. lia. Qed.

Lemma scaled_pos (m : positive) (e : Z) : -2200 <= e -> 0 < scaled (Zpos m) e.
Proof. intros H. unfold scaled. apply Z.mul_pos_pos; [lia|]. apply Z.pow_pos_nonneg; lia. Qed.

Lemma valid_exponent (s : bool) (m : positive) (e : Z) :
  valid_binary (S754_finite s m e) = true -> -1074 <= e <= 971.
Proof. intros V. destruct (valid_canonical _ _ _ V) as [C L]. unfold fexp64 in C. lia. Qed.

(** Addition of numbers that are not negative. *)

Lemma SFadd_finite (mx my : positive) (ex ey E mR eR : Z) :
  valid_binary (S754_finite false mx ex) = true ->
  valid_binary (S754_finite false my ey) = true ->
  E <= ex -> E <= ey ->
  scaled (Zpos mx) ex + scaled (Zpos my) ey <= scaled mR eR ->
  0 < mR < 2 ^ 53 -> -1074 <= eR <= 971 ->
  (SF64add (S754_finite false mx ex) (S754_finite false my ey) = S754_zero false
   /\ Zdigits2 (Zpos my) + ey - 53 < -1074)
  \/ exists m e,
      SF64add (S754_finite false mx ex) (S754_finite false my ey) = S754_finite false m e
      /\ E <= e /\ scaled (Zpos m) e <= scaled mR eR.
Proof.
  intros Vx Vy Ex' Ey' B R ER.
  pose proof (valid_exponent _ _ _ Vx) as Xe. pose proof (valid_exponent _ _ _ Vy) as Ye.
  destruct (valid_canonical _ _ _ Vx) as [Cx _]. destruct (valid_canonical _ _ _ Vy) as [Cy _].
  unfold SF64add, SFadd. cbn [cond_Zopp].
  change IntDef.Z.min with Z.min.
  set (ez := Z.min ex ey).
  destruct (shl_align_value mx ex ez ltac:(lia) ltac:(lia)) as [Sx Dx].
  destruct (shl_align_value my ey ez ltac:(lia) ltac:(lia)) as [Sy Dy].
  set (a := fst (shl_align mx ex ez)) in *. set (b := fst (shl_align my ey ez)) in *.
  change (Zpos a + Zpos b) with (Zpos (a + b)). cbn [binary_normalize].
  assert (V : scaled (Zpos (a + b)) ez <= scaled mR eR).
  { rewrite Pos2Z.inj_add, <- scaled_add, Sx, Sy. exact B. }
  assert (Da : Zdigits2 (Zpos a) <= Zdigits2 (Zpos (a + b)))
    by (apply Zdigits2_mono; lia).
  assert (Db : Zdigits2 (Zpos b) <= Zdigits2 (Zpos (a + b)))
    by (apply Zdigits2_mono; lia).
  destruct (binary_round_upper false (a + b) ez mR eR ltac:(lia) V R ER)
    as [[Z U]|(m & e & F & F1 & F2)].
  - left. split; [exact Z | lia].
  - right. exists m, e. split; [exact F|]. split; [|exact F2].
    assert (fexp64 (Zdigits2 (Zpos mx) + ex) <= fexp64 (Zdigits2 (Zpos (a + b)) + ez))
      by (apply fexp64_mono; lia).
    lia.
Qed.

Lemma SFadd_nn (E m1 e1 m2 e2 mR eR : Z) (x y : spec_float) :
  valid_binary x = true -> valid_binary y = true ->
  nn E m1 e1 x -> nn E m2 e2 y -> 0 <= m1 -> 0 <= m2 ->
  scaled m1 e1 + scaled m2 e2 <= scaled mR eR ->
  0 < mR < 2 ^ 53 -> -1074 <= eR <= 971 ->
  nn E mR eR (SF64add x y).
Proof.
  intros Vx Vy X Y M1 M2 B R ER.
  pose proof (scaled_nonneg m1 e1 M1). pose proof (scaled_nonneg m2 e2 M2).
  destruct x as [[]|[]| |[] mx ex], y as [[]|[]| |[] my ey]; try contradiction;
    cbn [nn] in X, Y.
  - exact I.
  - unfold SF64add, SFadd, nn. split; lia.
  - unfold SF64add, SFadd, nn. split; lia.
  - destruct X as [X1 X2], Y as [Y1 Y2].
    destruct (SFadd_finite mx my ex ey E mR eR Vx Vy X1 Y1 ltac:(lia) R ER)
      as [[-> _]|(m & e & -> & F1 & F2)].
    + exact I.
    + unfold nn. split; assumption.
Qed.

Lemma SFadd_pp (E m1 e1 m2 e2 mR eR : Z) (x y : spec_float) :
  valid_binary x = true -> valid_binary y = true -> -1074 < E ->
  nn E m1 e1 x -> pp E m2 e2 y -> 0 <= m1 -> 0 <= m2 ->
  scaled m1 e1 + scaled m2 e2 <= scaled mR eR ->
  0 < mR < 2 ^ 53 -> -1074 <= eR <= 971 ->
  pp E mR eR (SF64add x y).
Proof.
  intros Vx Vy E0 X Y M1 M2 B R ER.
  pose proof (scaled_nonneg m1 e1 M1). pose proof (scaled_nonneg m2 e2 M2).
  destruct x as [[]|[]| |[] mx ex], y as [[]|[]| |[] my ey]; try contradiction;
    cbn [nn pp] in X, Y.
  - unfold SF64add, SFadd, pp. split; lia.
  - destruct X as [X1 X2], Y as [Y1 Y2].
    destruct (SFadd_finite mx my ex ey E mR eR Vx Vy X1 Y1 ltac:(lia) R ER)
      as [[_ U]|(m & e & -> & F1 & F2)].
    + exfalso. destruct (valid_normal _ _ _ Vy ltac:(lia)) as [D _]. lia.
    + unfold pp. split; assumption.
Qed.

(** Subtraction of numbers that are not negative: a number of either sign. *)

Lemma SFsub_nn (E mR eR : Z) (x y : spec_float) :
  valid_binary x = true -> valid_binary y = true -> -1074 <= E ->
  nn E mR eR x -> nn E mR eR y ->
  0 < mR < 2 ^ 53 -> -1074 <= eR <= 971 ->
  fb (E - 52) mR eR (SF64sub x y).
Proof.
  intros Vx Vy E0 X Y R ER.
  destruct x as [[]|[]| |[] mx ex], y as [[]|[]| |[] my ey]; try contradiction;
    cbn [nn] in X, Y.
  - exact I.
  - unfold SF64sub, SFsub, fb. cbn [negb]. split; lia.
  - unfold SF64sub, SFsub, fb. split; lia.
  - destruct X as [X1 X2], Y as [Y1 Y2].
    pose proof (valid_exponent _ _ _ Vx) as Xe. pose proof (valid_exponent _ _ _ Vy) as Ye.
    unfold SF64sub, SFsub. cbn [cond_Zopp].
    change IntDef.Z.min with Z.min.
    set (ez := Z.min ex ey).
    destruct (shl_align_value mx ex ez ltac:(lia) ltac:(lia)) as [Sx Dx].
    destruct (shl_align_value my ey ez ltac:(lia) ltac:(lia)) as [Sy Dy].
    set (a := fst (shl_align mx ex ez)) in *. set (b := fst (shl_align my ey ez)) in *.
    assert (Ba : scaled (Zpos a) ez <= scaled mR eR) by lia.
    assert (Bb : scaled (Zpos b) ez <= scaled mR eR) by lia.
    assert (G : forall (s : bool) (p : positive), (Zpos p <= Zpos a \/ Zpos p <= Zpos b) ->
                fb (E - 52) mR eR (binary_round 53 1024 s p ez)).
    { intros s p Hp.
      assert (V : scaled (Zpos p) ez <= scaled mR eR).
      { destruct Hp as [Hp|Hp];
          (eapply Z.le_trans; [apply scaled_le; exact Hp | assumption]). }
      destruct (binary_round_upper s p ez mR eR ltac:(lia) V R ER)
        as [[-> _]|(m & e & -> & F1 & F2)]; [exact I|].
      unfold fb. split; [|exact F2].
      assert (0 < Zdigits2 (Zpos p)) by (simpl; lia).
      unfold fexp64 in F1. lia. }
    destruct (Zpos a - Zpos b) as [|p|p] eqn:D; cbn [binary_normalize].
    + exact I.
    + apply G. lia.
    + apply G. lia.
Qed.

(** Multiplication of normal numbers. *)

Lemma SFmul_finite (sx sy : bool) (mx my : positive) (ex ey b1 b2 : Z) :
  valid_binary (S754_finite sx mx ex) = true ->
  valid_binary (S754_finite sy my ey) = true ->
  -1074 < ex -> -1074 < ey ->
  scaled (Zpos mx) ex <= scaled 1 b1 -> scaled (Zpos my) ey <= scaled 1 b2 ->
  -2200 <= b1 -> -2200 <= b2 -> -1074 <= b1 + b2 <= 971 ->
  (SF64mul (S754_finite sx mx ex) (S754_finite sy my ey) = S754_zero (xorb sx sy)
   /\ ex + ey < -1126)
  \/ exists m e,
      SF64mul (S754_finite sx mx ex) (S754_finite sy my ey) = S754_finite (xorb sx sy) m e
      /\ ex + ey + 52 <= e /\ -1074 <= e /\ scaled (Zpos m) e <= scaled 1 (b1 + b2).
Proof.
  intros Vx Vy Ex' Ey' Bx By B1 B2 B.
  pose proof (valid_exponent _ _ _ Vx) as Xe. pose proof (valid_exponent _ _ _ Vy) as Ye.
  destruct (valid_normal _ _ _ Vx Ex') as [Dx [Lx Ux]].
  destruct (valid_normal _ _ _ Vy Ey') as [Dy [Ly Uy]].
  unfold SF64mul, SFmul.
  assert (D : 105 <= Zdigits2 (Zpos (mx * my))).
  { destruct (Z_le_gt_dec 105 (Zdigits2 (Zpos (mx * my)))) as [|G]; [assumption|].
    pose proof (Zdigits2_bound (mx * my)) as [_ U].
    assert (H1 : 2 ^ Zdigits2 (Zpos (mx * my)) <= 2 ^ 104) by (apply Z.pow_le_mono_r; lia).
    assert (H2 : 2 ^ 52 * 2 ^ 52 <= Zpos mx * Zpos my) by (apply Z.mul_le_mono_nonneg; lia).
    assert (H3 : Zpos (mx * my) = Zpos mx * Zpos my) by apply Pos2Z.inj_mul.
    change (2 ^ 52 * 2 ^ 52) with (2 ^ 104) in H2. lia. }
  assert (V : scaled (Zpos (mx * my)) (ex + ey) <= scaled 1 (b1 + b2)).
  { assert (P : 0 < 2 ^ 2200) by (apply Z.pow_pos_nonneg; lia).
    apply (Z.mul_le_mono_pos_r _ _ (2 ^ 2200) P).
    rewrite Pos2Z.inj_mul, scaled_mul by lia.
    replace 1 with (1 * 1) at 1 by reflexivity. rewrite scaled_mul by lia.
    pose proof (scaled_pos mx ex ltac:(lia)). pose proof (scaled_pos my ey ltac:(lia)).
    apply Z.mul_le_mono_nonneg; lia. }
  destruct (binary_round_aux_upper (xorb sx sy) (mx * my) (ex + ey) 1 (b1 + b2))
    as [[Z U]|(m & e & F & F1 & F2)]; try assumption; try lia.
  - unfold fexp64. lia.
  - left. split; [exact Z | lia].
  - right. exists m, e. split; [exact F|]. unfold fexp64 in F1. split; [lia|]. split; [lia|exact F2].
Qed.

Lemma SFmul_square (E b : Z) (d : spec_float) :
  valid_binary d = true -> -1074 < E -> -2200 <= b -> -1074 <= b + b <= 971 ->
  fb E 1 b d -> nn (E + E + 52) 1 (b + b) (SF64mul d d).
Proof.
  intros V E0 B0 B D.
  destruct d as [s|s| |s m e]; try contradiction; cbn [fb] in D.
  - destruct s; exact I.
  - destruct D as [D1 D2].
    destruct (SFmul_finite s s m m e e b b V V ltac:(lia) ltac:(lia) D2 D2 B0 B0 B)
      as [[-> _]|(m' & e' & -> & F1 & F2 & F3)];
      rewrite xorb_nilpotent; unfold nn; [exact I | split; [lia | exact F3]].
Qed.

Lemma SFmul_pp (E1 E2 b1 b2 : Z) (x y : spec_float) :
  valid_binary x = true -> valid_binary y = true ->
  -1074 < E1 -> -1074 < E2 -> -1126 <= E1 + E2 ->
  -2200 <= b1 -> -2200 <= b2 -> -1074 <= b1 + b2 <= 971 ->
  pp E1 1 b1 x -> pp E2 1 b2 y -> pp (E1 + E2 + 52) 1 (b1 + b2) (SF64mul x y).
Proof.
  intros Vx Vy E1' E2' E12 B1 B2 B X Y.
  destruct x as [[]|[]| |[] mx ex], y as [[]|[]| |[] my ey]; try contradiction;
    cbn [pp] in X, Y.
  destruct X as [X1 X2], Y as [Y1 Y2].
  destruct (SFmul_finite false false mx my ex ey b1 b2 Vx Vy ltac:(lia) ltac:(lia)
              X2 Y2 B1 B2 B)
    as [[_ U]|(m' & e' & -> & F1 & F2 & F3)]; [lia|].
  unfold pp, xorb. split; [lia | exact F3].
Qed.



(** *** Operations that are exact *)

(** Rounding a mantissa that the cut divides exactly. *)
Lemma binary_round_aux_exact (s : bool) (M q : positive) (e k : Z) :
  0 <= k -> fexp64 (Zdigits2 (Zpos M) + e) = e + k -> Zpos M = Zpos q * 2 ^ k ->
  Zpos q < 2 ^ 53 -> e + k <= 971 ->
  binary_round_aux 53 1024 s (Zpos M) e loc_Exact = S754_finite s q (e + k).
Proof.
  intros K T HM Q U.
  destruct (binary_round_aux_spec s M e loc_Exact ltac:(lia)) as (m2 & _ & _ & _ & X & ->).
  rewrite T in *. replace (e + k - e) with k in X by lia.
  rewrite (X eq_refl (Zpos q) HM). unfold rounded.
  change (Zpos q =? 0) with false. cbv iota.
  destruct (Z.ltb_spec (Zpos q) (2 ^ 53)) as [_|]; [|lia].
  destruct (Z.leb_spec (e + k) 971) as [_|]; [|lia].
  rewrite Pos2Z.id. reflexivity.
Qed.

(** Twice a normal number, as the product by 2 and as the sum with itself:
    the same mantissa, the exponent one up. *)
Lemma SFmul_two (s : bool) (m : positive) (e : Z) :
  valid_binary (S754_finite s m e) = true -> -1074 < e < 971 ->
  SF64mul (S754_finite false 4503599627370496 (-51)) (S754_finite s m e)
  = S754_finite s m (e + 1).
Proof.
  intros V E. destruct (valid_normal _ _ _ V ltac:(lia)) as [D [L U]].
  unfold SF64mul, SFmul. cbn [xorb].
  assert (HM : Zpos (4503599627370496 * m) = Zpos m * 2 ^ 52)
    by (rewrite Pos2Z.inj_mul; change (2 ^ 52) with 4503599627370496; lia).
  replace (e + 1) with ((-51 + e) + 52) by lia.
  apply binary_round_aux_exact; try lia.
  rewrite HM, Zdigits2_shift, D by lia. unfold fexp64. lia.
Qed.

Lemma SFadd_same (m : positive) (e : Z) :
  valid_binary (S754_finite false m e) = true -> -1074 < e < 971 ->
  SF64add (S754_finite false m e) (S754_finite false m e) = S754_finite false m (e + 1).
Proof.
  intros V E. destruct (valid_normal _ _ _ V ltac:(lia)) as [D [L U]].
  unfold SF64add, SFadd. cbn [cond_Zopp].
  change IntDef.Z.min with Z.min. rewrite Z.min_id.
  unfold shl_align at 1 2. rewrite Z.sub_diag. cbn [fst].
  change (Zpos m + Zpos m) with (Zpos (m + m)). cbn [binary_normalize].
  assert (HM : Zpos (m + m) = Zpos m * 2 ^ 1) by (change (2 ^ 1) with 2; lia).
  assert (DM : Zdigits2 (Zpos (m + m)) = 54) by (rewrite HM, Zdigits2_shift, D; lia).
  unfold binary_round, shl_align.
  change (Zpos (digits2_pos (m + m))) with (Zdigits2 (Zpos (m + m))).
  rewrite fexp64_eq, DM.
  replace (fexp64 (54 + e) - e) with 1 by (unfold fexp64; lia).
  apply binary_round_aux_exact; try lia.
  rewrite DM. unfold fexp64. lia.
Qed.

Lemma div_eucl_exact (a b q : Z) : 0 < b -> a = q * b -> Z.div_eucl a b = (q, 0).
Proof.
  intros B ->.
  pose proof (Z.div_mul q b ltac:(lia)) as D. pose proof (Z.mod_mul q b ltac:(lia)) as M.
  unfold Z.div, Z.modulo in D, M.
  destruct (Z.div_eucl (q * b) b) as [q' r']. cbn in D, M. congruence.
Qed.

Lemma new_location_exact (n : Z) : new_location n 0 = loc_Exact.
Proof.
  unfold new_location, new_location_even, new_location_odd.
  destruct (IntDef.Z.even n); reflexivity.
Qed.

(** A normal number over 16384 (2^14, the number of pixels): the same
    mantissa, the exponent 14 down. *)
Lemma SFdiv_16384 (m : positive) (e : Z) :
  valid_binary (S754_finite false m e) = true -> -1059 <= e ->
  SF64div (S754_finite false m e) (S754_finite false 4503599627370496 (-38))
  = S754_finite false m (e - 14).
Proof.
  intros V E. destruct (valid_normal _ _ _ V ltac:(lia)) as [D [L U]].
  pose proof (valid_exponent _ _ _ V) as Ve.
  unfold SF64div, SFdiv.
  assert (C : SFdiv_core_binary 53 1024 (Zpos m) e (Zpos 4503599627370496) (-38)
              = (Zpos (m + m), e - 15, loc_Exact)).
  { unfold SFdiv_core_binary. rewrite D.
    change (Zdigits2 (Zpos 4503599627370496)) with 53.
    rewrite fexp64_eq.
    replace (IntDef.Z.min (fexp64 (53 + e - (53 + -38))) (e - -38)) with (e - 15)
      by (change IntDef.Z.min with Z.min; unfold fexp64; lia).
    replace (e - -38 - (e - 15)) with 53 by lia.
    rewrite (div_eucl_exact _ _ (Zpos (m + m))).
    - rewrite new_location_exact. reflexivity.
    - lia.
    - rewrite Z.shiftl_mul_pow2 by lia.
      change (2 ^ 53) with 9007199254740992. lia. }
  unfold FloatOps.prec, FloatOps.emax. rewrite C. cbn [xorb].
  assert (HM : Zpos (m + m) = Zpos m * 2 ^ 1) by (change (2 ^ 1) with 2; lia).
  assert (DM : Zdigits2 (Zpos (m + m)) = 54) by (rewrite HM, Zdigits2_shift, D; lia).
  replace (e - 14) with ((e - 15) + 1) by lia.
  apply binary_round_aux_exact; try lia.
  rewrite DM. unfold fexp64. lia.
Qed.

(** A finite number over itself is 1. *)
Lemma SFdiv_self (s : bool) (m : positive) (e : Z) :
  SF64div (S754_finite s m e) (S754_finite s m e) = S754_finite false 4503599627370496 (-52).
Proof.
  unfold SF64div, SFdiv.
  assert (C : SFdiv_core_binary 53 1024 (Zpos m) e (Zpos m) e
              = (9007199254740992, -53, loc_Exact)).
  { unfold SFdiv_core_binary.
    rewrite !Z.sub_diag. cbn [fexp IntDef.Z.min Z.sub Z.max].
    change (IntDef.Z.min (fexp 53 1024 0) 0) with (-53).
    change (0 - -53) with 53.
    rewrite (div_eucl_exact _ _ 9007199254740992).
    - rewrite new_location_exact. reflexivity.
    - lia.
    - rewrite Z.shiftl_mul_pow2 by lia.
      change (2 ^ 53) with 9007199254740992. lia. }
  unfold FloatOps.prec, FloatOps.emax. rewrite C, xorb_nilpotent. vm_compute. reflexivity.
Qed.

(** The rounding does not depend on where the binary point stands: one
    more in the exponent given is one more in the exponent returned. *)
Lemma binary_round_aux_shift (s : bool) (M m'' : positive) (e e'' : Z) (l : location) :
  -1020 <= e -> e'' < 971 ->
  binary_round_aux 53 1024 s (Zpos M) e l = S754_finite s m'' e'' ->
  binary_round_aux 53 1024 s (Zpos M) (e + 1) l = S754_finite s m'' (e'' + 1).
Proof.
  intros E U. unfold binary_round_aux, shr_fexp. change (fexp 53 1024) with fexp64.
  assert (D0 : 0 < Zdigits2 (Zpos M)) by (simpl; lia).
  replace (fexp64 (Zdigits2 (Zpos M) + (e + 1)) - (e + 1))
    with (fexp64 (Zdigits2 (Zpos M) + e) - e) by (unfold fexp64; lia).
  set (n := fexp64 (Zdigits2 (Zpos M) + e) - e).
  assert (S1 : shr (shr_record_of_loc (Zpos M) l) (e + 1) n
               = (fst (shr (shr_record_of_loc (Zpos M) l) e n),
                  snd (shr (shr_record_of_loc (Zpos M) l) e n) + 1)).
  { unfold shr. destruct n; cbn [fst snd]; f_equal; lia. }
  pose proof (shr_fexp_bound (Zpos M) e l ltac:(lia)) as [B1 E1].
  unfold shr_fexp in B1, E1. rewrite fexp64_eq in B1, E1. fold n in B1, E1.
  rewrite S1. destruct (shr (shr_record_of_loc (Zpos M) l) e n) as [mrs' e'].
  cbn [fst snd] in *.
  set (M' := round_nearest_even (shr_m mrs') (loc_of_shr_record mrs')).
  pose proof (round_nearest_even_near (shr_m mrs') (loc_of_shr_record mrs')) as [R1 R2].
  fold M' in R1, R2.
  assert (D1 : 0 <= Zdigits2 M') by (destruct M'; simpl; lia).
  assert (E2 : -1020 <= e') by (unfold fexp64 in E1; lia).
  replace (fexp64 (Zdigits2 M' + (e' + 1)) - (e' + 1))
    with (fexp64 (Zdigits2 M' + e') - e') by (unfold fexp64; lia).
  set (n' := fexp64 (Zdigits2 M' + e') - e').
  assert (S2 : shr (shr_record_of_loc M' loc_Exact) (e' + 1) n'
               = (fst (shr (shr_record_of_loc M' loc_Exact) e' n'),
                  snd (shr (shr_record_of_loc M' loc_Exact) e' n') + 1)).
  { unfold shr. destruct n'; cbn [fst snd]; f_equal; lia. }
  rewrite S2. destruct (shr (shr_record_of_loc M' loc_Exact) e' n') as [mrs'' e0].
  cbn [fst snd].
  destruct (shr_m mrs'') as [|p|p]; try discriminate.
  change (1024 - 53) with 971.
  destruct (Z.leb_spec e0 971) as [L|L]; [|discriminate].
  intros H. injection H as -> ->.
  destruct (Z.leb_spec (e'' + 1) 971) as [_|]; [reflexivity | lia].
Qed.

End RoundingFacts.

(** ** The structural similarity of an image with itself *)

Module SSIMFacts.

Import FloatOrder.
Import IEEEFacts.
Import FloatValue.
Import RoundingFacts.
Local Open Scope float_scope.
#[local] Existing Instance IEEE.binary64.
Local Open Scope js_scope.

(** *** Numbers that are not negative *)

Lemma nn_check_sound (E mR eR : Z) (f : spec_float) :
  nn_check E mR eR f = true -> nn E mR eR f.
Proof.
  destruct f as [[]|[]| |[] m e]; simpl; try discriminate; try (intros _; exact I).
  intros H. apply andb_prop in H. destruct H as [H1 H2].
  apply Z.leb_le in H1. apply Z.leb_le in H2. split; assumption.
Qed.

Lemma nn_weaken (E E' mR eR mR' eR' : Z) (f : spec_float) :
  (E' <= E)%Z -> (scaled mR eR <= scaled mR' eR')%Z -> nn E mR eR f -> nn E' mR' eR' f.
Proof.
  intros HE HB. destruct f as [[]|[]| |[] m e]; simpl; try contradiction; try (intros _; exact I).
  intros [H1 H2]. split; lia.
Qed.

Lemma pp_nn (E mR eR : Z) (f : spec_float) : pp E mR eR f -> nn E mR eR f.
Proof. destruct f as [[]|[]| |[] m e]; simpl; try contradiction. exact (fun H => H). Qed.

Lemma nn_fb (E mR eR : Z) (f : spec_float) : nn E mR eR f -> fb E mR eR f.
Proof. destruct f as [[]|[]| |[] m e]; simpl; try contradiction; auto. Qed.

Lemma scaled_one (a b : Z) : (-2200 <= a <= b)%Z -> (scaled 1 a <= scaled 1 b)%Z.
Proof. intros H. apply scaled_exp_le; lia. Qed.

(** The operations of the program on such numbers. *)

Lemma add_nn (E m1 e1 m2 e2 mR eR : Z) (x y : float) :
  nn E m1 e1 (Prim2SF x) -> nn E m2 e2 (Prim2SF y) -> (0 <= m1)%Z -> (0 <= m2)%Z ->
  (scaled m1 e1 + scaled m2 e2 <= scaled mR eR)%Z ->
  (0 < mR < 2 ^ 53)%Z -> (-1074 <= eR <= 971)%Z ->
  nn E mR eR (Prim2SF (x + y)).
Proof.
  intros X Y M1 M2 B R ER. cbn [add IEEE.binary64]. rewrite add_spec.
  eapply SFadd_nn; try eassumption; apply Prim2SF_valid.
Qed.

Lemma add_pp (E m1 e1 m2 e2 mR eR : Z) (x y : float) :
  (-1074 < E)%Z ->
  nn E m1 e1 (Prim2SF x) -> pp E m2 e2 (Prim2SF y) -> (0 <= m1)%Z -> (0 <= m2)%Z ->
  (scaled m1 e1 + scaled m2 e2 <= scaled mR eR)%Z ->
  (0 < mR < 2 ^ 53)%Z -> (-1074 <= eR <= 971)%Z ->
  pp E mR eR (Prim2SF (x + y)).
Proof.
  intros E0 X Y M1 M2 B R ER. cbn [add IEEE.binary64]. rewrite add_spec.
  eapply SFadd_pp; try eassumption; apply Prim2SF_valid.
Qed.

Lemma sub_nn (E mR eR : Z) (x y : float) :
  (-1074 <= E)%Z -> nn E mR eR (Prim2SF x) -> nn E mR eR (Prim2SF y) ->
  (0 < mR < 2 ^ 53)%Z -> (-1074 <= eR <= 971)%Z ->
  fb (E - 52) mR eR (Prim2SF (x - y)).
Proof.
  intros E0 X Y R ER. cbn [sub IEEE.binary64]. rewrite sub_spec.
  eapply SFsub_nn; try eassumption; apply Prim2SF_valid.
Qed.

Lemma square_nn (E b : Z) (d : float) :
  (-1074 < E)%Z -> (-2200 <= b)%Z -> (-1074 <= b + b <= 971)%Z ->
  fb E 1 b (Prim2SF d) -> nn (E + E + 52) 1 (b + b) (Prim2SF (d ** Two)).
Proof.
  intros E0 B0 B D. cbn [Math_pow IEEE.binary64 IEEE.Math_pow]. rewrite mul_spec.
  apply SFmul_square; try assumption. apply Prim2SF_valid.
Qed.

Lemma mul_pp (E1 E2 b1 b2 : Z) (x y : float) :
  (-1074 < E1)%Z -> (-1074 < E2)%Z -> (-1126 <= E1 + E2)%Z ->
  (-2200 <= b1)%Z -> (-2200 <= b2)%Z -> (-1074 <= b1 + b2 <= 971)%Z ->
  pp E1 1 b1 (Prim2SF x) -> pp E2 1 b2 (Prim2SF y) ->
  pp (E1 + E2 + 52) 1 (b1 + b2) (Prim2SF (x * y)).
Proof.
  intros. cbn [mul IEEE.binary64]. rewrite mul_spec.
  apply SFmul_pp; try assumption; apply Prim2SF_valid.
Qed.

(** The sum of a list, each term not negative and at most 2^g: at most the
    number of terms times 2^g. *)
Lemma sum_nn (F : float -> float) (E g : Z) (l : list float) :
  (-1074 <= g <= 971)%Z ->
  Forall (fun x => nn E 1 g (Prim2SF (F x))) l ->
  forall (acc : float) (k : Z),
    (0 <= k)%Z -> (k + Z.of_nat (List.length l) < 2 ^ 53)%Z ->
    nn E k g (Prim2SF acc) ->
    nn E (k + Z.of_nat (List.length l)) g
       (Prim2SF (fold_left (fun sum val => sum + F val) l acc)).
Proof.
  intros G H. induction H as [|x l Hx Hl IH]; intros acc k K0 K A.
  - cbn [fold_left List.length Z.of_nat]. rewrite Z.add_0_r. exact A.
  - cbn [fold_left]. cbn [List.length] in *.
    replace (k + Z.of_nat (S (List.length l)))%Z
      with ((k + 1) + Z.of_nat (List.length l))%Z in * by lia.
    apply IH; [lia | lia |].
    eapply add_nn; [exact A | exact Hx | lia | lia | | lia | lia].
    rewrite scaled_add. lia.
Qed.

(** Over 16384. *)
Lemma div_pixels_nn (E mR eR : Z) (x : float) :
  (-1059 <= E)%Z -> (-2000 <= eR)%Z -> (0 <= mR)%Z ->
  nn E mR eR (Prim2SF x) ->
  nn (E - 14) mR (eR - 14) (Prim2SF (x / IEEE.Z2F 16384)).
Proof.
  intros E0 R0 M0 X. cbn [div IEEE.binary64]. rewrite div_spec.
  replace (Prim2SF (IEEE.Z2F 16384)) with (S754_finite false 4503599627370496 (-38))
    by (vm_compute; reflexivity).
  pose proof (Prim2SF_valid x) as V.
  destruct (Prim2SF x) as [[]|[]| |[] m e]; try contradiction.
  - exact I.
  - destruct X as [X1 X2].
    pose proof (valid_exponent _ _ _ V) as Ve.
    change FloatAxioms.SF64div with SF64div.
    rewrite SFdiv_16384 by (assumption || lia).
    split; [lia|].
    assert (P : (0 < 2 ^ 14)%Z) by reflexivity.
    apply (Z.mul_le_mono_pos_r _ _ (2 ^ 14) P).
    replace (scaled (Zpos m) (e - 14) * 2 ^ 14)%Z with (scaled (Zpos m) e).
    + replace (scaled mR (eR - 14) * 2 ^ 14)%Z with (scaled mR eR); [exact X2|].
      unfold scaled. replace (eR + 2200)%Z with ((eR - 14 + 2200) + 14)%Z by lia.
      rewrite Z.pow_add_r by lia. ring.
    + unfold scaled. replace (e + 2200)%Z with ((e - 14 + 2200) + 14)%Z by lia.
      rewrite Z.pow_add_r by lia. ring.
Qed.

Lemma scaled_exponent_bound (m : positive) (e b : Z) :
  (-2200 <= e)%Z -> (scaled (Zpos m) e <= scaled 1 b)%Z -> (e <= b)%Z.
Proof.
  intros E H. destruct (Z_le_gt_dec e b) as [|G]; [assumption|]. exfalso.
  assert (L : (scaled 1 b < scaled 1 e)%Z).
  { unfold scaled. rewrite !Z.mul_1_l.
    destruct (Z_lt_le_dec (b + 2200) 0) as [N|N].
    - rewrite (Z.pow_neg_r 2 (b + 2200)) by lia. apply Z.pow_pos_nonneg; lia.
    - apply Z.pow_lt_mono_r; lia. }
  assert (L2 : (scaled 1 e <= scaled (Zpos m) e)%Z) by (apply scaled_le; lia).
  lia.
Qed.

Lemma float_zero (x : float) : Prim2SF x = S754_zero false -> x = 0%float.
Proof. intros H. apply Prim2SF_inj. rewrite H. reflexivity. Qed.

(** Twice a number, as the source writes it in the numerator ([2 * x]) and
    in the denominator ([x + x]). *)
Lemma twice (E b : Z) (x : float) :
  (-1074 < E)%Z -> (b < 971)%Z -> nn E 1 b (Prim2SF x) -> $2 * x = x + x.
Proof.
  intros E0 B X. pose proof (Prim2SF_valid x) as V.
  destruct (Prim2SF x) as [[]|[]| |[] m e] eqn:P; try contradiction.
  - rewrite (float_zero x P). vm_compute. reflexivity.
  - destruct X as [X1 X2].
    pose proof (valid_exponent _ _ _ V) as Ve.
    pose proof (scaled_exponent_bound m e b ltac:(lia) X2) as Eb.
    apply Prim2SF_inj. cbn [mul add lit IEEE.binary64]. rewrite mul_spec, add_spec, P.
    replace (Prim2SF (IEEE.lit 2)) with (S754_finite false 4503599627370496 (-51))
      by (vm_compute; reflexivity).
    change FloatAxioms.SF64mul with SF64mul. change FloatAxioms.SF64add with SF64add.
    rewrite SFmul_two, SFadd_same by (assumption || lia). reflexivity.
Qed.

(** Twice the square of the mean, as the numerator ([2 * m * m]) and the
    denominator ([m ** 2 + m ** 2]) compute it. *)
Lemma twice_square (E b : Z) (x : float) :
  (-510 <= E)%Z -> (-2200 <= b)%Z -> (b + b < 971)%Z -> (-1074 <= b + b)%Z ->
  nn E 1 b (Prim2SF x) -> $2 * x * x = x ** Two + x ** Two.
Proof.
  intros E0 B0 B B1 X. pose proof (Prim2SF_valid x) as V.
  destruct (Prim2SF x) as [[]|[]| |[] m e] eqn:P; try contradiction.
  - rewrite (float_zero x P). vm_compute. reflexivity.
  - destruct X as [X1 X2].
    pose proof (valid_exponent _ _ _ V) as Ve.
    pose proof (scaled_exponent_bound m e b ltac:(lia) X2) as Eb.
    destruct (SFmul_finite false false m m e e b b V V ltac:(lia) ltac:(lia) X2 X2 B0 B0
                ltac:(lia)) as [[_ U]|(m' & e' & F & F1 & F2 & F3)]; [lia|].
    pose proof (scaled_exponent_bound m' e' (b + b) ltac:(lia) F3) as Eb'.
    assert (V' : valid_binary (S754_finite false m' e') = true).
    { cbn [xorb] in F. rewrite <- F. change (SF64mul (S754_finite false m e) (S754_finite false m e))
        with (FloatAxioms.SF64mul (S754_finite false m e) (S754_finite false m e)).
      rewrite <- P, <- mul_spec. apply Prim2SF_valid. }
    apply Prim2SF_inj.
    cbn [mul add lit Math_pow IEEE.binary64 IEEE.Math_pow].
    rewrite add_spec, !mul_spec, P.
    replace (Prim2SF (IEEE.lit 2)) with (S754_finite false 4503599627370496 (-51))
      by (vm_compute; reflexivity).
    change FloatAxioms.SF64mul with SF64mul. change FloatAxioms.SF64add with SF64add.
    rewrite SFmul_two by (assumption || lia).
    rewrite F. cbn [xorb]. rewrite SFadd_same by (assumption || lia).
    unfold SF64mul, SFmul in F |- *. cbn [xorb] in F |- *.
    replace (e + 1 + e)%Z with (e + e + 1)%Z by lia.
    apply binary_round_aux_shift; [lia | lia | exact F].
Qed.

(** A finite positive number is above 0, and over itself it is 1. *)
Lemma pp_positive (E mR eR : Z) (x : float) : pp E mR eR (Prim2SF x) -> ($0 <? x) = true.
Proof.
  intros X. cbn [ltb lit IEEE.binary64]. rewrite FloatAxioms.ltb_spec.
  replace (Prim2SF (IEEE.lit 0)) with (S754_zero false) by (vm_compute; reflexivity).
  destruct (Prim2SF x) as [[]|[]| |[] m e]; try contradiction. reflexivity.
Qed.

Lemma pp_div_self (E mR eR : Z) (x : float) : pp E mR eR (Prim2SF x) -> x / x = 1%float.
Proof.
  intros X. apply Prim2SF_inj. cbn [div IEEE.binary64]. rewrite div_spec.
  destruct (Prim2SF x) as [[]|[]| |[] m e]; try contradiction.
  change FloatAxioms.SF64div with SF64div. rewrite SFdiv_self. reflexivity.
Qed.


(** *** The grayscale arrays *)

(** A luma weight times a byte: +0 or at least 2^-4 and below 2^8. *)
Lemma luma_term (b : Byte.byte) :
  nn (-56) 1 8 (Prim2SF ($0.299 * ofnat (N.to_nat (Byte.to_N b))))
  /\ nn (-56) 1 8 (Prim2SF ($0.587 * ofnat (N.to_nat (Byte.to_N b))))
  /\ nn (-56) 1 8 (Prim2SF ($0.114 * ofnat (N.to_nat (Byte.to_N b)))).
Proof.
  destruct b; (split; [|split]); apply nn_check_sound; vm_compute; reflexivity.
Qed.

Lemma px_byte (data : PixelData) (i : nat) :
  (i < List.length data)%nat ->
  exists b, px data i = ofnat (N.to_nat (Byte.to_N b)).
Proof.
  intros H. unfold px. destruct (nth_error data i) as [b|] eqn:N.
  - exists b. reflexivity.
  - apply nth_error_None in N. lia.
Qed.

Lemma gray_nn (data : PixelData) (i : nat) :
  (i + 2 < List.length data)%nat ->
  nn (-56) 1 10
     (Prim2SF ($0.299 * px data i + $0.587 * px data (i + 1) + $0.114 * px data (i + 2))).
Proof.
  intros H.
  destruct (px_byte data i ltac:(lia)) as [b0 ->].
  destruct (px_byte data (i + 1) ltac:(lia)) as [b1 ->].
  destruct (px_byte data (i + 2) ltac:(lia)) as [b2 ->].
  destruct (luma_term b0) as [T0 _]. destruct (luma_term b1) as [_ [T1 _]].
  destruct (luma_term b2) as [_ [_ T2]].
  apply (add_nn (-56) 1 9 1 8 1 10); [|exact T2|lia|lia| |lia|lia].
  - apply (add_nn (-56) 1 8 1 8 1 9); [exact T0|exact T1|lia|lia| |lia|lia].
    vm_compute. discriminate.
  - vm_compute. discriminate.
Qed.

(** An image compared with itself: the two grayscale arrays are one array
    of [n] numbers, a quarter of the bytes, each not negative and at most
    2^10. *)
Lemma grayscale_loop_same (data : PixelData) (n : nat) :
  List.length data = (4 * n)%nat ->
  forall (steps j : nat) (acc : list float),
    Forall (fun x => nn (-56) 1 10 (Prim2SF x)) acc ->
    List.length acc = j -> (j <= n)%nat -> (n - j <= steps)%nat ->
    exists l,
      grayscale_loop steps (4 * j) data data acc acc = (l, l)
      /\ Forall (fun x => nn (-56) 1 10 (Prim2SF x)) l
      /\ List.length l = n.
Proof.
  intros L. induction steps as [|steps IH]; intros j acc A La Jn Fuel.
  - exists acc. split; [reflexivity|]. split; [exact A | change (@num IEEE.binary64) with float; lia].
  - cbn [grayscale_loop]. destruct (Nat.ltb_spec (4 * j) (List.length data)) as [Lt|Ge].
    + replace (4 * j + 4)%nat with (4 * S j)%nat by lia.
      apply IH.
      * apply Forall_app. split; [exact A|].
        constructor; [|constructor]. apply gray_nn. lia.
      * change (@num IEEE.binary64) with float. rewrite length_app. cbn [List.length]. lia.
      * lia.
      * lia.
    + exists acc. split; [reflexivity|]. split; [exact A | change (@num IEEE.binary64) with float; lia].
Qed.

(** *** The single-window SSIM of an array with itself *)

(** The covariance of an array with itself is computed as its variance. *)
Lemma covariance_same (m : float) (l : list float) :
  forall (pre : list float) (acc : float),
    reduce_from (fun sum val i => sum + (val - m) * (get (pre ++ l) i - m))
                (List.length pre) l acc
    = fold_left (fun sum val => sum + (val - m) ** Two) l acc.
Proof.
  induction l as [|x l IH]; intros pre acc; [reflexivity|].
  cbn [reduce_from fold_left].
  replace (@get IEEE.binary64 (pre ++ x :: l) (List.length pre)) with x
    by (unfold get; rewrite nth_middle; reflexivity).
  replace (pre ++ x :: l) with ((pre ++ [x]) ++ l) by (rewrite <- app_assoc; reflexivity).
  replace (S (List.length pre)) with (List.length (pre ++ [x]))
    by (rewrite length_app; cbn [List.length]; lia).
  rewrite IH. reflexivity.
Qed.

Lemma ssim_of_gray_same (g : list float) :
  Forall (fun x => nn (-56) 1 10 (Prim2SF x)) g ->
  List.length g = (size * size)%nat ->
  ssim_of_gray g g = 1%float.
Proof.
  intros G L. unfold ssim_of_gray.
  unfold reducei. rewrite (covariance_same _ g [] _).
  unfold len. change (@num IEEE.binary64) with float. rewrite L.
  replace (@ofnat IEEE.binary64 (size * size)) with (IEEE.Z2F 16384)
    by (vm_compute; reflexivity).
  unfold reduce.
  assert (Z0 : forall E k b, nn E k b (Prim2SF (@lit IEEE.binary64 0))).
  { intros. replace (Prim2SF (@lit IEEE.binary64 0)) with (S754_zero false)
      by (vm_compute; reflexivity).
    exact I. }
  assert (Len : Z.of_nat (List.length g) = 16384%Z) by (rewrite L; vm_compute; reflexivity).
  (* the mean *)
  set (S := fold_left _ g _).
  assert (HS : nn (-56) 1 24 (Prim2SF S)).
  { pose proof (sum_nn (fun v => v) (-56) 10 g ltac:(lia) G (@lit IEEE.binary64 0) 0 ltac:(lia)
                  ltac:(rewrite Len; reflexivity) (Z0 _ _ _)) as H.
    rewrite Len in H. cbv beta in H. fold S in H.
    eapply nn_weaken; [| |exact H]; [lia | vm_compute; discriminate]. }
  set (m := @div IEEE.binary64 S _).
  assert (Hm : nn (-70) 1 10 (Prim2SF m)).
  { apply (div_pixels_nn (-56) 1 24); [lia | lia | lia | exact HS]. }
  (* the variance *)
  assert (Q : Forall (fun x => nn (-192) 1 20
                               (Prim2SF (@Math_pow IEEE.binary64 (@sub IEEE.binary64 x m) Two))) g).
  { eapply Forall_impl; [|exact G]. cbv beta. intros x X.
    apply (square_nn (-122) 10); [lia | lia | lia |].
    apply (sub_nn (-70) 1 10); [lia | | exact Hm | lia | lia].
    eapply nn_weaken; [| |exact X]; lia. }
  set (V := fold_left _ g _).
  assert (HV : nn (-192) 1 34 (Prim2SF V)).
  { pose proof (sum_nn (fun x => @Math_pow IEEE.binary64 (@sub IEEE.binary64 x m) Two)
                  (-192) 20 g ltac:(lia) Q
                  (@lit IEEE.binary64 0) 0 ltac:(lia)
                  ltac:(rewrite Len; reflexivity) (Z0 _ _ _)) as H.
    rewrite Len in H. fold V in H.
    eapply nn_weaken; [| |exact H]; [lia | vm_compute; discriminate]. }
  set (v := @div IEEE.binary64 V _).
  assert (Hv : nn (-206) 1 20 (Prim2SF v)).
  { apply (div_pixels_nn (-192) 1 34); [lia | lia | lia | exact HV]. }
  (* numerator and denominator are the same number *)
  rewrite (twice_square (-70) 10 m) by (lia || exact Hm).
  rewrite (twice (-206) 20 v) by (lia || exact Hv).
  set (c1 := (@lit IEEE.binary64 0.01 * _) ** Two).
  set (c2 := (@lit IEEE.binary64 0.03 * _) ** Two).
  assert (C1 : pp (-88) 1 3 (Prim2SF c1)) by (vm_compute; split; discriminate).
  assert (C2 : pp (-206) 1 6 (Prim2SF c2)) by (vm_compute; split; discriminate).
  assert (Hmm : nn (-88) 1 20 (Prim2SF (@Math_pow IEEE.binary64 m Two))).
  { apply (square_nn (-70) 10); [lia | lia | lia |]. apply nn_fb. exact Hm. }
  assert (P1 : pp (-88) 1 22
                  (Prim2SF (@add IEEE.binary64
                              (@add IEEE.binary64 (@Math_pow IEEE.binary64 m Two)
                                                  (@Math_pow IEEE.binary64 m Two)) c1))).
  { apply (add_pp (-88) 1 21 1 3 1 22); [lia | | exact C1 | lia | lia | | lia | lia].
    - apply (add_nn (-88) 1 20 1 20 1 21); [exact Hmm | exact Hmm | lia | lia | | lia | lia].
      vm_compute. discriminate.
    - vm_compute. discriminate. }
  assert (P2 : pp (-206) 1 22
                  (Prim2SF (@add IEEE.binary64 (@add IEEE.binary64 v v) c2))).
  { apply (add_pp (-206) 1 21 1 6 1 22); [lia | | exact C2 | lia | lia | | lia | lia].
    - apply (add_nn (-206) 1 20 1 20 1 21); [exact Hv | exact Hv | lia | lia | | lia | lia].
      vm_compute. discriminate.
    - vm_compute. discriminate. }
  pose proof (mul_pp (-88) (-206) 22 22 _ _ ltac:(lia) ltac:(lia) ltac:(lia)
                ltac:(lia) ltac:(lia) ltac:(lia) P1 P2) as D.
  match goal with
  | |- (if ?c then _ else _) = _ =>
      replace c with true by (symmetry; exact (pp_positive _ _ _ _ D))
  end.
  exact (pp_div_self _ _ _ _ D).
Qed.

Lemma ssim_raw_same (data : PixelData) :
  List.length data = (size * size * 4)%nat -> ssim_raw data data = 1%float.
Proof.
  intros L. unfold ssim_raw, grayscale.
  assert (L4 : List.length data = (4 * (size * size))%nat)
    by (rewrite L; apply Nat.mul_comm).
  destruct (grayscale_loop_same data (size * size) L4 (List.length data) 0 []
              (Forall_nil _) eq_refl (Nat.le_0_l _)) as (l & E & G & Ll).
  { rewrite L4, Nat.sub_0_r. apply Nat.le_mul_l. discriminate. }
  change (4 * 0)%nat with 0%nat in E.
  change (@num IEEE.binary64) with float in E |- *. rewrite E.
  apply ssim_of_gray_same; assumption.
Qed.

(** C6: an image compared with a bit-identical copy of itself: for every
    128 x 128 RGBA pixel array, the single-window SSIM of the two grayscale
    arrays, before the clamp and the sharpening, is exactly 1 on binary64,
    hence at or above 0.99. *)
Theorem identical_images_ssim (data : PixelData) :
  List.length data = (size * size * 4)%nat ->
  ssim_raw data data = 1%float /\ (ssim_raw data data >=? $0.99) = true.
Proof.
  intros L. rewrite (ssim_raw_same data L). split; reflexivity.
Qed.

Lemma identical_images_ssim_witness :
  let data := repeat Byte.x7f (size * size * 4) in
  List.length data = (size * size * 4)%nat
  /\ ssim_raw data data = 1%float /\ (ssim_raw data data >=? $0.99) = true.
Proof.
  cbv zeta. split; [apply repeat_length|].
  apply (identical_images_ssim (repeat Byte.x7f (size * size * 4))).
  apply repeat_length.
Defined.

(** X20: an image compared with itself keeps the score 1 through the clamp
    and the sharpening ([Math.pow(1, 1.5)] is 1): once both images have
    loaded, the SSIM promise is fulfilled with exactly 1. *)
Theorem identical_images_sharpened_ssim (data : PixelData) :
  List.length data = (size * size * 4)%nat ->
  ssim_sharpened data data = 1%float
  /\ calculateAccurateSSIM true true data data [onload1; onload2] = Fulfilled 1%float
  /\ calculateAccurateSSIM true true data data [onload2; onload1] = Fulfilled 1%float.
Proof.
  intros L.
  assert (E : ssim_sharpened data data = 1%float).
  { unfold ssim_sharpened. cbv zeta. rewrite (ssim_raw_same data L). reflexivity. }
  split; [exact E|].
  split; unfold calculateAccurateSSIM; cbn [negb orb fold_left handle];
    unfold processImages, resolve; cbn [loadedCount resolved Nat.eqb];
    rewrite E; reflexivity.
Qed.

Lemma identical_images_sharpened_witness :
  let data := repeat Byte.x7f (size * size * 4) in
  List.length data = (size * size * 4)%nat
  /\ ssim_sharpened data data = 1%float
  /\ calculateAccurateSSIM true true data data [onload1; onload2] = Fulfilled 1%float
  /\ calculateAccurateSSIM true true data data [onload2; onload1] = Fulfilled 1%float.
Proof.
  cbv zeta. split; [apply repeat_length|].
  apply (identical_images_sharpened_ssim (repeat Byte.x7f (size * size * 4))).
  apply repeat_length.
Defined.

End SSIMFacts.
